(** * libuv (Julia fork): pipes and child processes

    A shallow embedding of the pipe and process code of
    [src/unix/pipe.c], [src/unix/process.c] and [src/win/process.c].

    Conventions used throughout:
    - a C [int] is a [Z]; bit operations are the [Z] ones;
    - a system call is not executed: its outcome is an argument of the
      function that makes the call (an oracle), and the calls made are
      recorded in a list of events, in program order;
    - an invocation of a user callback is an event; where the C code
      reads the handle again after the callback returned, what the
      callback did to the handle is a function argument. *)

From Stdlib Require Import ZArith List Bool Lia.
From Stdlib Require String Ascii.
Import ListNotations.

Import String.StringSyntax.
Abbreviation string := String.string.
Open Scope string_scope.
Open Scope list_scope.
Open Scope Z_scope.

(** * Part I: the model *)

(** ** Values of <errno.h> (Linux numbering) *)

Module Errno.
Definition ENOENT : Z := 2.
Definition EINTR : Z := 4.
Definition ECHILD : Z := 10.
Definition EAGAIN : Z := 11.
Definition EWOULDBLOCK : Z := 11.
Definition ENOMEM : Z := 12.
Definition EACCES : Z := 13.
Definition EINVAL : Z := 22.
Definition EPIPE : Z := 32.
Definition EINPROGRESS : Z := 115.
End Errno.

(** Outcome of a system call that returns 0 or -1 with [errno] set. *)
Inductive sys_unit : Type :=
| Done
| Failed (errno : Z).

(** Outcome of a system call that returns a value or -1 with [errno]. *)
Inductive sys_val (A : Type) : Type :=
| Got (v : A)
| Fail (errno : Z).
Arguments Got {A} v.
Arguments Fail {A} errno.

(** ** src/unix/pipe.c *)

Module UnixPipe.
Import Errno.

(** Flag constants of [uv.h] and [internal.h]; the headers are not part
    of the sources at hand, so the values are parameters. *)
Record flag_consts : Type := {
  UV_PIPE_IPC : Z;
  UV_PIPE_SPAWN_SAFE : Z;
  UV_PIPE_READABLE : Z;
  UV_PIPE_WRITEABLE : Z;
  UV_HANDLE_PIPE_IPC : Z;
  UV_HANDLE_PIPE_SPAWN_SAFE : Z;
  UV_STREAM_READABLE : Z;
  UV_STREAM_WRITABLE : Z;
  UV_CLOSING : Z
}.

(** One assignment of distinct bits, used where a concrete run is
    evaluated. *)
Definition sample_consts : flag_consts := {|
  UV_PIPE_IPC := 1;
  UV_PIPE_SPAWN_SAFE := 2;
  UV_PIPE_READABLE := 4;
  UV_PIPE_WRITEABLE := 8;
  UV_HANDLE_PIPE_IPC := 4096;
  UV_HANDLE_PIPE_SPAWN_SAFE := 8192;
  UV_STREAM_READABLE := 32;
  UV_STREAM_WRITABLE := 64;
  UV_CLOSING := 1
|}.

Inductive poll_event : Type := UV__POLLIN | UV__POLLOUT.

(** [uv_connect_t] after [uv__req_init]: the stream it belongs to is
    the pipe that holds it, [cb] names the user's callback. *)
Record uv_connect_t : Type := {
  req_id : nat;
  req_cb : nat
}.

Record uv_pipe_t : Type := {
  flags : Z;
  io_fd : Z;                       (* io_watcher.fd *)
  io_pevents : list poll_event;    (* events the watcher is started for *)
  io_cb_is_accept : bool;          (* io_watcher.cb == uv__pipe_accept *)
  pipe_fname : option string;
  connect_req : option uv_connect_t;
  delayed_error : Z;
  accepted_fd : Z
}.

Definition set_flags (p : uv_pipe_t) (f : Z) : uv_pipe_t :=
  {| flags := f; io_fd := io_fd p; io_pevents := io_pevents p;
     io_cb_is_accept := io_cb_is_accept p;
     pipe_fname := pipe_fname p; connect_req := connect_req p;
     delayed_error := delayed_error p; accepted_fd := accepted_fd p |}.

Definition set_io_fd (p : uv_pipe_t) (fd : Z) : uv_pipe_t :=
  {| flags := flags p; io_fd := fd; io_pevents := io_pevents p;
     io_cb_is_accept := io_cb_is_accept p;
     pipe_fname := pipe_fname p; connect_req := connect_req p;
     delayed_error := delayed_error p; accepted_fd := accepted_fd p |}.

Definition set_io_pevents (p : uv_pipe_t) (ev : list poll_event) : uv_pipe_t :=
  {| flags := flags p; io_fd := io_fd p; io_pevents := ev;
     io_cb_is_accept := io_cb_is_accept p;
     pipe_fname := pipe_fname p; connect_req := connect_req p;
     delayed_error := delayed_error p; accepted_fd := accepted_fd p |}.

Definition set_pipe_fname (p : uv_pipe_t) (n : option string) : uv_pipe_t :=
  {| flags := flags p; io_fd := io_fd p; io_pevents := io_pevents p;
     io_cb_is_accept := io_cb_is_accept p;
     pipe_fname := n; connect_req := connect_req p;
     delayed_error := delayed_error p; accepted_fd := accepted_fd p |}.

Definition set_connect (p : uv_pipe_t) (err : Z) (r : uv_connect_t) : uv_pipe_t :=
  {| flags := flags p; io_fd := io_fd p; io_pevents := io_pevents p;
     io_cb_is_accept := io_cb_is_accept p;
     pipe_fname := pipe_fname p; connect_req := Some r;
     delayed_error := err; accepted_fd := accepted_fd p |}.

Definition set_accepted_fd (p : uv_pipe_t) (fd : Z) : uv_pipe_t :=
  {| flags := flags p; io_fd := io_fd p; io_pevents := io_pevents p;
     io_cb_is_accept := io_cb_is_accept p;
     pipe_fname := pipe_fname p; connect_req := connect_req p;
     delayed_error := delayed_error p; accepted_fd := fd |}.

(** What a pipe function does to the world outside the handle. *)
Inductive event : Type :=
| EvSocket                                   (* uv__socket(AF_UNIX, SOCK_STREAM, 0) *)
| EvBind (fd : Z) (path : string)
| EvConnect (fd : Z) (path : string)
| EvClose (fd : Z)
| EvUnlink (path : string)
| EvSocketpair (nonblock cloexec : bool) (res : sys_val (Z * Z))
| EvCloexec (fd : Z) (on : bool)
| EvNonblock (fd : Z) (on : bool)
| EvStreamOpen (fd : Z) (fl : Z)
| EvCloseSync                                (* uv_pipe_close_sync(read) *)
| EvIoStart (ev : list poll_event)
| EvIoStop (ev : list poll_event)
| EvIoFeed
| EvConnectCb (req : nat) (status : Z)       (* req->cb(req, status) *)
| EvConnectionCb (status : Z).               (* pipe->connection_cb(pipe, status) *)

Definition is_callback (e : event) : bool :=
  match e with
  | EvConnectCb _ _ | EvConnectionCb _ => true
  | _ => false
  end.

(** [uv_strlcpy(saddr.sun_path, name, sizeof(saddr.sun_path))]: at most
    107 characters are kept. *)
Fixpoint take_string (n : nat) (s : string) : string :=
  match n, s with
  | S n', String.String c s' => String.String c (take_string n' s')
  | _, _ => String.EmptyString
  end.

Definition sun_path (name : string) : string := take_string 107 name.

Section WithConsts.
Variable K : flag_consts.

(** [cond ? bit : 0] *)
Definition pick (cond : Z) (bit : Z) : Z := if cond =? 0 then 0 else bit.

(** [uv_pipe_init]; [base] is the flag word [uv__stream_init] leaves. *)
Definition uv_pipe_init (base : Z) (fl : Z) : uv_pipe_t :=
  {| flags :=
       Z.lor base
         (Z.lor (pick (Z.land fl (UV_PIPE_IPC K)) (UV_HANDLE_PIPE_IPC K))
         (Z.lor (pick (Z.land fl (UV_PIPE_SPAWN_SAFE K)) (UV_HANDLE_PIPE_SPAWN_SAFE K))
         (Z.lor (pick (Z.land fl (UV_PIPE_READABLE K)) (UV_STREAM_READABLE K))
                (pick (Z.land fl (UV_PIPE_WRITEABLE K)) (UV_STREAM_WRITABLE K)))));
     io_fd := -1;
     io_pevents := [];
     io_cb_is_accept := false;
     pipe_fname := None;
     connect_req := None;
     delayed_error := 0;
     accepted_fd := -1 |}.

(** [uv_pipe_bind].  [strdup_ok], [socket_res] (a descriptor or a
    negated errno) and [bind_res] are the outcomes of [strdup],
    [uv__socket] and [bind]. *)
Definition uv_pipe_bind (handle : uv_pipe_t) (name : string)
    (strdup_ok : bool) (socket_res : Z) (bind_res : sys_unit)
  : Z * uv_pipe_t * list event :=
  if io_fd handle >=? 0 then (- EINVAL, handle, [])
  else if negb strdup_ok then (- ENOMEM, handle, [EvClose (-1)])
  else
    let err := socket_res in
    if err <? 0 then (err, handle, [EvSocket; EvClose (-1)])
    else
      let sockfd := err in
      match bind_res with
      | Failed errno =>
          let err := - errno in
          let err := if err =? - ENOENT then - EACCES else err in
          (* [bound] is still 0 at [out]: no unlink *)
          (err, handle,
           [EvSocket; EvBind sockfd (sun_path name); EvClose sockfd])
      | Done =>
          (0, set_io_fd (set_pipe_fname handle (Some name)) sockfd,
           [EvSocket; EvBind sockfd (sun_path name)])
      end.

(** The loop substrate ([uv__io_start], [uv__io_stop], [uv__io_feed],
    [uv__stream_open]) lives in files that are not at hand.  A call is
    recorded as an event; in the handle, [uv__io_start] adds to the
    events the watcher polls for and [uv__io_stop] removes from them. *)
Definition poll_event_eqb (a b : poll_event) : bool :=
  match a, b with
  | UV__POLLIN, UV__POLLIN | UV__POLLOUT, UV__POLLOUT => true
  | _, _ => false
  end.

Definition uv__io_start (p : uv_pipe_t) (ev : list poll_event) : uv_pipe_t :=
  set_io_pevents p
    (io_pevents p ++
     filter (fun e => negb (existsb (poll_event_eqb e) (io_pevents p))) ev).

Definition uv__io_stop (p : uv_pipe_t) (ev : list poll_event) : uv_pipe_t :=
  set_io_pevents p
    (filter (fun e => negb (existsb (poll_event_eqb e) ev)) (io_pevents p)).

(** Modelled from the spec: [uv__stream_open] (src/unix/stream.c),
    "adopts an existing descriptor"; [res] is its return value, and on
    0 the stream holds the descriptor and the flags given. *)
Definition uv__stream_open (p : uv_pipe_t) (fd fl res : Z) : uv_pipe_t :=
  if res =? 0 then set_io_fd (set_flags p (Z.lor (flags p) fl)) fd else p.

(** [if (v)] on a C integer. *)
Definition c_true (v : Z) : bool := negb (v =? 0).

(** Modelled from the spec: [uv__stream_close] (src/unix/stream.c),
    "release the descriptor and transition into the closing phase":
    the watcher polls for nothing any more and the stream gives up its
    descriptor. *)
Definition uv__stream_close (p : uv_pipe_t) : uv_pipe_t :=
  set_io_pevents (set_io_fd p (-1)) [].

(** [uv_pipe_close_sync]: the stream is closed and the handle is
    flagged UV_CLOSING ([close_cb] is not part of the model, and
    [uv__finish_close] is not among the sources at hand). *)
Definition uv_pipe_close_sync (pipe : uv_pipe_t) : uv_pipe_t :=
  let pipe := uv__stream_close pipe in
  set_flags pipe (Z.lor (flags pipe) (UV_CLOSING K)).

(** [uv_pipe_link].  [have_SOCK_NONBLOCK] says whether the
    [#ifdef SOCK_NONBLOCK] block is compiled in; [sp1] and [sp2] are the
    outcomes of the socketpair call inside that block and of the plain
    one; [open_r] and [open_w] those of the two [uv__stream_open].
    When the second [uv__stream_open] fails, the read end, which holds
    its descriptor by then, goes through [uv_pipe_close_sync] (the
    event [EvCloseSync]) before both descriptors are closed. *)
Definition open_fds (read write : uv_pipe_t) (fds : Z * Z)
    (open_r open_w : Z) (evs : list event)
  : Z * uv_pipe_t * uv_pipe_t * list event :=
  let err := open_r in
  if c_true err then
    (-1, read, write,
     evs ++ [EvStreamOpen (fst fds) 0; EvClose (fst fds); EvClose (snd fds)])
  else
    let read' := uv__stream_open read (fst fds) 0 open_r in
    let err := open_w in
    if c_true err then
      (-1, uv_pipe_close_sync read', write,
       evs ++ [EvStreamOpen (fst fds) 0; EvStreamOpen (snd fds) 0;
               EvCloseSync; EvClose (fst fds); EvClose (snd fds)])
    else
      (0, read', uv__stream_open write (snd fds) 0 open_w,
       evs ++ [EvStreamOpen (fst fds) 0; EvStreamOpen (snd fds) 0]).

Definition plain_socketpair (read write : uv_pipe_t)
    (sp2 : sys_val (Z * Z)) (open_r open_w : Z) (evs : list event)
  : Z * uv_pipe_t * uv_pipe_t * list event :=
  match sp2 with
  | Fail _ => (-1, read, write, evs ++ [EvSocketpair false false sp2])
  | Got fds =>
      let evs := evs ++ [EvSocketpair false false sp2;
                         EvCloexec (fst fds) true; EvCloexec (snd fds) true] in
      let evs :=
        if c_true (Z.lnot (Z.land (flags read) (UV_PIPE_SPAWN_SAFE K)))
        then evs ++ [EvNonblock (fst fds) true] else evs in
      let evs :=
        if c_true (Z.lnot (Z.land (flags write) (UV_PIPE_SPAWN_SAFE K)))
        then evs ++ [EvNonblock (snd fds) true] else evs in
      open_fds read write fds open_r open_w evs
  end.

Definition uv_pipe_link (have_SOCK_NONBLOCK : bool) (read write : uv_pipe_t)
    (sp1 sp2 : sys_val (Z * Z)) (open_r open_w : Z)
  : Z * uv_pipe_t * uv_pipe_t * list event :=
  if have_SOCK_NONBLOCK &&
     c_true (Z.lnot (Z.land (Z.lor (flags read) (flags write))
                            (UV_PIPE_SPAWN_SAFE K)))
  then
    match sp1 with
    | Got fds =>
        open_fds read write fds open_r open_w [EvSocketpair true true sp1]
    | Fail errno =>
        if negb (errno =? EINVAL)
        then (-1, read, write, [EvSocketpair true true sp1])
        else plain_socketpair read write sp2 open_r open_w
               [EvSocketpair true true sp1]
    end
  else plain_socketpair read write sp2 open_r open_w [].

(** Whether the events put the descriptor [fd] in non-blocking mode:
    it came from a socketpair made with SOCK_NONBLOCK, or
    [uv__nonblock(fd, 1)] was called on it. *)
Definition sets_nonblock (fd : Z) (e : event) : bool :=
  match e with
  | EvSocketpair true _ (Got fds) => (fst fds =? fd) || (snd fds =? fd)
  | EvNonblock fd' true => fd' =? fd
  | _ => false
  end.

Definition nonblock_applied (evs : list event) (fd : Z) : bool :=
  existsb (sets_nonblock fd) evs.


(** The [do ... while (r == -1 && errno == EINTR)] loop around
    connect(2).  [script] lists the outcomes of the successive calls;
    the result is [None] when every call listed was interrupted, that
    is, when the loop has not ended yet. *)
Fixpoint connect_loop (fd : Z) (path : string) (script : list sys_unit)
  : option (sys_unit * list event) :=
  match script with
  | [] => None
  | Done :: _ => Some (Done, [EvConnect fd path])
  | Failed e :: rest =>
      if e =? EINTR then
        match connect_loop fd path rest with
        | Some (r, evs) => Some (r, EvConnect fd path :: evs)
        | None => None
        end
      else Some (Failed e, [EvConnect fd path])
  end.

(** The code from the label [out] on: [err] is stored, the request is
    initialised and attached, and on error the watcher is fed. *)
Definition connect_out (req : nat) (cb : nat) (handle : uv_pipe_t)
    (err : Z) (evs : list event) : uv_pipe_t * list event :=
  (set_connect handle err {| req_id := req; req_cb := cb |},
   evs ++ (if c_true err then [EvIoFeed] else [])).

(** [uv_pipe_connect] (it returns [void]).  [socket_res], [script] and
    [open_res] are the outcomes of [uv__socket], of the connect(2)
    calls and of [uv__stream_open]. *)
Definition uv_pipe_connect (req : nat) (handle : uv_pipe_t) (name : string)
    (cb : nat) (socket_res : Z) (script : list sys_unit) (open_res : Z)
  : option (uv_pipe_t * list event) :=
  let new_sock := io_fd handle =? -1 in
  if new_sock && (socket_res <? 0)
  then Some (connect_out req cb handle socket_res [EvSocket])
  else
    let handle := if new_sock then set_io_fd handle socket_res else handle in
    let evs := if new_sock then [EvSocket] else [] in
    match connect_loop (io_fd handle) (sun_path name) script with
    | None => None
    | Some (r, evc) =>
        let evs := evs ++ evc in
        let failed :=
          match r with
          | Failed e => if negb (e =? EINPROGRESS) then Some (- e) else None
          | Done => None
          end in
        match failed with
        | Some err => Some (connect_out req cb handle err evs)
        | None =>
            let err := if new_sock then open_res else 0 in
            let evs :=
              if new_sock
              then evs ++ [EvStreamOpen (io_fd handle)
                             (Z.lor (UV_STREAM_READABLE K) (UV_STREAM_WRITABLE K))]
              else evs in
            let handle :=
              if new_sock
              then uv__stream_open handle (io_fd handle)
                     (Z.lor (UV_STREAM_READABLE K) (UV_STREAM_WRITABLE K))
                     open_res
              else handle in
            if err =? 0
            then Some (connect_out req cb
                         (uv__io_start handle [UV__POLLIN; UV__POLLOUT]) err
                         (evs ++ [EvIoStart [UV__POLLIN; UV__POLLOUT]]))
            else Some (connect_out req cb handle err evs)
        end
    end.

(** [uv__pipe_accept], the watcher callback of a listening pipe.
    [accept_res] is the outcome of [uv__accept], which the code takes to
    return -1 with [errno] set when it fails; [connection_cb] is what
    the user's connection callback does to the pipe (it may call
    [uv_accept], which empties [accepted_fd]). *)
Definition uv__pipe_accept (pipe : uv_pipe_t) (accept_res : sys_val Z)
    (connection_cb : uv_pipe_t -> Z -> uv_pipe_t)
  : uv_pipe_t * list event :=
  match accept_res with
  | Fail errno =>
      if negb (errno =? EAGAIN) && negb (errno =? EWOULDBLOCK)
      then (connection_cb pipe (- errno), [EvConnectionCb (- errno)])
      else (pipe, [])
  | Got sockfd =>
      let pipe := set_accepted_fd pipe sockfd in
      let pipe := connection_cb pipe 0 in
      if accepted_fd pipe =? sockfd
      then (uv__io_stop pipe [UV__POLLIN],
            [EvConnectionCb 0; EvIoStop [UV__POLLIN]])
      else (pipe, [EvConnectionCb 0])
  end.

End WithConsts.

(** What [uv__pipe_close] does outside the handle; [uv__stream_close]
    is not part of the sources at hand and is recorded as one step. *)
Inductive close_step : Type :=
| Unlink (path : string)
| StreamClose.

(** [uv__pipe_close] *)
Definition uv__pipe_close (handle : uv_pipe_t) : uv_pipe_t * list close_step :=
  match pipe_fname handle with
  | Some name => (set_pipe_fname handle None, [Unlink name; StreamClose])
  | None => (handle, [StreamClose])
  end.

(** *** The loop's side of a connect *)



End UnixPipe.

(** ** src/unix/process.c *)

Module UnixProcess.
Import Errno.

(** *** The status word of waitpid(2): the macros of <sys/wait.h>
    (glibc, bits/waitstatus.h) *)

Definition signed_char (v : Z) : Z :=
  let m := v mod 256 in if m <? 128 then m else m - 256.

Definition WTERMSIG (status : Z) : Z := Z.land status 127.
Definition WEXITSTATUS (status : Z) : Z := Z.shiftr (Z.land status 65280) 8.
Definition WIFEXITED (status : Z) : bool := WTERMSIG status =? 0.
Definition WIFSIGNALED (status : Z) : bool :=
  0 <? Z.shiftr (signed_char (Z.land status 127 + 1)) 1.

(** The words the kernel hands out: [W_EXITCODE(ret, 0)] for a child
    that called exit, the signal number (with 0x80 for a core dump) for
    a child killed by a signal. *)
Definition status_of_exit (code : Z) : Z := Z.shiftl code 8.
Definition status_of_signal (sig : Z) (core : bool) : Z :=
  Z.lor sig (if core then 128 else 0).

(** *** Handles and the loop *)

Record uv_process_t : Type := {
  handle : nat;               (* the address of the handle *)
  pid : Z;
  status : Z;
  exit_cb : option nat;       (* NULL, or the user's callback *)
  active : bool               (* uv__handle_start / uv__handle_stop *)
}.

(** [loop->process_handles]: an array of queues, indexed by
    [pid % ARRAY_SIZE(loop->process_handles)]. *)
Definition process_handles : Type := list (list uv_process_t).

Inductive event : Type :=
| EvExitCb (h : nat) (cb : nat) (exit_status term_signal : Z).

Definition set_status (p : uv_process_t) (st : Z) : uv_process_t :=
  {| handle := handle p; pid := pid p; status := st;
     exit_cb := exit_cb p; active := active p |}.

Definition uv__handle_stop (p : uv_process_t) : uv_process_t :=
  {| handle := handle p; pid := pid p; status := status p;
     exit_cb := exit_cb p; active := false |}.

(** What [waitpid(pid, &status, WNOHANG)] answers, once it is no longer
    interrupted (the code repeats the call while it fails with EINTR). *)
Inductive wait_outcome : Type :=
| Running                     (* returns 0 *)
| Reaped (status : Z)         (* returns the pid *)
| WaitError (errno : Z).      (* returns -1 *)

(** The first [while] loop of [uv__chld] over one queue: what stays in
    the queue and what moves to [pending], in order.  [None] is
    [abort()]. *)
Fixpoint scan_queue (waitpid : Z -> wait_outcome) (q : list uv_process_t)
  : option (list uv_process_t * list uv_process_t) :=
  match q with
  | [] => Some ([], [])
  | process :: rest =>
      match waitpid (pid process) with
      | Running =>
          option_map (fun r => (process :: fst r, snd r))
                     (scan_queue waitpid rest)
      | WaitError errno =>
          if negb (errno =? ECHILD) then None
          else option_map (fun r => (process :: fst r, snd r))
                          (scan_queue waitpid rest)
      | Reaped st =>
          option_map (fun r => (fst r, set_status process st :: snd r))
                     (scan_queue waitpid rest)
      end
  end.

(** The arguments of the exit callback, from [process->status]. *)
Definition exit_args (st : Z) : Z * Z :=
  let exit_status := if WIFEXITED st then WEXITSTATUS st else 0 in
  let term_signal := if WIFSIGNALED st then WTERMSIG st else 0 in
  (exit_status, term_signal).

(** The second [while] loop: every pending handle is stopped and, when
    it has an exit callback, the callback is invoked. *)
Definition run_pending (pending : list uv_process_t) : list event :=
  flat_map
    (fun process =>
       match exit_cb process with
       | None => []
       | Some cb =>
           [EvExitCb (handle process) cb
              (fst (exit_args (status process)))
              (snd (exit_args (status process)))]
       end)
    pending.

(** [uv__chld]: the queues after the run, the handles reaped (stopped,
    with their status) and the callbacks invoked, in order.  The exit
    callbacks are taken not to touch the queues while the run lasts. *)
Fixpoint uv__chld (waitpid : Z -> wait_outcome) (qs : process_handles)
  : option (process_handles * list uv_process_t * list event) :=
  match qs with
  | [] => Some ([], [], [])
  | q :: rest =>
      match scan_queue waitpid q with
      | None => None
      | Some (kept, pending) =>
          match uv__chld waitpid rest with
          | None => None
          | Some (rest', reaped, evs) =>
              Some (kept :: rest',
                    map uv__handle_stop pending ++ reaped,
                    run_pending pending ++ evs)
          end
      end
  end.

(** Successive deliveries of SIGCHLD, each with the answers waitpid
    gives at that time. *)
Fixpoint deliveries (oracles : list (Z -> wait_outcome)) (qs : process_handles)
  : option (process_handles * list event) :=
  match oracles with
  | [] => Some (qs, [])
  | waitpid :: later =>
      match uv__chld waitpid qs with
      | None => None
      | Some (qs', _, evs) =>
          match deliveries later qs' with
          | None => None
          | Some (qs'', evs') => Some (qs'', evs ++ evs')
          end
      end
  end.

(** *** Descriptors of the child *)

Inductive open_mode : Type := O_RDONLY | O_WRONLY | O_RDWR.

Record file : Type := {
  target : string;
  mode : open_mode;
  cloexec : bool
}.

(** A descriptor table: what each descriptor number is open to. *)
Definition fdtable : Type := Z -> option file.

Definition fd_set (t : fdtable) (fd : Z) (f : option file) : fdtable :=
  fun k => if k =? fd then f else t k.

(** open(2) returns the lowest descriptor number that is not open;
    numbers below [limit] exist (RLIMIT_NOFILE). *)
Fixpoint lowest_free (t : fdtable) (limit : nat) (fd : Z) : option Z :=
  match limit with
  | O => None
  | S limit' =>
      match t fd with
      | None => Some fd
      | Some _ => lowest_free t limit' (fd + 1)
      end
  end.

Definition EMFILE : Z := 24.

(** [open_err] is an error open(2) meets on the path, if any. *)
Definition sys_open (limit : nat) (open_err : option Z) (t : fdtable)
    (path : string) (m : open_mode) : sys_val (Z * fdtable) :=
  match open_err with
  | Some e => Fail e
  | None =>
      match lowest_free t limit 0 with
      | None => Fail EMFILE
      | Some fd =>
          Got (fd, fd_set t fd
                     (Some {| target := path; mode := m; cloexec := false |}))
      end
  end.

(** dup2(2): [newfd] becomes a copy of [oldfd] without FD_CLOEXEC; when
    [oldfd] is not open the call fails and nothing changes (the code
    does not look at the result). *)
Definition sys_dup2 (t : fdtable) (oldfd newfd : Z) : fdtable :=
  match t oldfd with
  | None => t
  | Some f =>
      fd_set t newfd
        (Some {| target := target f; mode := mode f; cloexec := false |})
  end.

Definition sys_close (t : fdtable) (fd : Z) : fdtable := fd_set t fd None.

(** [uv__cloexec(fd, 0)] *)
Definition clear_cloexec (t : fdtable) (fd : Z) : fdtable :=
  match t fd with
  | None => t
  | Some f =>
      fd_set t fd
        (Some {| target := target f; mode := mode f; cloexec := false |})
  end.

(** exec closes the descriptors marked FD_CLOEXEC. *)
Definition after_exec (t : fdtable) : fdtable :=
  fun k => match t k with
           | Some f => if cloexec f then None else Some f
           | None => None
           end.

(** *** Spawn *)

Inductive uv_stdio_container_t : Type :=
| UV_STREAM (stream_fd : option Z)   (* NULL, or the stream's io_watcher.fd *)
| UV_RAW_FD (fd : Z)
| UV_RAW_HANDLE (fd : Z)
| UV_OTHER.                          (* any other [type] *)

Record uv_process_options_t : Type := {
  opt_exit_cb : option nat;
  opt_stdio : list uv_stdio_container_t;     (* stdio, stdio_count *)
  opt_cwd : option string;
  opt_setuid : bool;
  opt_setgid : bool;
  opt_detached : bool;
  opt_reset_sigpipe : bool
}.

(** [uv__process_init_stdio]: the return value and [fds[1]].  A
    container of a type the switch does not handle meets [assert(0)]:
    [NDEBUG] says whether assertions are compiled out, and [None] is the
    abort of the failed assertion. *)
Definition uv__process_init_stdio (NDEBUG : bool)
    (container : uv_stdio_container_t) : option (Z * Z) :=
  match container with
  | UV_STREAM None => Some (0, -1)
  | UV_STREAM (Some fd) => Some (if fd =? -1 then (-1, fd) else (0, fd))
  | UV_RAW_FD fd | UV_RAW_HANDLE fd =>
      Some (if fd =? -1 then (-1, fd) else (0, fd))
  | UV_OTHER => if NDEBUG then Some (- EINVAL, -1) else None
  end.

(** The loop that fills [pipes] from the options; the error of the
    first container that fails ends it, and so does an abort. *)
Fixpoint init_pipes (NDEBUG : bool) (stdio : list uv_stdio_container_t)
  : option (sys_val (list (Z * Z))) :=
  match stdio with
  | [] => Some (Got [])
  | c :: rest =>
      match uv__process_init_stdio NDEBUG c with
      | None => None
      | Some (err, fd1) =>
          if negb (err =? 0) then Some (Fail err)
          else match init_pipes NDEBUG rest with
               | Some (Got l) => Some (Got ((-1, fd1) :: l))
               | Some (Fail e) => Some (Fail e)
               | None => None
               end
      end
  end.

(** [pipes]: [max(stdio_count, 3)] pairs, (-1, -1) where the options
    say nothing. *)
Definition pad_pipes (l : list (Z * Z)) : list (Z * Z) :=
  l ++ repeat (-1, -1) (3 - length l).

(** What the child meets: the descriptor limit and the outcomes of its
    system calls. *)
Record child_world : Type := {
  nofile : nat;
  devnull_err : option Z;
  chdir_res : sys_unit;
  setgid_res : sys_unit;
  setuid_res : sys_unit;
  signal_res : sys_unit;
  exec_res : sys_unit            (* [Done]: the new image runs *)
}.

(** The loop of [uv__process_child_init] over the stdio slots, from
    slot [fd] on.  A pair is (close_fd, use_fd).  The O_NONBLOCK flag,
    which [uv__nonblock(fd, 0)] clears on the first three slots, is not
    part of the table; [uv__close] is taken to be close(2). *)
Fixpoint child_stdio (w : child_world) (fd : Z) (pipes : list (Z * Z))
    (t : fdtable) : sys_val fdtable :=
  match pipes with
  | [] => Got t
  | (close_fd, use_fd) :: rest =>
      let place (t : fdtable) (close_fd use_fd : Z) :=
        let t := if fd =? use_fd then clear_cloexec t use_fd
                 else sys_dup2 t use_fd fd in
        let t := if negb (close_fd =? -1) then sys_close t close_fd else t in
        child_stdio w (fd + 1) rest t in
      if use_fd <? 0 then
        if fd >=? 3 then child_stdio w (fd + 1) rest t
        else
          match sys_open (nofile w) (devnull_err w) t "/dev/null"
                  (if fd =? 0 then O_RDONLY else O_RDWR) with
          | Fail e => Fail (- e)
          | Got (use_fd, t) => place t use_fd use_fd
          end
      else place t close_fd use_fd
  end.

Definition neg_errno (r : sys_unit) : option Z :=
  match r with
  | Done => None
  | Failed e => Some (- e)
  end.

(** [uv__process_child_init]: the descriptors the new program starts
    with, or the error stored for the parent before [_exit(127)]. *)
Definition uv__process_child_init (options : uv_process_options_t)
    (pipes : list (Z * Z)) (w : child_world) (t : fdtable)
  : sys_val fdtable :=
  match child_stdio w 0 pipes t with
  | Fail err => Fail err
  | Got t =>
      let step (cond : bool) (r : sys_unit) (k : sys_val fdtable) :=
        if cond then match neg_errno r with
                     | Some err => Fail err
                     | None => k
                     end
        else k in
      step (match opt_cwd options with Some _ => true | None => false end)
           (chdir_res w)
        (step (opt_setgid options) (setgid_res w)
          (step (opt_setuid options) (setuid_res w)
            (step (opt_reset_sigpipe options) (signal_res w)
              (step true (exec_res w) (Got (after_exec t))))))
  end.

Inductive child_fate : Type :=
| NoChild                          (* spawn failed before the fork *)
| Runs (fds : fdtable)             (* exec happened *)
| Exits127.                        (* the child called _exit(127) *)

Fixpoint insert_tail_at (i : nat) (p : uv_process_t) (qs : process_handles)
  : process_handles :=
  match qs, i with
  | [], _ => []
  | q :: rest, O => (q ++ [p]) :: rest
  | q :: rest, S i' => q :: insert_tail_at i' p rest
  end.

(** [uv__process_queue] and [QUEUE_INSERT_TAIL]. *)
Definition queue_insert (qs : process_handles) (p : uv_process_t)
  : process_handles :=
  insert_tail_at (Z.to_nat (pid p mod Z.of_nat (length qs))) p qs.

Record spawn_result : Type := {
  ret : Z;
  queues : process_handles;
  process : option uv_process_t;   (* the handle, once it is filled in *)
  child : child_fate
}.

(** [uv_spawn] (the Linux build: vfork, and the child reports through
    [exec_errorno]).  [h] is the handle to fill, [malloc_ok] and
    [fork_res] the outcomes of malloc and vfork, [t] the descriptors of
    the parent, which the child starts with.  [None] is the abort of a
    failed assertion in [uv__process_init_stdio]. *)
Definition uv_spawn (NDEBUG : bool) (qs : process_handles) (h : nat)
    (options : uv_process_options_t) (malloc_ok : bool)
    (fork_res : sys_val Z) (w : child_world) (t : fdtable)
  : option spawn_result :=
  let failed (err : Z) :=
    {| ret := err; queues := qs; process := None; child := NoChild |} in
  if negb malloc_ok then Some (failed (- ENOMEM))
  else
    match init_pipes NDEBUG (opt_stdio options) with
    | None => None
    | Some (Fail err) => Some (failed err)
    | Some (Got l) =>
        let pipes := pad_pipes l in
        match fork_res with
        | Fail errno => Some (failed (- errno))
        | Got pid =>
            let child_res := uv__process_child_init options pipes w t in
            let exec_errorno :=
              match child_res with Got _ => 0 | Fail err => err end in
            let fate :=
              match child_res with Got fds => Runs fds | Fail _ => Exits127 end in
            let running := exec_errorno =? 0 in
            let p := {| handle := h; pid := pid; status := 0;
                        exit_cb := opt_exit_cb options;
                        active := running |} in
            Some
              {| ret := exec_errorno;
                 queues := if running then queue_insert qs p else qs;
                 process := Some p;
                 child := fate |}
        end
    end.

(** [uv__process_close] *)
Definition uv__process_close (qs : process_handles) (h : nat)
  : process_handles :=
  map (filter (fun p => negb (Nat.eqb (handle p) h))) qs.

(** *** Pipes for the parent-child handshake *)

Definition ENOSYS : Z := 38.

Inductive pipe_event : Type :=
| EvPipe2 (flags : Z)                (* uv__pipe2(fds, flags) *)
| EvPipe                             (* pipe(fds) *)
| EvSetCloexec (fd : Z)              (* uv__cloexec(fd, 1) *)
| EvSetNonblock (fd : Z).            (* uv__nonblock(fd, 1) *)

Section MakePipe.
(** The two flag values are defined in headers that are not at hand. *)
Variables UV__O_CLOEXEC UV__F_NONBLOCK : Z.

(** [uv__make_pipe] from the label [skip] on: the return value, the
    descriptors and the calls made. *)
Definition plain_pipe (flags : Z) (pipe_res : sys_val (Z * Z))
  : Z * option (Z * Z) * list pipe_event :=
  match pipe_res with
  | Fail errno => (- errno, None, [EvPipe])
  | Got fds =>
      (0, Some fds,
       [EvPipe; EvSetCloexec (fst fds); EvSetCloexec (snd fds)]
       ++ (if negb (Z.land flags UV__F_NONBLOCK =? 0)
           then [EvSetNonblock (fst fds); EvSetNonblock (snd fds)]
           else []))
  end.

(** [uv__make_pipe] (the Linux build).  [no_pipe2] is the static
    variable of that name, given as it is before the call and returned
    as it is after it; [pipe2_res] and [pipe_res] are the outcomes of
    [uv__pipe2] and of pipe(2). *)
Definition uv__make_pipe (no_pipe2 : bool) (flags : Z)
    (pipe2_res pipe_res : sys_val (Z * Z))
  : bool * (Z * option (Z * Z) * list pipe_event) :=
  if no_pipe2 then (true, plain_pipe flags pipe_res)
  else
    match pipe2_res with
    | Got fds => (false, (0, Some fds, [EvPipe2 (Z.lor flags UV__O_CLOEXEC)]))
    | Fail errno =>
        if negb (errno =? ENOSYS)
        then (false, (- errno, None, [EvPipe2 (Z.lor flags UV__O_CLOEXEC)]))
        else
          let '(r, fds, evs) := plain_pipe flags pipe_res in
          (true, (r, fds, EvPipe2 (Z.lor flags UV__O_CLOEXEC) :: evs))
    end.

(** One call of [uv__make_pipe]: its argument and what the system
    calls would answer. *)
Record pipe_call : Type := {
  call_flags : Z;
  call_pipe2 : sys_val (Z * Z);
  call_pipe : sys_val (Z * Z)
}.

(** Successive calls in one process: the static variable is carried
    from each call to the next. *)
Fixpoint make_pipes (no_pipe2 : bool) (calls : list pipe_call)
  : bool * list (Z * option (Z * Z) * list pipe_event) :=
  match calls with
  | [] => (no_pipe2, [])
  | c :: later =>
      let '(no_pipe2', r) :=
        uv__make_pipe no_pipe2 (call_flags c) (call_pipe2 c) (call_pipe c) in
      let '(final, rs) := make_pipes no_pipe2' later in
      (final, r :: rs)
  end.

End MakePipe.


End UnixProcess.

(** ** src/win/process.c *)

Module WinProcess.

(** A [wchar_t] is its code unit; a wide string is the list of its
    code units, without the terminating null. *)
Abbreviation wstring := (list Z).

(** The wide string of an ASCII literal. *)
Definition W (s : string) : wstring :=
  map (fun a => Z.of_N (Ascii.N_of_ascii a)) (String.list_ascii_of_string s).

Definition L_tab : Z := 9.
Definition L_space : Z := 32.
Definition L_dquote : Z := 34.       (* the double quote *)
Definition L_squote : Z := 39.       (* the single quote *)
Definition L_dot : Z := 46.
Definition L_slash : Z := 47.
Definition L_colon : Z := 58.
Definition L_semicolon : Z := 59.
Definition L_equals : Z := 61.
Definition L_backslash : Z := 92.

(** [wcspbrk(source, accept) != NULL] *)
Definition wcspbrk (source : wstring) (accept : list Z) : bool :=
  existsb (fun c => existsb (Z.eqb c) accept) source.

(** The characters of a buffer up to its first null; [None] when
    there is none (the buffer does not hold a string). *)
Fixpoint wcs (buffer : list Z) : option wstring :=
  match buffer with
  | [] => None
  | c :: rest =>
      if c =? 0 then Some []
      else option_map (cons c) (wcs rest)
  end.

(** *** Quoting of command line arguments *)

(** The [for] loop of [quote_cmd_arg]: it reads the source from its end
    ([rsource] is the source reversed) and writes the target forwards. *)
Fixpoint quote_loop (rsource : wstring) (quote_hit : bool) : wstring :=
  match rsource with
  | [] => []
  | c :: rest =>
      if quote_hit && (c =? L_backslash)
      then c :: L_backslash :: quote_loop rest quote_hit
      else if c =? L_dquote
           then c :: L_backslash :: quote_loop rest true
           else c :: quote_loop rest false
  end.

(** [quote_cmd_arg]: what is written at [target]. *)
Definition quote_cmd_arg (source : wstring) : wstring :=
  if (length source =? 0)%nat then []
  else if negb (wcspbrk source [L_space; L_tab; L_dquote]) then source
  else if negb (wcspbrk source [L_dquote; L_backslash])
       then [L_dquote] ++ source ++ [L_dquote]
       else [L_dquote] ++ rev (quote_loop (rev source) true) ++ [L_dquote].

Section Marshalling.

(** [uv_utf8_to_utf16] is not part of the sources at hand: [utf16 s]
    is the wide string it produces for [s], [None] when it fails
    (returns 0). *)
Variable utf16 : string -> option wstring.

(** The second loop of [make_program_args]: what is written to [dst],
    or [None] for the [error] exit. *)
Fixpoint program_args_loop (args : list string) (verbatim_arguments : bool)
  : option (list Z) :=
  match args with
  | [] => Some []
  | arg :: rest =>
      match utf16 arg with
      | None => None
      | Some buffer =>
          let written :=
            if verbatim_arguments then buffer else quote_cmd_arg buffer in
          let sep := match rest with [] => 0 | _ :: _ => L_space end in
          option_map (fun tail => written ++ sep :: tail)
                     (program_args_loop rest verbatim_arguments)
      end
  end.

(** [make_program_args]: the contents of the buffer returned, [None]
    for NULL. *)
Definition make_program_args (args : list string) (verbatim_arguments : bool)
  : option (list Z) :=
  program_args_loop args verbatim_arguments.

End Marshalling.

(** *** The parser of the child: CommandLineToArgvW

    This function belongs to Windows, not to libuv.  It is written
    here after its documentation: the program name runs to the next
    double quote when the line starts with one, else to the next space
    or tab, and backslashes in it are not special; in the arguments
    that follow, spaces and tabs outside quotes separate, 2n
    backslashes before a double quote give n backslashes and the quote
    opens or closes a quoted part, 2n+1 backslashes before a double
    quote give n backslashes and a literal quote, and backslashes
    before anything else stand for themselves. *)

Definition is_space (c : Z) : bool := (c =? L_space) || (c =? L_tab).

Fixpoint until_quote (s : wstring) : wstring * wstring :=
  match s with
  | [] => ([], [])
  | c :: rest =>
      if c =? L_dquote then ([], rest)
      else let '(name, after) := until_quote rest in (c :: name, after)
  end.

Fixpoint until_space (s : wstring) : wstring * wstring :=
  match s with
  | [] => ([], [])
  | c :: rest =>
      if is_space c then ([], s)
      else let '(name, after) := until_space rest in (c :: name, after)
  end.

(** The state inside an argument: in quotes or not, the number of
    backslashes just read, the characters settled so far. *)
Definition arg_state : Type := (bool * nat * wstring)%type.

Definition arg_start (st : option arg_state) : arg_state :=
  match st with
  | None => (false, O, [])
  | Some x => x
  end.

Definition arg_text (st : arg_state) : wstring :=
  let '(_, bs, cur) := st in cur ++ repeat L_backslash bs.

Fixpoint parse_args (s : wstring) (st : option arg_state) : list wstring :=
  match s with
  | [] =>
      match st with
      | None => []
      | Some x => [arg_text x]
      end
  | c :: rest =>
      let '(in_quotes, bs, cur) := arg_start st in
      if is_space c && negb in_quotes then
        match st with
        | None => parse_args rest None
        | Some x => arg_text x :: parse_args rest None
        end
      else if c =? L_backslash then
        parse_args rest (Some (in_quotes, S bs, cur))
      else if c =? L_dquote then
        if Nat.even bs
        then parse_args rest
               (Some (negb in_quotes, O,
                      cur ++ repeat L_backslash (Nat.div2 bs)))
        else parse_args rest
               (Some (in_quotes, O,
                      cur ++ repeat L_backslash (Nat.div2 bs) ++ [L_dquote]))
      else parse_args rest (Some (in_quotes, O,
                                  cur ++ repeat L_backslash bs ++ [c]))
  end.

(** [module_name]: the path of the running program, which is the
    answer for an empty command line. *)
Definition CommandLineToArgvW (module_name : wstring) (cmdline : wstring)
  : list wstring :=
  match cmdline with
  | [] => [module_name]
  | c :: rest =>
      let '(name, after) :=
        if c =? L_dquote then until_quote rest else until_space cmdline in
      name :: parse_args after None
  end.

(** ASCII strings convert to their wide counterparts; used to run the
    marshalling on literals. *)
Definition ascii_utf16 (s : string) : option wstring := Some (W s).

(** *** The environment block *)

(** [tolower] on the ASCII letters, as [_strnicmp] applies it in the
    C locale. *)
Definition tolower (c : Ascii.ascii) : N :=
  let n := Ascii.N_of_ascii c in
  if ((65 <=? n) && (n <=? 90))%N then (n + 32)%N else n.

(** [_strnicmp(a, b, n) == 0] *)
Fixpoint strnicmp_eq (a b : string) (n : nat) : bool :=
  match n with
  | O => true
  | S n' =>
      match a, b with
      | String.EmptyString, String.EmptyString => true
      | String.String ca a', String.String cb b' =>
          (tolower ca =? tolower cb)%N && strnicmp_eq a' b' n'
      | _, _ => false
      end
  end.

Record env_var_t : Type := {
  narrow : string;
  wide : wstring;
  len : nat;                 (* including null or '=' *)
  supplied : bool;
  value_len : Z
}.

(** The macro [E_V(str)]. *)
Definition E_V (str : string) : env_var_t :=
  {| narrow := String.append str "=";
     wide := W str;
     len := S (String.length str);
     supplied := false;
     value_len := 0 |}.

Definition required_vars : list env_var_t :=
  [E_V "SYSTEMROOT"; E_V "SYSTEMDRIVE"; E_V "TEMP"].

Definition set_supplied (r : env_var_t) : env_var_t :=
  {| narrow := narrow r; wide := wide r; len := len r;
     supplied := true; value_len := value_len r |}.

Definition set_value_len (r : env_var_t) (n : Z) : env_var_t :=
  {| narrow := narrow r; wide := wide r; len := len r;
     supplied := supplied r; value_len := n |}.

(** [check_required_vars_contains_var]: the first required variable
    that [var] names is marked, and the search stops there. *)
Fixpoint check_required_vars_contains_var (required : list env_var_t)
    (var : string) : list env_var_t :=
  match required with
  | [] => []
  | r :: rest =>
      if strnicmp_eq (narrow r) var (len r)
      then set_supplied r :: rest
      else r :: check_required_vars_contains_var rest var
  end.

Inductive env_result : Type :=
| EnvFatal                        (* uv_fatal_error *)
| EnvNull                         (* NULL: a conversion failed *)
| EnvBlock (block : list Z).

Section Environment.

Variable utf16 : string -> option wstring.

(** The environment of the current process, as
    [GetEnvironmentVariableW] reads it: the value of a variable, or
    [None] when it is not set. *)
Variable penv : wstring -> option wstring.

(** [GetEnvironmentVariableW(name, NULL, 0)]: the size needed, the
    terminating null included, or 0. *)
Definition env_size (name : wstring) : Z :=
  match penv name with
  | None => 0
  | Some v => Z.of_nat (length v) + 1
  end.

(** [GetEnvironmentVariableW(name, ptr, size)] with room enough: the
    characters stored, null included, and the return value, which is
    the number of characters without the null. *)
Definition env_copy (name : wstring) : list Z * Z :=
  match penv name with
  | None => ([], 0)
  | Some v => (v ++ [0], Z.of_nat (length v))
  end.

(** The loop that sizes the required variables the caller did not
    supply; [None] is the fatal error. *)
Fixpoint size_required (required : list env_var_t)
  : option (list env_var_t) :=
  match required with
  | [] => Some []
  | r :: rest =>
      if supplied r
      then option_map (cons r) (size_required rest)
      else
        let var_size := env_size (wide r) in
        if var_size =? 0 then None
        else option_map (cons (set_value_len r var_size))
                        (size_required rest)
  end.

(** The loop that converts the caller's strings into the block, each
    with its null; [None] is the return of NULL. *)
Fixpoint copy_env (env_block : list string) : option (list Z) :=
  match env_block with
  | [] => Some []
  | env :: rest =>
      match utf16 env with
      | None => None
      | Some w => option_map (app (w ++ [0])) (copy_env rest)
      end
  end.

(** The loop that writes NAME=value for the required variables the
    caller did not supply; [None] is the fatal error. *)
Fixpoint copy_required (required : list env_var_t) : option (list Z) :=
  match required with
  | [] => Some []
  | r :: rest =>
      if supplied r then copy_required rest
      else
        let '(stored, var_size) := env_copy (wide r) in
        if var_size =? 0 then None
        else option_map (app (wide r ++ L_equals :: stored))
                        (copy_required rest)
  end.

(** [make_program_env]; [malloc_ok] says whether malloc returns the
    buffer, and a null pointer from it is a fatal error. *)
Definition make_program_env (env_block : list string) (malloc_ok : bool)
  : env_result :=
  let required :=
    fold_left check_required_vars_contains_var env_block required_vars in
  match size_required required with
  | None => EnvFatal
  | Some required =>
      if negb malloc_ok then EnvFatal
      else
        match copy_env env_block with
        | None => EnvNull
        | Some body =>
            match copy_required required with
            | None => EnvFatal
            | Some injected => EnvBlock (body ++ injected ++ [0])
            end
        end
  end.

End Environment.

(** *** Path search *)

Definition FILE_ATTRIBUTE_DIRECTORY : Z := 16.
Definition FILE_ATTRIBUTE_REPARSE_POINT : Z := 1024.

Inductive search_result : Type :=
| Found (result : wstring)
| NotFound                     (* NULL *)
| Undefined.                   (* a negative length reached wcsncpy *)

(** [wcsncpy(dst, src, n)]: [n] characters, nulls after the end of
    [src]. *)
Definition wcsncpy (src : wstring) (n : nat) : list Z :=
  firstn n src ++ repeat 0 (n - length src).

(** [wcsrchr(L"\\/:", c) != NULL]; the null character is found too, at
    the end of the literal. *)
Definition wcsrchr_sep (c : Z) : bool :=
  (c =? L_backslash) || (c =? L_slash) || (c =? L_colon) || (c =? 0).

Definition is_slash (c : Z) : bool := (c =? L_slash) || (c =? L_backslash).

(** [towlower] on the ASCII letters. *)
Definition towlower (c : Z) : Z :=
  if (65 <=? c) && (c <=? 90) then c + 32 else c.

(** [_wcsnicmp(a, b, 2) == 0], for strings of two characters or more. *)
Definition wcsnicmp2 (a b : wstring) : bool :=
  (towlower (nth 0 a 0) =? towlower (nth 0 b 0))
  && (towlower (nth 1 a 0) =? towlower (nth 1 b 0)).

(** The string a buffer holds: up to its first null, or all of it. *)
Fixpoint until_null (b : list Z) : wstring :=
  match b with
  | [] => []
  | c :: rest => if c =? 0 then [] else c :: until_null rest
  end.

Section Search.

(** [GetFileAttributesW]; [None] is INVALID_FILE_ATTRIBUTES. *)
Variable GetFileAttributesW : wstring -> option Z.

(** [search_path_join_test].  [dir] points at the directory text and
    [dir_len] says how much of it counts. *)
Definition search_path_join_test (dir : wstring) (dir_len : Z)
    (name ext cwd : wstring) : search_result :=
  if dir_len <? 0 then Undefined
  else
    let dir := firstn (Z.to_nat dir_len) dir in
    let cwd_len := Z.of_nat (length cwd) in
    let '(cwd_len, dir) :=
      if (dir_len >=? 1) && is_slash (nth 0 dir 0) then (2, dir)
      else if (dir_len >=? 2) && (nth 1 dir 0 =? L_colon)
              && ((dir_len <? 3) || negb (is_slash (nth 2 dir 0)))
      then
        if (cwd_len <? 2) || negb (wcsnicmp2 cwd dir) then (0, dir)
        else (cwd_len, skipn 2 dir)
      else if (dir_len >? 2) && (nth 1 dir 0 =? L_colon) then (0, dir)
      else (cwd_len, dir) in
    let result := wcsncpy cwd (Z.to_nat cwd_len) in
    let result :=
      if negb (cwd_len =? 0) && negb (wcsrchr_sep (last result 0))
      then result ++ [L_backslash] else result in
    let result := result ++ dir in
    let result :=
      if negb (length dir =? 0)%nat && negb (wcsrchr_sep (last result 0))
      then result ++ [L_backslash] else result in
    let result := result ++ name in
    let result :=
      if negb (length ext =? 0)%nat then
        (if negb (length name =? 0)%nat && negb (last result 0 =? L_dot)
         then result ++ [L_dot] else result) ++ ext
      else result in
    let result := until_null result in
    match GetFileAttributesW result with
    | None => NotFound
    | Some attrs =>
        if Z.land attrs
             (Z.lor FILE_ATTRIBUTE_DIRECTORY FILE_ATTRIBUTE_REPARSE_POINT) =? 0
        then Found result else NotFound
    end.

Definition or_else (r : search_result) (next : search_result)
  : search_result :=
  match r with
  | NotFound => next
  | _ => r
  end.

(** [path_search_walk_ext] *)
Definition path_search_walk_ext (dir : wstring) (dir_len : Z)
    (name cwd : wstring) (name_has_ext : bool) : search_result :=
  or_else
    (if name_has_ext
     then search_path_join_test dir dir_len name [] cwd
     else NotFound)
    (or_else (search_path_join_test dir dir_len name (W "com") cwd)
             (search_path_join_test dir dir_len name (W "exe") cwd)).

Definition is_quote (c : Z) : bool := (c =? L_dquote) || (c =? L_squote).

Definition is_file_sep (c : Z) : bool :=
  (c =? L_backslash) || (c =? L_slash) || (c =? L_colon).

(** The walk from the end of [file] back to the last separator: the
    name, reversed, and what is before it, reversed. *)
Fixpoint name_start (rfile : wstring) : wstring * wstring :=
  match rfile with
  | [] => ([], [])
  | c :: rest =>
      if is_file_sep c then ([], rfile)
      else let '(n, d) := name_start rest in (c :: n, d)
  end.

(** [dot != NULL && dot[1] != 0], for the first dot of the name. *)
Fixpoint has_ext (name : wstring) : bool :=
  match name with
  | [] => false
  | c :: rest =>
      if c =? L_dot then negb (length rest =? 0)%nat else has_ext rest
  end.

(** The text from [s] to the next semicolon or to the end, and the
    text from there on. *)
Fixpoint slice (s : wstring) : wstring * wstring :=
  match s with
  | [] => ([], [])
  | c :: rest =>
      if c =? L_semicolon then ([], s)
      else let '(e, after) := slice rest in (c :: e, after)
  end.

(** "Adjust if the path is quoted": where the directory starts in the
    slice, and its length.  [dir_path[dir_len - 1]] is the last
    character of the slice, also when the first one was skipped. *)
Definition adjust_quoted (entry : wstring) : wstring * Z :=
  let dir_len := Z.of_nat (length entry) in
  let '(skipped, dir_len) :=
    if is_quote (nth 0 entry 0) then (1%nat, dir_len - 1)
    else (0%nat, dir_len) in
  let last_read := nth (Z.to_nat (Z.of_nat skipped + dir_len - 1)) entry 0 in
  let dir_len := if is_quote last_read then dir_len - 1 else dir_len in
  (skipn skipped entry, dir_len).

(** The [while (result == NULL)] loop.  [dir_end] is the text from the
    pointer of that name on, [at_start] says whether the pointer is
    still [path]; [None] when [fuel] iterations were not enough. *)
Fixpoint path_loop (fuel : nat) (file cwd : wstring) (name_has_ext : bool)
    (at_start : bool) (dir_end : wstring) : option search_result :=
  match fuel with
  | O => None
  | S fuel' =>
      match dir_end with
      | [] => Some NotFound
      | _ :: after_sep =>
          let dir_start := if at_start then dir_end else after_sep in
          let '(entry, dir_end) := slice dir_start in
          if (length entry =? 0)%nat
          then path_loop fuel' file cwd name_has_ext at_start dir_end
          else
            let '(dir_path, dir_len) := adjust_quoted entry in
            match path_search_walk_ext dir_path dir_len file cwd
                    name_has_ext with
            | NotFound => path_loop fuel' file cwd name_has_ext false dir_end
            | r => Some r
            end
      end
  end.

(** [search_path] *)
Definition search_path (fuel : nat) (file cwd path : wstring)
  : option search_result :=
  if (length file =? 0)%nat
     || ((length file =? 1)%nat && (nth 0 file 0 =? L_dot))
  then Some NotFound
  else
    let '(rname, rdir) := name_start (rev file) in
    let file_name := rev rname in
    let file_dir := rev rdir in
    let name_has_ext := has_ext file_name in
    if negb (length file_dir =? 0)%nat
    then Some (path_search_walk_ext file_dir (Z.of_nat (length file_dir))
                 file_name cwd name_has_ext)
    else
      match path_search_walk_ext [] 0 file cwd name_has_ext with
      | NotFound => path_loop fuel file cwd name_has_ext true path
      | r => Some r
      end.

End Search.

(** *** Child stdio *)

(** CRT file descriptor mode flags *)
Definition FOPEN : Z := 1.
Definition FPIPE : Z := 8.
Definition FDEV : Z := 64.

Inductive nul_access : Type :=
| FILE_GENERIC_READ
| FILE_GENERIC_WRITE_and_READ_ATTRIBUTES.

Inductive HANDLE : Type :=
| INVALID_HANDLE_VALUE
| NUL (access : nul_access)        (* CreateFileW(L"NUL", access, ...) *)
| Handle (h : Z).

Inductive file_type : Type :=
| FILE_TYPE_DISK | FILE_TYPE_PIPE | FILE_TYPE_CHAR | FILE_TYPE_REMOTE
| FILE_TYPE_UNKNOWN.

(** One entry of [options.stdio], with what the system answers when
    the entry is set up: the child end of the pipe pair, or the
    duplicate of the descriptor and its file type, or the handle the
    stream holds and its duplicate; [None] where the call fails. *)
Inductive uv_stdio_container_t : Type :=
| UV_IGNORE
| UV_CREATE_PIPE (child_pipe : option Z)
| UV_INHERIT_FD (dup : option (Z * file_type))
| UV_INHERIT_STREAM (stream_handle : option Z) (dup : option Z).

(** The buffer: a crt flag and a handle for each descriptor. *)
Definition child_stdio_buffer_t : Type := list (Z * HANDLE).

(** The second [for] loop of [init_child_stdio], from slot [i] on;
    [nul_ok i] says whether NUL can be opened for slot [i].  [None] is
    the [error] exit. *)
Fixpoint init_slots (nul_ok : Z -> bool) (i : Z)
    (fdopts : list uv_stdio_container_t) : option child_stdio_buffer_t :=
  match fdopts with
  | [] => Some []
  | fdopt :: rest =>
      let slot : option (Z * HANDLE) :=
        match fdopt with
        | UV_IGNORE =>
            if i <=? 2 then
              let access := if i =? 0 then FILE_GENERIC_READ
                            else FILE_GENERIC_WRITE_and_READ_ATTRIBUTES in
              if nul_ok i then Some (Z.lor FOPEN FDEV, NUL access) else None
            else Some (0, INVALID_HANDLE_VALUE)
        | UV_CREATE_PIPE None => None
        | UV_CREATE_PIPE (Some child_pipe) =>
            Some (Z.lor FOPEN FPIPE, Handle child_pipe)
        | UV_INHERIT_FD None => None
        | UV_INHERIT_FD (Some (child_handle, ty)) =>
            match ty with
            | FILE_TYPE_DISK => Some (FOPEN, Handle child_handle)
            | FILE_TYPE_PIPE              (* no break: falls through *)
            | FILE_TYPE_CHAR
            | FILE_TYPE_REMOTE => Some (Z.lor FOPEN FDEV, Handle child_handle)
            | FILE_TYPE_UNKNOWN => None   (* [GetLastError != 0] holds *)
            end
        | UV_INHERIT_STREAM stream_handle dup =>
            (* [stream->type = UV_TTY] is an assignment: first branch *)
            match stream_handle, dup with
            | Some _, Some child_handle =>
                Some (Z.lor FOPEN FDEV, Handle child_handle)
            | _, _ => None
            end
        end in
      match slot with
      | None => None
      | Some s => option_map (cons s) (init_slots nul_ok (i + 1) rest)
      end
  end.

(** [init_child_stdio]: [stdio] holds [options->stdio_count] entries;
    the slots after them, up to three, are UV_IGNORE. *)
Definition init_child_stdio (nul_ok : Z -> bool)
    (stdio : list uv_stdio_container_t) : option child_stdio_buffer_t :=
  if (255 <? length stdio)%nat then None
  else init_slots nul_ok 0 (stdio ++ repeat UV_IGNORE (3 - length stdio)).

(** *** Spawn and exit *)

Record uv_process_t : Type := {
  exit_cb : option nat;
  pid : Z;
  exit_signal : Z;
  wait_handle : option Z;           (* [None]: INVALID_HANDLE_VALUE *)
  process_handle : option Z;
  child_stdio_buffer : option child_stdio_buffer_t;
  spawn_errno : Z;
  closing : bool;                   (* UV_HANDLE_CLOSING *)
  active : bool
}.

Inductive event : Type :=
| EvCreateProcessW (application_path : wstring)
    (arguments env : option (list Z))   (* [None]: NULL *)
    (cwd : wstring) (detached : bool)
| EvRegisterWait (process_handle : Z)   (* for [exit_wait_callback], once *)
| EvQueueUserWorkItem                   (* [spawn_failure] *)
| EvWriteStderr (h : HANDLE)
| EvPostExit                            (* a completion for [exit_req] *)
| EvUnregisterWait (wait : Z)
| EvExitCb (cb : nat) (exit_code exit_signal : Z).

Definition is_exit_cb (e : event) : bool :=
  match e with EvExitCb _ _ _ => true | _ => false end.


(** [uv_process_init].  It does not write [spawn_errno].
    [uv_handle_init] is not part of the sources at hand; modelled from
    the spec (a handle is created initialised, inactive), it leaves the
    handle neither closing nor active. *)
Definition uv_process_init (handle : uv_process_t) : uv_process_t :=
  {| exit_cb := None; pid := 0; exit_signal := 0; wait_handle := None;
     process_handle := None; child_stdio_buffer := None;
     spawn_errno := spawn_errno handle;
     closing := false; active := false |}.

(** The options; [opt_file] is not NULL and the flags are among those
    named here, as the assertions at the head of [uv_spawn] say. *)
Record uv_process_options_t : Type := {
  opt_exit_cb : option nat;
  opt_file : string;
  opt_args : option (list string);  (* [None]: NULL *)
  opt_env : option (list string);   (* [None]: NULL *)
  opt_cwd : option string;          (* [None]: NULL *)
  opt_verbatim_arguments : bool;    (* UV_PROCESS_WINDOWS_VERBATIM_ARGUMENTS *)
  opt_detached : bool;              (* UV_PROCESS_DETACHED *)
  opt_setuid_or_setgid : bool;      (* UV_PROCESS_SETUID or UV_PROCESS_SETGID *)
  opt_stdio : list uv_stdio_container_t
}.

(** What the system answers during one [uv_spawn]. *)
Record spawn_world : Type := {
  to_utf16 : string -> option wstring;      (* uv_utf8_to_utf16 *)
  process_env : wstring -> option wstring;  (* GetEnvironmentVariableW *)
  file_attributes : wstring -> option Z;    (* GetFileAttributesW *)
  current_directory : option wstring;       (* GetCurrentDirectoryW; [None]: 0 *)
  malloc_application : bool;                (* malloc, in UTF8_TO_UTF16 *)
  malloc_arguments : bool;                  (* in make_program_args *)
  malloc_env : bool;                        (* in make_program_env *)
  malloc_cwd : bool;
  malloc_path : bool;
  malloc_stdio : bool;                      (* in init_child_stdio *)
  nul_opens : Z -> bool;
  create_process : sys_val (Z * Z); (* hProcess and dwProcessId, or GetLastError *)
  register_wait : option Z;         (* the wait handle; [None]: the call fails *)
  queue_work_item : bool            (* QueueUserWorkItem *)
}.

(** How the part of [uv_spawn] before CreateProcessW ends. *)
Inductive setup_result : Type :=
| SetupDone (application_path : wstring) (arguments env : option (list Z))
    (cwd : wstring) (buffer : child_stdio_buffer_t)
| SetupFails                      (* err = -1; goto done *)
| SetupFatal                      (* uv_fatal_error *)
| SetupUndefined.                 (* [search_path] ended in [Undefined] *)

(** [uv_spawn], from UTF8_TO_UTF16(options.file, application) to the
    call of [init_child_stdio]: what CreateProcessW is to be given.
    [None] when [fuel] was not enough for [search_path]. *)
Definition spawn_setup (fuel : nat) (options : uv_process_options_t)
    (w : spawn_world) : option setup_result :=
  if negb (malloc_application w) then Some SetupFatal
  else
    match to_utf16 w (opt_file options) with
    | None => Some SetupFails
    | Some application =>
        let arguments : option (option (list Z)) :=   (* [None]: fatal *)
          match opt_args options with
          | None => Some None
          | Some args =>
              if negb (malloc_arguments w) then None
              else Some (make_program_args (to_utf16 w) args
                           (opt_verbatim_arguments options))
          end in
        match arguments with
        | None => Some SetupFatal
        | Some arguments =>
            let env : option (option (list Z)) :=     (* [None]: fatal *)
              match opt_env options with
              | None => Some None
              | Some env_block =>
                  match make_program_env (to_utf16 w) (process_env w)
                          env_block (malloc_env w) with
                  | EnvFatal => None
                  | EnvNull => Some None
                  | EnvBlock block => Some (Some block)
                  end
              end in
            match env with
            | None => Some SetupFatal
            | Some env =>
                let cwd : option (option wstring) :=
                  (* [None]: fatal; [Some None]: err = -1 *)
                  match opt_cwd options with
                  | Some dir =>
                      if negb (malloc_cwd w) then None
                      else Some (to_utf16 w dir)
                  | None =>
                      match current_directory w with
                      | None => Some None
                      | Some dir =>
                          if negb (malloc_cwd w) then Some None
                          else Some (Some dir)
                      end
                  end in
                match cwd with
                | None => Some SetupFatal
                | Some None => Some SetupFails
                | Some (Some cwd) =>
                    if negb (malloc_path w) then Some SetupFatal
                    else
                      let path :=
                        match process_env w (W "PATH") with
                        | Some value => value
                        | None => []
                        end in
                      match search_path (file_attributes w) fuel
                              application cwd path with
                      | None => None
                      | Some Undefined => Some SetupUndefined
                      | Some found =>
                          let application_path :=
                            match found with
                            | Found result => result
                            | _ => application
                            end in
                          if negb (malloc_stdio w) then Some SetupFails
                          else
                            match init_child_stdio (nul_opens w)
                                    (opt_stdio options) with
                            | None => Some SetupFails
                            | Some buffer =>
                                Some (SetupDone application_path arguments
                                        env cwd buffer)
                            end
                      end
                end
            end
        end
    end.

(** How a call of [uv_spawn] ends. *)
Inductive spawn_outcome : Type :=
| SpawnReturns (err : Z) (process : uv_process_t) (asked : list event)
| SpawnFatal                      (* uv_fatal_error *)
| SpawnUndefined.

(** [uv_spawn]: for the handle [process] of the caller, the return
    value, the handle and what was asked of the system, in order.
    [None] when [fuel] was not enough.  The [ipc_pid] of a pipe in
    stdio slot 0 is not part of the handle and is left out. *)
Definition uv_spawn (fuel : nat) (process : uv_process_t)
    (options : uv_process_options_t) (w : spawn_world)
  : option spawn_outcome :=
  if opt_setuid_or_setgid options then Some (SpawnReturns (-1) process [])
  else
    let process :=
      {| exit_cb := opt_exit_cb options;
         pid := pid (uv_process_init process);
         exit_signal := exit_signal (uv_process_init process);
         wait_handle := wait_handle (uv_process_init process);
         process_handle := process_handle (uv_process_init process);
         child_stdio_buffer := child_stdio_buffer (uv_process_init process);
         spawn_errno := spawn_errno (uv_process_init process);
         closing := closing (uv_process_init process);
         active := active (uv_process_init process) |} in
    match spawn_setup fuel options w with
    | None => None
    | Some SetupFatal => Some SpawnFatal
    | Some SetupUndefined => Some SpawnUndefined
    | Some SetupFails => Some (SpawnReturns (-1) process [])
    | Some (SetupDone application_path arguments env cwd buffer) =>
        let call :=
          EvCreateProcessW application_path arguments env cwd
            (opt_detached options) in
        match create_process w with
        | Got (hProcess, dwProcessId) =>
            match register_wait w with
            | None => Some SpawnFatal
            | Some wait =>
                (* the stdio handles are closed and the buffer freed *)
                Some (SpawnReturns 0
                        {| exit_cb := exit_cb process; pid := dwProcessId;
                           exit_signal := exit_signal process;
                           wait_handle := Some wait;
                           process_handle := Some hProcess;
                           child_stdio_buffer := None;
                           spawn_errno := spawn_errno process;
                           closing := closing process; active := true |}
                        [call; EvRegisterWait hProcess])
            end
        | Fail last_error =>
            if negb (queue_work_item w) then Some SpawnFatal
            else
              (* the stdio handles are kept, not inheritable *)
              Some (SpawnReturns 0
                      {| exit_cb := exit_cb process; pid := pid process;
                         exit_signal := exit_signal process;
                         wait_handle := wait_handle process;
                         process_handle := process_handle process;
                         child_stdio_buffer := Some buffer;
                         spawn_errno := last_error;
                         closing := closing process; active := true |}
                      [call; EvQueueUserWorkItem])
        end
    end.



Definition stop (process : uv_process_t) (wait : option Z) : uv_process_t :=
  {| exit_cb := exit_cb process; pid := pid process;
     exit_signal := exit_signal process; wait_handle := wait;
     process_handle := process_handle process;
     child_stdio_buffer := child_stdio_buffer process;
     spawn_errno := spawn_errno process;
     closing := closing process; active := false |}.

(** A DWORD handed to a parameter of type [int]: the 32 bits, read in
    two's complement.  The exit callback takes its exit status as an
    [int] (its type is declared in uv.h, not part of the sources at
    hand; the spec gives the signature). *)
Definition as_int (dword : Z) : Z :=
  let d := dword mod 2 ^ 32 in
  if d <? 2 ^ 31 then d else d - 2 ^ 32.

(** [uv_process_proc_exit], on the loop thread, for one completion of
    [exit_req].  [exit_code_res] is what GetExitCodeProcess stores in
    the DWORD [exit_code], [None] when it fails. *)
Definition uv_process_proc_exit (handle : uv_process_t)
    (exit_code_res : option Z) : uv_process_t * list event :=
  if closing handle then (handle, [])
  else
    let unregistered :=
      match wait_handle handle with
      | Some wh => [EvUnregisterWait wh]
      | None => []
      end in
    let exit_code :=
      match process_handle handle, exit_code_res with
      | Some _, Some code => code
      | _, _ => 127
      end in
    (stop handle None,
     unregistered ++
     match exit_cb handle with
     | Some cb => [EvExitCb cb (as_int exit_code) (exit_signal handle)]
     | None => []
     end).


(** *** The sizes handed to malloc *)

Definition sizeof_wchar_t : Z := 2.

Section Sizes.

Variable utf16 : string -> option wstring.
Variable penv : wstring -> option wstring.

(** [uv_utf8_to_utf16(s, NULL, 0)]: the number of wide characters the
    conversion of [s] needs, the terminating null included, or 0 when
    the conversion fails. *)
Definition utf16_size (s : string) : Z :=
  match utf16 s with
  | Some w => Z.of_nat (length w) + 1
  | None => 0
  end.

(** The first loop of [make_program_args] and the adjustment that
    follows it: [size], in bytes, as it is handed to malloc. *)
Definition program_args_size (args : list string) : Z :=
  let size :=
    fold_left (fun size arg => size + utf16_size arg * sizeof_wchar_t) args 0 in
  size * 2 + Z.of_nat (length args) * 2.

(** The loop of [make_program_env] over the required variables, as far
    as [env_len] goes; [None] is the fatal error. *)
Fixpoint env_len_required (required : list env_var_t) (env_len : Z)
  : option Z :=
  match required with
  | [] => Some env_len
  | r :: rest =>
      if supplied r then env_len_required rest env_len
      else
        let env_len := env_len + Z.of_nat (len r) * sizeof_wchar_t in
        let var_size := env_size penv (wide r) in
        if var_size =? 0 then None
        else env_len_required rest (env_len + var_size * sizeof_wchar_t)
  end.

(** [env_len], in bytes, as [make_program_env] hands it to malloc. *)
Definition env_len (env_block : list string) : option Z :=
  let required :=
    fold_left check_required_vars_contains_var env_block required_vars in
  let env_len :=
    fold_left (fun n env => n + utf16_size env * sizeof_wchar_t) env_block
              (1 * sizeof_wchar_t) in
  env_len_required required env_len.

End Sizes.

(** *** Kill *)

Definition SIGINT : Z := 2.
Definition SIGKILL : Z := 9.
Definition SIGTERM : Z := 15.
Definition STILL_ACTIVE : Z := 259.

(** The code of a [uv_err_t].  [UV_SYS e] stands for
    [uv__new_sys_error(e)]; the translation of the system error is in a
    file that is not at hand and is taken never to give [UV_OK]. *)
Inductive uv_err_code : Type :=
| UV_OK
| UV_EINVAL
| UV_ESRCH
| UV_ENOSYS
| UV_SYS (sys_errno : Z).

Inductive kill_event : Type :=
| EvTerminateProcess (process_handle : Z) (exit_code : Z)
| EvGetExitCodeProcess (process_handle : Z).

(** What the system answers during one kill: whether TerminateProcess
    succeeds, and the status GetExitCodeProcess reports. *)
Record kill_world : Type := {
  terminate_res : sys_unit;
  exit_code_status : sys_val Z
}.

(** [uv__kill] *)
Definition uv__kill (process_handle : Z) (signum : Z) (w : kill_world)
  : uv_err_code * list kill_event :=
  if (signum =? SIGTERM) || (signum =? SIGKILL) || (signum =? SIGINT) then
    (match terminate_res w with
     | Done => UV_OK
     | Failed last_error => UV_SYS last_error
     end,
     [EvTerminateProcess process_handle 1])
  else if signum =? 0 then
    (match exit_code_status w with
     | Got status => if status =? STILL_ACTIVE then UV_OK else UV_ESRCH
     | Fail last_error => UV_SYS last_error
     end,
     [EvGetExitCodeProcess process_handle])
  else (UV_ENOSYS, []).

Definition set_exit_signal (process : uv_process_t) (signum : Z)
  : uv_process_t :=
  {| exit_cb := exit_cb process; pid := pid process;
     exit_signal := signum; wait_handle := wait_handle process;
     process_handle := process_handle process;
     child_stdio_buffer := child_stdio_buffer process;
     spawn_errno := spawn_errno process;
     closing := closing process; active := active process |}.

(** [uv_process_kill]: the return value, the handle, the error set on
    the loop and the calls made. *)
Definition uv_process_kill (process : uv_process_t) (signum : Z)
    (w : kill_world)
  : Z * uv_process_t * option uv_err_code * list kill_event :=
  match process_handle process with
  | None => (-1, process, Some UV_EINVAL, [])
  | Some h =>
      let '(err, evs) := uv__kill h signum w in
      match err with
      | UV_OK => (0, set_exit_signal process signum, None, evs)
      | _ => (-1, process, Some err, evs)
      end
  end.

End WinProcess.

(** * Part II: what the code does *)

(** ** Pipes on POSIX *)

Module UnixPipeFacts.
Import Errno UnixPipe.

(** *** Bind *)

(** C7: when bind(2) fails with ENOENT the caller gets -EACCES; any
    other errno of bind(2) is returned negated, unchanged. *)
Theorem uv_pipe_bind_normalises_enoent :
  forall (handle : uv_pipe_t) (name : string) (sockfd e : Z),
    io_fd handle < 0 ->
    0 <= sockfd ->
    fst (fst (uv_pipe_bind handle name true sockfd (Failed e))) =
      (if e =? ENOENT then - EACCES else - e)
    /\ snd (fst (uv_pipe_bind handle name true sockfd (Failed e))) = handle.
Proof.
  intros handle name sockfd e Hfd Hs.
  unfold uv_pipe_bind.
  destruct (io_fd handle >=? 0) eqn:E1; [apply Z.geb_le in E1; lia|].
  simpl negb. cbv iota.
  destruct (sockfd <? 0) eqn:E2; [apply Z.ltb_lt in E2; lia|].
  simpl. split; [|reflexivity].
  unfold ENOENT, EACCES.
  destruct (Z.eqb_spec e 2); destruct (Z.eqb_spec (- e) (- 2));
    try lia; reflexivity.
Qed.

Lemma uv_pipe_bind_normalises_enoent_witness :
  fst (fst (uv_pipe_bind (uv_pipe_init sample_consts 0 0) "/tmp/none/sock"
              true 7 (Failed ENOENT))) = - EACCES
  /\ fst (fst (uv_pipe_bind (uv_pipe_init sample_consts 0 0) "/tmp/none/sock"
              true 7 (Failed EINVAL))) = - EINVAL.
Proof.
  split.
  - apply (proj1 (uv_pipe_bind_normalises_enoent
             (uv_pipe_init sample_consts 0 0) "/tmp/none/sock" 7 ENOENT
             ltac:(simpl; lia) ltac:(lia))).
  - apply (proj1 (uv_pipe_bind_normalises_enoent
             (uv_pipe_init sample_consts 0 0) "/tmp/none/sock" 7 EINVAL
             ltac:(simpl; lia) ltac:(lia))).
Defined.

(** *** Connect *)

Lemma connect_loop_ends :
  forall (fd : Z) (path : string) (n : nat) (r : sys_unit) (rest : list sys_unit),
    r <> Failed EINTR ->
    connect_loop fd path (repeat (Failed EINTR) n ++ r :: rest) =
      Some (r, repeat (EvConnect fd path) (S n)).
Proof.
  intros fd path n r rest Hr.
  induction n as [|n IH].
  - simpl. destruct r as [|e]; [reflexivity|].
    destruct (Z.eqb_spec e EINTR) as [->|_]; [congruence | reflexivity].
  - cbn [repeat app connect_loop].
    rewrite Z.eqb_refl, IH. reflexivity.
Qed.

Lemma no_callback_app :
  forall a b : list event,
    existsb is_callback (a ++ b) = existsb is_callback a || existsb is_callback b.
Proof. intros a b. apply existsb_app. Qed.


Lemma connect_out_spec :
  forall (req cb : nat) (h : uv_pipe_t) (err : Z) (evs : list event),
    existsb is_callback evs = false ->
    let '(h', evs') := connect_out req cb h err evs in
    existsb is_callback evs' = false
    /\ connect_req h' = Some {| req_id := req; req_cb := cb |}
    /\ delayed_error h' = err
    /\ (err <> 0 -> evs' = evs ++ [EvIoFeed])
    /\ (err = 0 -> evs' = evs).
Proof.
  intros req cb h err evs Hn. unfold connect_out, c_true.
  repeat split.
  - rewrite no_callback_app, Hn. destruct (err =? 0); reflexivity.
  - intro H. apply Z.eqb_neq in H. now rewrite H.
  - intro H. apply Z.eqb_eq in H. rewrite H. simpl. now rewrite app_nil_r.
Qed.









(** *** Accept *)

(** C10: when accept fails with an errno other than EAGAIN and
    EWOULDBLOCK, the watcher invokes the connection callback once, with
    the negated errno, on the pipe as it was ([accepted_fd] included),
    and does nothing after it; when accept fails with EAGAIN or
    EWOULDBLOCK the watcher invokes no callback and changes nothing, so
    it stays started. *)
Theorem uv__pipe_accept_failure :
  forall (pipe : uv_pipe_t) (errno : Z)
         (connection_cb : uv_pipe_t -> Z -> uv_pipe_t),
    (errno <> EAGAIN -> errno <> EWOULDBLOCK ->
     uv__pipe_accept pipe (Fail errno) connection_cb =
       (connection_cb pipe (- errno), [EvConnectionCb (- errno)]))
    /\ (errno = EAGAIN \/ errno = EWOULDBLOCK ->
        uv__pipe_accept pipe (Fail errno) connection_cb = (pipe, [])).
Proof.
  intros pipe errno connection_cb. unfold uv__pipe_accept. split.
  - intros H1 H2.
    destruct (Z.eqb_spec errno EAGAIN); [contradiction|].
    destruct (Z.eqb_spec errno EWOULDBLOCK); [contradiction|].
    reflexivity.
  - intros [-> | ->]; reflexivity.
Qed.

(** A pipe that listens on descriptor 5, and a user callback that
    leaves the pipe alone. *)
Definition listening_pipe : uv_pipe_t :=
  uv__io_start (set_io_fd (uv_pipe_init sample_consts 0 0) 5) [UV__POLLIN].

Definition idle_cb (p : uv_pipe_t) (status : Z) : uv_pipe_t := p.

Lemma uv__pipe_accept_failure_witness :
  uv__pipe_accept listening_pipe (Fail ENOMEM) idle_cb =
    (listening_pipe, [EvConnectionCb (- ENOMEM)])
  /\ uv__pipe_accept listening_pipe (Fail EAGAIN) idle_cb =
       (listening_pipe, []).
Proof.
  split.
  - apply (proj1 (uv__pipe_accept_failure listening_pipe ENOMEM idle_cb));
      unfold ENOMEM, EAGAIN, EWOULDBLOCK; lia.
  - apply (proj2 (uv__pipe_accept_failure listening_pipe EAGAIN idle_cb)).
    left. reflexivity.
Defined.

(** A descriptor that was accepted is stashed before the callback runs;
    the watcher is stopped exactly when the callback left it there. *)
Lemma uv__pipe_accept_backpressure :
  forall (pipe : uv_pipe_t) (sockfd : Z)
         (connection_cb : uv_pipe_t -> Z -> uv_pipe_t),
    let seen := connection_cb (set_accepted_fd pipe sockfd) 0 in
    uv__pipe_accept pipe (Got sockfd) connection_cb =
      if accepted_fd seen =? sockfd
      then (uv__io_stop seen [UV__POLLIN],
            [EvConnectionCb 0; EvIoStop [UV__POLLIN]])
      else (seen, [EvConnectionCb 0]).
Proof. reflexivity. Qed.

(** *** Link *)

Lemma lnot_land_true :
  forall f bit : Z, 0 <= bit -> c_true (Z.lnot (Z.land f bit)) = true.
Proof.
  intros f bit Hbit. unfold c_true.
  assert (H : 0 <= Z.land f bit) by (apply Z.land_nonneg; right; exact Hbit).
  destruct (Z.eqb_spec (Z.lnot (Z.land f bit)) 0) as [E|E]; [|reflexivity].
  unfold Z.lnot in E. lia.
Qed.

(** Every link that succeeds puts both descriptors in non-blocking
    mode, whatever the flags of the two pipes are: [~(x & BIT)] is non
    zero for every [x]. *)
Lemma uv_pipe_link_always_nonblock :
  forall (K : flag_consts) (have : bool) (read write : uv_pipe_t)
         (sp1 sp2 : sys_val (Z * Z)) (open_r open_w : Z)
         (read' write' : uv_pipe_t) (evs : list event),
    0 <= UV_PIPE_SPAWN_SAFE K ->
    uv_pipe_link K have read write sp1 sp2 open_r open_w =
      (0, read', write', evs) ->
    exists fds : Z * Z,
      io_fd read' = fst fds /\ io_fd write' = snd fds
      /\ nonblock_applied evs (fst fds) = true
      /\ nonblock_applied evs (snd fds) = true.
Proof.
  intros K have read write sp1 sp2 open_r open_w read' write' evs HK.
  unfold uv_pipe_link, plain_socketpair.
  rewrite !lnot_land_true by exact HK.
  assert (Hopen : forall fds pre,
            nonblock_applied pre (fst fds) = true ->
            nonblock_applied pre (snd fds) = true ->
            open_fds K read write fds open_r open_w pre = (0, read', write', evs) ->
            exists fds : Z * Z,
              io_fd read' = fst fds /\ io_fd write' = snd fds
              /\ nonblock_applied evs (fst fds) = true
              /\ nonblock_applied evs (snd fds) = true).
  { intros fds pre H1 H2. unfold open_fds, c_true, uv__stream_open.
    destruct (Z.eqb_spec open_r 0); cbn [negb]; [|intro H; inversion H].
    destruct (Z.eqb_spec open_w 0); cbn [negb]; [|intro H; inversion H].
    intro H. inversion H. subst. exists fds. cbn [io_fd set_io_fd].
    unfold nonblock_applied in *. rewrite !existsb_app, H1, H2. auto. }
  assert (Hplain : forall pre,
            match sp2 with
            | Got fds =>
                open_fds K read write fds open_r open_w
                  (((pre ++ [EvSocketpair false false sp2;
                             EvCloexec (fst fds) true; EvCloexec (snd fds) true])
                    ++ [EvNonblock (fst fds) true])
                   ++ [EvNonblock (snd fds) true])
            | Fail _ => (-1, read, write, pre ++ [EvSocketpair false false sp2])
            end = (0, read', write', evs) ->
            exists fds : Z * Z,
              io_fd read' = fst fds /\ io_fd write' = snd fds
              /\ nonblock_applied evs (fst fds) = true
              /\ nonblock_applied evs (snd fds) = true).
  { intros pre. destruct sp2 as [fds|e]; [|intro H; inversion H].
    apply Hopen; unfold nonblock_applied; rewrite !existsb_app; simpl;
      rewrite Z.eqb_refl; rewrite ?orb_true_r; reflexivity. }
  destruct have; cbn [andb]; [|apply Hplain].
  destruct sp1 as [fds|e].
  - apply Hopen; unfold nonblock_applied; simpl; rewrite Z.eqb_refl;
      rewrite ?orb_true_r; reflexivity.
  - destruct (negb (e =? EINVAL)); [intro H; inversion H | apply Hplain].
Qed.

(** A read end created with SPAWN_SAFE and READABLE, a write end
    created with WRITEABLE. *)
Definition safe_read_end : uv_pipe_t :=
  uv_pipe_init sample_consts 0
    (Z.lor (UV_PIPE_SPAWN_SAFE sample_consts) (UV_PIPE_READABLE sample_consts)).

Definition write_end : uv_pipe_t :=
  uv_pipe_init sample_consts 0 (UV_PIPE_WRITEABLE sample_consts).

(** C3, evaluated: the read end is created SPAWN_SAFE (the bit is in
    its flags after [uv_pipe_init]), the link succeeds, and the read
    descriptor is put in non-blocking mode all the same: by
    [uv__nonblock] without the SOCK_NONBLOCK block, by the socketpair
    flag with it. *)
Theorem uv_pipe_link_ignores_spawn_safe :
  Z.land (flags safe_read_end) (UV_HANDLE_PIPE_SPAWN_SAFE sample_consts) <> 0
  /\ uv_pipe_link sample_consts false safe_read_end write_end
       (Got (5, 6)) (Got (5, 6)) 0 0 =
       (0, set_io_fd safe_read_end 5, set_io_fd write_end 6,
        [EvSocketpair false false (Got (5, 6));
         EvCloexec 5 true; EvCloexec 6 true;
         EvNonblock 5 true; EvNonblock 6 true;
         EvStreamOpen 5 0; EvStreamOpen 6 0])
  /\ uv_pipe_link sample_consts true safe_read_end write_end
       (Got (5, 6)) (Got (5, 6)) 0 0 =
       (0, set_io_fd safe_read_end 5, set_io_fd write_end 6,
        [EvSocketpair true true (Got (5, 6));
         EvStreamOpen 5 0; EvStreamOpen 6 0])
  /\ nonblock_applied
       (snd (uv_pipe_link sample_consts false safe_read_end write_end
               (Got (5, 6)) (Got (5, 6)) 0 0)) 5 = true
  /\ nonblock_applied
       (snd (uv_pipe_link sample_consts true safe_read_end write_end
               (Got (5, 6)) (Got (5, 6)) 0 0)) 5 = true.
Proof.
  split; [vm_compute; discriminate|].
  repeat split; vm_compute; reflexivity.
Qed.

(** *** Bind: all or nothing *)

Definition is_unlink (e : event) : bool :=
  match e with
  | EvUnlink _ => true
  | _ => false
  end.

(** X1.  [uv_pipe_bind] either succeeds, and then the pipe had no
    descriptor before, holds the name given and the new socket, and the
    socket is not closed; or it returns a negative code, the handle is
    exactly as before, and a socket that was created is closed again.
    It never unlinks anything: [bound] is 0 whenever [out] is
    reached. *)
Theorem uv_pipe_bind_all_or_nothing :
  forall (handle : uv_pipe_t) (name : string) (strdup_ok : bool)
         (socket_res : Z) (bind_res : sys_unit)
         (ret : Z) (handle' : uv_pipe_t) (evs : list event),
    (forall e : Z, bind_res = Failed e -> 0 < e) ->
    uv_pipe_bind handle name strdup_ok socket_res bind_res = (ret, handle', evs) ->
    existsb is_unlink evs = false
    /\ ((ret = 0 /\ io_fd handle < 0 /\ 0 <= socket_res
         /\ handle' = set_io_fd (set_pipe_fname handle (Some name)) socket_res
         /\ ~ In (EvClose socket_res) evs)
        \/ (ret < 0 /\ handle' = handle
            /\ (In EvSocket evs -> 0 <= socket_res ->
                In (EvClose socket_res) evs))).
Proof.
  intros handle name strdup_ok socket_res bind_res ret handle' evs Hpos.
  unfold uv_pipe_bind.
  destruct (Z.geb_spec (io_fd handle) 0) as [Hb|Hb].
  { intro H. inversion H. subst. split; [reflexivity|]. right.
    unfold EINVAL. split; [lia|]. split; [reflexivity|]. intros []. }
  destruct strdup_ok; cbn [negb].
  2:{ intro H. inversion H. subst. split; [reflexivity|]. right.
      unfold ENOMEM. split; [lia|]. split; [reflexivity|].
      intros [Hs|[]]. discriminate Hs. }
  destruct (Z.ltb_spec socket_res 0) as [Hs|Hs].
  { intro H. inversion H. subst. split; [reflexivity|]. right.
    split; [lia|]. split; [reflexivity|]. intros _ Hge. lia. }
  destruct bind_res as [|e].
  - intro H. inversion H. subst. split; [reflexivity|]. left.
    split; [reflexivity|]. split; [lia|]. split; [lia|].
    split; [reflexivity|].
    intros [Hin|[Hin|[]]]; discriminate Hin.
  - intro H. inversion H. subst. split; [reflexivity|]. right.
    specialize (Hpos e eq_refl).
    split; [|split; [reflexivity|]].
    + unfold ENOENT, EACCES. destruct (- e =? - 2); lia.
    + intros _ _. right. right. left. reflexivity.
Qed.

Lemma uv_pipe_bind_all_or_nothing_witness :
  existsb is_unlink
    [EvSocket; EvBind 7 (sun_path "/tmp/sock"); EvClose 7] = false
  /\ ((- EINVAL = 0 /\ io_fd (uv_pipe_init sample_consts 0 0) < 0 /\ 0 <= 7
       /\ uv_pipe_init sample_consts 0 0 =
            set_io_fd (set_pipe_fname (uv_pipe_init sample_consts 0 0)
                         (Some "/tmp/sock")) 7
       /\ ~ In (EvClose 7)
              [EvSocket; EvBind 7 (sun_path "/tmp/sock"); EvClose 7])
      \/ (- EINVAL < 0
          /\ uv_pipe_init sample_consts 0 0 = uv_pipe_init sample_consts 0 0
          /\ (In EvSocket [EvSocket; EvBind 7 (sun_path "/tmp/sock"); EvClose 7] ->
              0 <= 7 ->
              In (EvClose 7)
                [EvSocket; EvBind 7 (sun_path "/tmp/sock"); EvClose 7]))).
Proof.
  apply (uv_pipe_bind_all_or_nothing
           (uv_pipe_init sample_consts 0 0) "/tmp/sock" true 7 (Failed EINVAL)).
  - intros e H. inversion H. unfold EINVAL. lia.
  - reflexivity.
Defined.

(** *** Bind, then bind again or close *)

Lemma take_string_short :
  forall (n : nat) (s : string),
    (String.length s <= n)%nat -> take_string n s = s.
Proof.
  induction n as [|n IH]; intros [|c s] H; cbn in *; try reflexivity; try lia.
  rewrite IH by lia. reflexivity.
Qed.

Lemma take_string_length :
  forall (n : nat) (s : string),
    (String.length (take_string n s) <= n)%nat.
Proof.
  induction n as [|n IH]; intros [|c s]; cbn; try lia.
  specialize (IH s). lia.
Qed.

(** X2.  After a successful bind the pipe cannot be bound again (the
    second call returns -EINVAL and does nothing), and closing it
    unlinks the name that was given to bind before the stream is
    closed and forgets the name.  The path given to bind(2) is that
    name cut to 107 characters, so the path unlinked is the path bound
    exactly when the name has at most 107 characters. *)
Theorem uv_pipe_bind_then_close :
  forall (handle handle' : uv_pipe_t) (name : string) (sockfd : Z)
         (evs : list event),
    uv_pipe_bind handle name true sockfd Done = (0, handle', evs) ->
    (forall (name2 : string) (ok : bool) (s : Z) (b : sys_unit),
        uv_pipe_bind handle' name2 ok s b = (- EINVAL, handle', []))
    /\ In (EvBind sockfd (sun_path name)) evs
    /\ snd (uv__pipe_close handle') = [Unlink name; StreamClose]
    /\ pipe_fname (fst (uv__pipe_close handle')) = None
    /\ ((String.length name <= 107)%nat <-> sun_path name = name).
Proof.
  intros handle handle' name sockfd evs.
  unfold uv_pipe_bind.
  destruct (Z.geb_spec (io_fd handle) 0) as [Hb|Hb]; [intro H; inversion H|].
  cbn [negb].
  destruct (Z.ltb_spec sockfd 0) as [Hs|Hs]; [intro H; inversion H; lia|].
  intro H. inversion H. subst. clear H.
  repeat split.
  - intros name2 ok s b. cbn [io_fd set_io_fd].
    destruct (Z.geb_spec sockfd 0); [reflexivity | lia].
  - right. left. reflexivity.
  - intro Hlen. apply take_string_short. exact Hlen.
  - intro Heq. rewrite <- Heq. apply take_string_length.
Qed.

Lemma uv_pipe_bind_then_close_witness :
  In (EvBind 7 (sun_path "/tmp/sock"))
     [EvSocket; EvBind 7 (sun_path "/tmp/sock")]
  /\ snd (uv__pipe_close
            (set_io_fd (set_pipe_fname (uv_pipe_init sample_consts 0 0)
                          (Some "/tmp/sock")) 7)) =
       [Unlink "/tmp/sock"; StreamClose].
Proof.
  pose proof (uv_pipe_bind_then_close
                (uv_pipe_init sample_consts 0 0)
                (set_io_fd (set_pipe_fname (uv_pipe_init sample_consts 0 0)
                              (Some "/tmp/sock")) 7)
                "/tmp/sock" 7 [EvSocket; EvBind 7 (sun_path "/tmp/sock")]
                eq_refl) as H.
  split; [exact (proj1 (proj2 H)) | exact (proj1 (proj2 (proj2 H)))].
Defined.

(** *** Connect: the descriptor *)

(** The system calls among the events (the calls into the loop and the
    callbacks left out). *)
Definition is_syscall (e : event) : bool :=
  match e with
  | EvSocket | EvBind _ _ | EvConnect _ _ | EvClose _ | EvUnlink _
  | EvSocketpair _ _ _ | EvCloexec _ _ | EvNonblock _ _ => true
  | _ => false
  end.

Definition is_stream_open (e : event) : bool :=
  match e with
  | EvStreamOpen _ _ => true
  | _ => false
  end.

Lemma filter_repeat_syscall :
  forall (fd : Z) (path : string) (n : nat),
    filter is_syscall (repeat (EvConnect fd path) n) =
      repeat (EvConnect fd path) n.
Proof.
  intros fd path n. induction n as [|n IH]; cbn; [reflexivity|].
  rewrite IH. reflexivity.
Qed.

Lemma no_stream_open_repeat :
  forall (fd : Z) (path : string) (n : nat),
    existsb is_stream_open (repeat (EvConnect fd path) n) = false.
Proof.
  intros fd path n. induction n as [|n IH]; cbn; [reflexivity | exact IH].
Qed.

(** X3.  On a pipe that already has a descriptor, [uv_pipe_connect]
    makes no socket and does not open the stream again: its only system
    calls are the connect(2) calls, on that descriptor and on the name
    cut to 107 characters, one more than the number of times connect
    was interrupted; the descriptor stays. *)
Theorem uv_pipe_connect_reuses_descriptor :
  forall (K : flag_consts) (req cb : nat) (handle : uv_pipe_t) (name : string)
         (socket_res open_res : Z) (n : nat) (r : sys_unit)
         (rest : list sys_unit),
    io_fd handle <> -1 ->
    r <> Failed EINTR ->
    exists (handle' : uv_pipe_t) (evs : list event),
      uv_pipe_connect K req handle name cb socket_res
        (repeat (Failed EINTR) n ++ r :: rest) open_res = Some (handle', evs)
      /\ io_fd handle' = io_fd handle
      /\ filter is_syscall evs =
           repeat (EvConnect (io_fd handle) (sun_path name)) (S n)
      /\ existsb is_stream_open evs = false.
Proof.
  intros K req cb handle name socket_res open_res n r rest Hfd Hr.
  unfold uv_pipe_connect.
  destruct (Z.eqb_spec (io_fd handle) (-1)) as [E|_]; [contradiction|].
  cbn [andb].
  rewrite connect_loop_ends by exact Hr.
  cbn [app].
  set (cs := repeat (EvConnect (io_fd handle) (sun_path name)) (S n)).
  assert (Hcs : filter is_syscall cs = cs) by apply filter_repeat_syscall.
  assert (Hso : existsb is_stream_open cs = false)
    by apply no_stream_open_repeat.
  assert (Hout : forall h err tail,
             io_fd h = io_fd handle ->
             filter is_syscall tail = [] ->
             existsb is_stream_open tail = false ->
             exists handle' evs,
               Some (connect_out req cb h err (cs ++ tail)) = Some (handle', evs)
               /\ io_fd handle' = io_fd handle
               /\ filter is_syscall evs = cs
               /\ existsb is_stream_open evs = false).
  { intros h err tail Hh Ht Hs. unfold connect_out.
    eexists. eexists. split; [reflexivity|].
    split; [exact Hh|].
    rewrite !filter_app, !existsb_app, Hcs, Hso, Ht, Hs.
    destruct (c_true err); cbn; rewrite ?app_nil_r; auto. }
  destruct r as [|e].
  - cbn [Z.eqb]. apply (Hout _ 0 [EvIoStart [UV__POLLIN; UV__POLLOUT]]);
      reflexivity.
  - destruct (negb (e =? EINPROGRESS)).
    + destruct (Hout handle (- e) [] eq_refl eq_refl eq_refl)
        as (h' & evs & H1 & H2).
      rewrite app_nil_r in H1. exists h', evs. split; assumption.
    + cbn [Z.eqb]. apply (Hout _ 0 [EvIoStart [UV__POLLIN; UV__POLLOUT]]);
        reflexivity.
Qed.

Lemma uv_pipe_connect_reuses_descriptor_witness :
  exists (handle' : uv_pipe_t) (evs : list event),
    uv_pipe_connect sample_consts 1 (set_io_fd (uv_pipe_init sample_consts 0 0) 9)
      "/tmp/sock" 2 (-1)
      (repeat (Failed EINTR) 2 ++ Done :: []) 0 = Some (handle', evs)
    /\ io_fd handle' = io_fd (set_io_fd (uv_pipe_init sample_consts 0 0) 9)
    /\ filter is_syscall evs =
         repeat (EvConnect (io_fd (set_io_fd (uv_pipe_init sample_consts 0 0) 9))
                   (sun_path "/tmp/sock")) 3
    /\ existsb is_stream_open evs = false.
Proof.
  apply (uv_pipe_connect_reuses_descriptor sample_consts 1 2
           (set_io_fd (uv_pipe_init sample_consts 0 0) 9) "/tmp/sock"
           (-1) 0 2 Done []).
  - cbn. lia.
  - discriminate.
Defined.

(** X4.  When [uv_pipe_connect] has made a socket for a pipe without a
    descriptor and connect(2) then fails (with an errno other than
    EINPROGRESS), the socket is not closed: the pipe keeps it, with the
    negated errno as its delayed error, and for that reason a later
    [uv_pipe_bind] on the pipe is refused with -EINVAL. *)
Theorem uv_pipe_connect_failure_keeps_socket :
  forall (K : flag_consts) (req cb : nat) (handle : uv_pipe_t) (name : string)
         (socket_res open_res e : Z) (n : nat) (rest : list sys_unit),
    io_fd handle = -1 ->
    0 <= socket_res ->
    e <> EINTR ->
    e <> EINPROGRESS ->
    exists (handle' : uv_pipe_t) (evs : list event),
      uv_pipe_connect K req handle name cb socket_res
        (repeat (Failed EINTR) n ++ Failed e :: rest) open_res =
        Some (handle', evs)
      /\ io_fd handle' = socket_res
      /\ delayed_error handle' = - e
      /\ ~ In (EvClose socket_res) evs
      /\ forall (name2 : string) (ok : bool) (s : Z) (b : sys_unit),
           uv_pipe_bind handle' name2 ok s b = (- EINVAL, handle', []).
Proof.
  intros K req cb handle name socket_res open_res e n rest Hfd Hs He Hp.
  unfold uv_pipe_connect. rewrite Hfd. cbn [Z.eqb Pos.eqb andb].
  destruct (Z.ltb_spec socket_res 0) as [Hlt|_]; [lia|].
  rewrite connect_loop_ends by congruence.
  destruct (Z.eqb_spec e EINPROGRESS) as [->|_]; [contradiction|].
  cbn [negb]. unfold connect_out.
  eexists. eexists. split; [reflexivity|].
  cbn [io_fd set_connect set_io_fd delayed_error].
  repeat split.
  - intro Hin. rewrite !in_app_iff in Hin.
    destruct Hin as [[[Hin|[]]|Hin]|Hin].
    + discriminate Hin.
    + apply repeat_spec in Hin. discriminate Hin.
    + destruct (c_true (- e)); [destruct Hin as [Hin|[]]; discriminate Hin
                               | destruct Hin].
  - intros name2 ok s b. unfold uv_pipe_bind.
    cbn [io_fd set_connect set_io_fd].
    destruct (Z.geb_spec socket_res 0); [reflexivity | lia].
Qed.

Lemma uv_pipe_connect_failure_keeps_socket_witness :
  exists (handle' : uv_pipe_t) (evs : list event),
    uv_pipe_connect sample_consts 1 (uv_pipe_init sample_consts 0 0)
      "/tmp/sock" 2 7 (repeat (Failed EINTR) 1 ++ Failed ENOENT :: []) 0 =
      Some (handle', evs)
    /\ io_fd handle' = 7
    /\ delayed_error handle' = - ENOENT
    /\ ~ In (EvClose 7) evs
    /\ forall (name2 : string) (ok : bool) (s : Z) (b : sys_unit),
         uv_pipe_bind handle' name2 ok s b = (- EINVAL, handle', []).
Proof.
  apply (uv_pipe_connect_failure_keeps_socket sample_consts 1 2
           (uv_pipe_init sample_consts 0 0) "/tmp/sock" 7 0 ENOENT 1 []).
  - reflexivity.
  - lia.
  - discriminate.
  - discriminate.
Defined.

(** *** Link: failure and fallback *)

Lemma land_lor_absorb :
  forall a b : Z, Z.land (Z.lor a b) b = b.
Proof.
  intros a b. apply Z.bits_inj'. intros n Hn.
  rewrite Z.land_spec, Z.lor_spec.
  destruct (Z.testbit a n), (Z.testbit b n); reflexivity.
Qed.

(** What a failed link leaves of the read end: it is as it was, or,
    when the second stream open had failed, it was closed by
    [uv_pipe_close_sync]: flagged UV_CLOSING, without descriptor and
    polling for nothing. *)
Definition read_end_after_failure (K : flag_consts) (read read' : uv_pipe_t)
    (evs : list event) : Prop :=
  (read' = read /\ ~ In EvCloseSync evs)
  \/ (In EvCloseSync evs
      /\ Z.land (flags read') (UV_CLOSING K) = UV_CLOSING K
      /\ io_fd read' = -1
      /\ io_pevents read' = []).

(** What [uv_pipe_link] has done when it returns; [made] says whether a
    socketpair call gave it descriptors. *)
Definition link_post (K : flag_consts) (read write : uv_pipe_t)
    (open_r open_w : Z) (made : bool)
    (ret : Z) (read' write' : uv_pipe_t) (evs : list event) : Prop :=
  (ret = 0 \/ ret = -1)
  /\ (ret = 0 <-> made = true /\ open_r = 0 /\ open_w = 0)
  /\ (ret = 0 -> forall fd, ~ In (EvClose fd) evs)
  /\ (In EvCloseSync evs <-> made = true /\ open_r = 0 /\ open_w <> 0)
  /\ (ret = -1 ->
      write' = write
      /\ read_end_after_failure K read read' evs
      /\ forall nb ce fds,
           In (EvSocketpair nb ce (Got fds)) evs ->
           In (EvClose (fst fds)) evs /\ In (EvClose (snd fds)) evs).

Lemma open_fds_result :
  forall (K : flag_consts) (read write : uv_pipe_t) (fds : Z * Z)
         (open_r open_w : Z) (pre : list event),
    (forall fd, ~ In (EvClose fd) pre) ->
    ~ In EvCloseSync pre ->
    (forall nb ce fds', In (EvSocketpair nb ce (Got fds')) pre -> fds' = fds) ->
    forall (ret : Z) (read' write' : uv_pipe_t) (evs : list event),
      open_fds K read write fds open_r open_w pre = (ret, read', write', evs) ->
      link_post K read write open_r open_w true ret read' write' evs.
Proof.
  intros K read write fds open_r open_w pre Hnc Hns Hsp ret read' write' evs.
  unfold open_fds, c_true, link_post.
  assert (Hpairs : forall tail : list event,
             (forall nb ce fds', ~ In (EvSocketpair nb ce (Got fds')) tail) ->
             In (EvClose (fst fds)) tail -> In (EvClose (snd fds)) tail ->
             forall nb ce fds',
               In (EvSocketpair nb ce (Got fds')) (pre ++ tail) ->
               In (EvClose (fst fds')) (pre ++ tail)
               /\ In (EvClose (snd fds')) (pre ++ tail)).
  { intros tail Ht H1 H2 nb ce fds' Hin. apply in_app_iff in Hin.
    destruct Hin as [Hin|Hin]; [|destruct (Ht nb ce fds' Hin)].
    rewrite (Hsp nb ce fds' Hin).
    split; apply in_app_iff; right; assumption. }
  destruct (Z.eqb_spec open_r 0) as [Er|Er]; cbn [negb].
  - destruct (Z.eqb_spec open_w 0) as [Ew|Ew]; cbn [negb];
      intro H; inversion H; subst ret read' write' evs; clear H.
    + split; [left; reflexivity|]. split; [tauto|].
      split.
      { intros _ fd Hin. apply in_app_iff in Hin. destruct Hin as [Hin|Hin].
        - exact (Hnc fd Hin).
        - destruct Hin as [Hin|[Hin|[]]]; discriminate Hin. }
      split.
      { split.
        - intro Hin. apply in_app_iff in Hin. destruct Hin as [Hin|Hin].
          + destruct (Hns Hin).
          + destruct Hin as [Hin|[Hin|[]]]; discriminate Hin.
        - intros (_ & _ & Hw). contradiction. }
      intro H. discriminate H.
    + split; [right; reflexivity|].
      split; [split; [intro H; discriminate H | intros (_ & _ & H); contradiction]|].
      split; [intro H; discriminate H|].
      split.
      { split; [intros _; auto|].
        intros _. apply in_app_iff. right. cbn. auto. }
      intros _. split; [reflexivity|]. split.
      * right. split; [apply in_app_iff; right; cbn; auto|].
        unfold uv_pipe_close_sync, uv__stream_close.
        cbn [flags io_fd io_pevents set_flags set_io_fd set_io_pevents].
        split; [apply land_lor_absorb|]. split; reflexivity.
      * apply Hpairs.
        -- intros nb ce fds' Hin. cbn in Hin.
           repeat (destruct Hin as [Hin|Hin]; [discriminate Hin|]).
           destruct Hin.
        -- cbn. auto 6.
        -- cbn. auto 6.
  - intro H; inversion H; subst ret read' write' evs; clear H.
    split; [right; reflexivity|].
    split; [split; [intro H; discriminate H | intros (_ & H & _); contradiction]|].
    split; [intro H; discriminate H|].
    assert (Hno : ~ In EvCloseSync
                      (pre ++ [EvStreamOpen (fst fds) 0; EvClose (fst fds);
                               EvClose (snd fds)])).
    { intro Hin. apply in_app_iff in Hin. destruct Hin as [Hin|Hin].
      - destruct (Hns Hin).
      - cbn in Hin. repeat (destruct Hin as [Hin|Hin]; [discriminate Hin|]).
        destruct Hin. }
    split.
    { split; [intro Hin; destruct (Hno Hin)|].
      intros (_ & H & _). contradiction. }
    intros _. split; [reflexivity|]. split.
    + left. split; [reflexivity | exact Hno].
    + apply Hpairs.
      * intros nb ce fds' Hin. cbn in Hin.
        repeat (destruct Hin as [Hin|Hin]; [discriminate Hin|]).
        destruct Hin.
      * cbn. auto.
      * cbn. auto.
Qed.

Lemma link_failed_early :
  forall (K : flag_consts) (read write : uv_pipe_t) (open_r open_w : Z)
         (pre : list event),
    ~ In EvCloseSync pre ->
    (forall nb ce fds, ~ In (EvSocketpair nb ce (Got fds)) pre) ->
    link_post K read write open_r open_w false (-1) read write pre.
Proof.
  intros K read write open_r open_w pre Hns Hpre. unfold link_post.
  split; [right; reflexivity|].
  split; [split; [intro H; discriminate H | intros (H & _); discriminate H]|].
  split; [intro H; discriminate H|].
  split; [split; [intro Hin; destruct (Hns Hin)
                 | intros (H & _); discriminate H]|].
  intros _. split; [reflexivity|].
  split; [left; split; [reflexivity | exact Hns]|].
  intros nb ce fds Hin. destruct (Hpre nb ce fds Hin).
Qed.

(** The socketpair call whose descriptors [uv_pipe_link] goes on with,
    if there is one. *)
Definition pair_made (K : flag_consts) (have : bool) (read write : uv_pipe_t)
    (sp1 sp2 : sys_val (Z * Z)) : bool :=
  if have &&
     c_true (Z.lnot (Z.land (Z.lor (flags read) (flags write))
                            (UV_PIPE_SPAWN_SAFE K)))
  then
    match sp1 with
    | Got _ => true
    | Fail e => if e =? EINVAL then
                  match sp2 with Got _ => true | Fail _ => false end
                else false
    end
  else match sp2 with Got _ => true | Fail _ => false end.

(** X5.  [uv_pipe_link] returns 0 or -1 and nothing else (the errno of
    a failure is not passed on).  It returns 0 exactly when a
    socketpair call and both stream opens succeed, and then closes
    nothing.  When it fails, the write end is as before and both
    descriptors of every pair it obtained have been closed.  The read
    end is as before too, unless the failure is that of the second
    stream open: then, and only then, the read end, which had taken
    its descriptor, went through [uv_pipe_close_sync] and is left
    flagged UV_CLOSING, without descriptor. *)
Theorem uv_pipe_link_failure_closes :
  forall (K : flag_consts) (have : bool) (read write : uv_pipe_t)
         (sp1 sp2 : sys_val (Z * Z)) (open_r open_w : Z)
         (ret : Z) (read' write' : uv_pipe_t) (evs : list event),
    uv_pipe_link K have read write sp1 sp2 open_r open_w =
      (ret, read', write', evs) ->
    (ret = 0 \/ ret = -1)
    /\ (ret = 0 <->
        pair_made K have read write sp1 sp2 = true
        /\ open_r = 0 /\ open_w = 0)
    /\ (ret = 0 -> forall fd, ~ In (EvClose fd) evs)
    /\ (In EvCloseSync evs <->
        pair_made K have read write sp1 sp2 = true
        /\ open_r = 0 /\ open_w <> 0)
    /\ (ret = -1 ->
        write' = write
        /\ ((read' = read /\ ~ In EvCloseSync evs)
            \/ (In EvCloseSync evs
                /\ Z.land (flags read') (UV_CLOSING K) = UV_CLOSING K
                /\ io_fd read' = -1
                /\ io_pevents read' = []))
        /\ forall nb ce fds,
             In (EvSocketpair nb ce (Got fds)) evs ->
             In (EvClose (fst fds)) evs /\ In (EvClose (snd fds)) evs).
Proof.
  intros K have read write sp1 sp2 open_r open_w ret read' write' evs.
  change (uv_pipe_link K have read write sp1 sp2 open_r open_w =
            (ret, read', write', evs) ->
          link_post K read write open_r open_w
            (pair_made K have read write sp1 sp2) ret read' write' evs).
  assert (Hfail : forall pre : list event,
            ~ In EvCloseSync pre ->
            (forall nb ce fds, ~ In (EvSocketpair nb ce (Got fds)) pre) ->
            (-1, read, write, pre) = (ret, read', write', evs) ->
            link_post K read write open_r open_w false ret read' write' evs).
  { intros pre Hns Hpre H. inversion H; subst; clear H.
    apply link_failed_early; assumption. }
  assert (Hplain : forall pre : list event,
            (forall fd, ~ In (EvClose fd) pre) ->
            ~ In EvCloseSync pre ->
            (forall nb ce fds, ~ In (EvSocketpair nb ce (Got fds)) pre) ->
            plain_socketpair K read write sp2 open_r open_w pre =
              (ret, read', write', evs) ->
            link_post K read write open_r open_w
              (match sp2 with Got _ => true | Fail _ => false end)
              ret read' write' evs).
  { intros pre H1 Hns H2. unfold plain_socketpair.
    destruct sp2 as [fds|e].
    - apply open_fds_result.
      + intros fd Hin.
        destruct (c_true (Z.lnot (Z.land (flags read) (UV_PIPE_SPAWN_SAFE K))));
          destruct (c_true (Z.lnot (Z.land (flags write) (UV_PIPE_SPAWN_SAFE K))));
          rewrite ?in_app_iff in Hin; cbn in Hin;
          repeat (destruct Hin as [Hin|Hin]; try discriminate Hin;
                  try exact (H1 fd Hin)); try destruct Hin.
      + intro Hin.
        destruct (c_true (Z.lnot (Z.land (flags read) (UV_PIPE_SPAWN_SAFE K))));
          destruct (c_true (Z.lnot (Z.land (flags write) (UV_PIPE_SPAWN_SAFE K))));
          rewrite ?in_app_iff in Hin; cbn in Hin;
          repeat (destruct Hin as [Hin|Hin]; try discriminate Hin;
                  try exact (Hns Hin)); try destruct Hin.
      + intros nb ce fds' Hin.
        destruct (c_true (Z.lnot (Z.land (flags read) (UV_PIPE_SPAWN_SAFE K))));
          destruct (c_true (Z.lnot (Z.land (flags write) (UV_PIPE_SPAWN_SAFE K))));
          rewrite ?in_app_iff in Hin; cbn in Hin;
          repeat (destruct Hin as [Hin|Hin];
                  try (inversion Hin; reflexivity);
                  try discriminate Hin;
                  try (destruct (H2 nb ce fds' Hin))); try destruct Hin.
    - apply Hfail.
      + intro Hin. apply in_app_iff in Hin.
        destruct Hin as [Hin|[Hin|[]]]; [exact (Hns Hin) | discriminate Hin].
      + intros nb ce fds Hin. apply in_app_iff in Hin.
        destruct Hin as [Hin|[Hin|[]]]; [exact (H2 nb ce fds Hin)|].
        discriminate Hin. }
  unfold uv_pipe_link, pair_made.
  destruct (have &&
            c_true (Z.lnot (Z.land (Z.lor (flags read) (flags write))
                                   (UV_PIPE_SPAWN_SAFE K)))).
  - destruct sp1 as [fds|e].
    + apply open_fds_result.
      * intros fd [Hin|[]]. discriminate Hin.
      * intros [Hin|[]]. discriminate Hin.
      * intros nb ce fds' [Hin|[]]. inversion Hin. reflexivity.
    + destruct (e =? EINVAL); cbn [negb].
      * apply Hplain.
        -- intros fd [Hin|[]]. discriminate Hin.
        -- intros [Hin|[]]. discriminate Hin.
        -- intros nb ce fds [Hin|[]]. discriminate Hin.
      * apply Hfail.
        -- intros [Hin|[]]. discriminate Hin.
        -- intros nb ce fds [Hin|[]]. discriminate Hin.
  - apply Hplain; intros; intros [].
Qed.

Lemma uv_pipe_link_failure_closes_witness :
  In EvCloseSync
    [EvSocketpair true true (Got (5, 6));
     EvStreamOpen 5 0; EvStreamOpen 6 0;
     EvCloseSync; EvClose 5; EvClose 6]
  /\ io_fd (uv_pipe_close_sync sample_consts
              (uv__stream_open safe_read_end 5 0 0)) = -1
  /\ In (EvClose 5)
       [EvSocketpair true true (Got (5, 6));
        EvStreamOpen 5 0; EvStreamOpen 6 0;
        EvCloseSync; EvClose 5; EvClose 6]
  /\ In (EvClose 6)
       [EvSocketpair true true (Got (5, 6));
        EvStreamOpen 5 0; EvStreamOpen 6 0;
        EvCloseSync; EvClose 5; EvClose 6].
Proof.
  destruct (uv_pipe_link_failure_closes sample_consts true
              safe_read_end write_end (Got (5, 6)) (Got (5, 6)) 0 12
              (-1) (uv_pipe_close_sync sample_consts
                      (uv__stream_open safe_read_end 5 0 0))
              write_end
              [EvSocketpair true true (Got (5, 6));
               EvStreamOpen 5 0; EvStreamOpen 6 0;
               EvCloseSync; EvClose 5; EvClose 6]
              eq_refl) as (_ & _ & _ & Hsync & Hfail).
  destruct (Hfail eq_refl) as (_ & Hread & Hclose).
  split; [apply Hsync; split; [reflexivity|]; split; [reflexivity | discriminate]|].
  split; [reflexivity|].
  apply (Hclose true true (5, 6)). left. reflexivity.
Defined.

Lemma plain_socketpair_prefix :
  forall (K : flag_consts) (read write : uv_pipe_t) (sp2 : sys_val (Z * Z))
         (open_r open_w : Z) (pre : list event),
    plain_socketpair K read write sp2 open_r open_w pre =
      (fst (plain_socketpair K read write sp2 open_r open_w []),
       pre ++ snd (plain_socketpair K read write sp2 open_r open_w [])).
Proof.
  intros K read write sp2 open_r open_w pre.
  unfold plain_socketpair, open_fds.
  destruct sp2 as [fds|e]; [|reflexivity].
  destruct (c_true (Z.lnot (Z.land (flags read) (UV_PIPE_SPAWN_SAFE K))));
    destruct (c_true (Z.lnot (Z.land (flags write) (UV_PIPE_SPAWN_SAFE K))));
    destruct (c_true open_r); destruct (c_true open_w);
    cbn [fst snd app]; rewrite <- ?app_assoc; reflexivity.
Qed.

(** X6.  The fallback at run time: in a build with SOCK_NONBLOCK, a
    first socketpair call that fails with EINVAL is followed by
    everything the build without SOCK_NONBLOCK does, with the same
    result; a first call that fails with any other errno ends the link
    with -1 and no second attempt. *)
Theorem uv_pipe_link_einval_fallback :
  forall (K : flag_consts) (read write : uv_pipe_t) (e : Z)
         (sp2 : sys_val (Z * Z)) (open_r open_w : Z),
    0 <= UV_PIPE_SPAWN_SAFE K ->
    uv_pipe_link K true read write (Fail e) sp2 open_r open_w =
      if e =? EINVAL
      then (fst (uv_pipe_link K false read write (Fail e) sp2 open_r open_w),
            EvSocketpair true true (Fail e)
              :: snd (uv_pipe_link K false read write (Fail e) sp2 open_r open_w))
      else (-1, read, write, [EvSocketpair true true (Fail e)]).
Proof.
  intros K read write e sp2 open_r open_w HK.
  unfold uv_pipe_link. cbn [andb].
  rewrite lnot_land_true by exact HK.
  destruct (e =? EINVAL); cbn [negb]; [|reflexivity].
  rewrite plain_socketpair_prefix. reflexivity.
Qed.

Lemma uv_pipe_link_einval_fallback_witness :
  uv_pipe_link sample_consts true safe_read_end write_end
    (Fail EINVAL) (Got (5, 6)) 0 0 =
    (fst (uv_pipe_link sample_consts false safe_read_end write_end
            (Fail EINVAL) (Got (5, 6)) 0 0),
     EvSocketpair true true (Fail EINVAL)
       :: snd (uv_pipe_link sample_consts false safe_read_end write_end
                 (Fail EINVAL) (Got (5, 6)) 0 0)).
Proof.
  apply (uv_pipe_link_einval_fallback sample_consts safe_read_end write_end
           EINVAL (Got (5, 6)) 0 0).
  cbn. lia.
Defined.

End UnixPipeFacts.

(** ** Processes on POSIX *)

Module UnixProcessFacts.
Import Errno UnixProcess.

(** *** Decoding the status word *)

Lemma land_127 : forall s : Z, Z.land s 127 = s mod 128.
Proof. intro s. change 127 with (Z.ones 7). apply Z.land_ones. lia. Qed.

Lemma land_255 : forall s : Z, Z.land s 255 = s mod 256.
Proof. intro s. change 255 with (Z.ones 8). apply Z.land_ones. lia. Qed.

Lemma exited_not_signaled :
  forall st : Z, WIFEXITED st = true -> WIFSIGNALED st = false.
Proof.
  intros st H. unfold WIFEXITED, WTERMSIG in H. apply Z.eqb_eq in H.
  unfold WIFSIGNALED. rewrite H. reflexivity.
Qed.

Lemma signaled_not_exited :
  forall st : Z, WIFSIGNALED st = true -> WIFEXITED st = false.
Proof.
  intros st H. destruct (WIFEXITED st) eqn:E; [|reflexivity].
  apply exited_not_signaled in E. congruence.
Qed.

Lemma exit_args_exited :
  forall st : Z, WIFEXITED st = true -> exit_args st = (WEXITSTATUS st, 0).
Proof.
  intros st H. unfold exit_args.
  rewrite H, (exited_not_signaled st H). reflexivity.
Qed.

Lemma exit_args_signaled :
  forall st : Z, WIFSIGNALED st = true -> exit_args st = (0, WTERMSIG st).
Proof.
  intros st H. unfold exit_args.
  rewrite H, (signaled_not_exited st H). reflexivity.
Qed.

Lemma status_of_exit_decodes :
  forall code : Z,
    0 <= code <= 255 ->
    WIFEXITED (status_of_exit code) = true
    /\ WEXITSTATUS (status_of_exit code) = code.
Proof.
  intros code Hc. unfold WIFEXITED, WTERMSIG, WEXITSTATUS, status_of_exit.
  split.
  - apply Z.eqb_eq. rewrite land_127, Z.shiftl_mul_pow2 by lia.
    change (2 ^ 8) with (2 * 128). rewrite Z.mul_assoc. apply Z.mod_mul. lia.
  - rewrite Z.shiftr_land, Z.shiftr_shiftl_l by lia.
    change (8 - 8) with 0. rewrite Z.shiftl_0_r.
    change (Z.shiftr 65280 8) with 255.
    rewrite land_255. apply Z.mod_small. lia.
Qed.

Lemma status_of_signal_decodes :
  forall (sig : Z) (core : bool),
    1 <= sig <= 126 ->
    WIFSIGNALED (status_of_signal sig core) = true
    /\ WTERMSIG (status_of_signal sig core) = sig.
Proof.
  intros sig core Hs.
  assert (Hl : Z.land (status_of_signal sig core) 127 = sig).
  { unfold status_of_signal. rewrite Z.land_lor_distr_l, land_127.
    rewrite Z.mod_small by lia.
    destruct core; [change (Z.land 128 127) with 0 | change (Z.land 0 127) with 0];
      apply Z.lor_0_r. }
  unfold WIFSIGNALED, WTERMSIG. rewrite Hl. split; [|reflexivity].
  unfold signed_char. rewrite (Z.mod_small (sig + 1) 256) by lia.
  destruct (Z.ltb_spec (sig + 1) 128); [|lia].
  apply Z.ltb_lt. rewrite Z.shiftr_div_pow2 by lia.
  change (2 ^ 1) with 2.
  apply Z.div_str_pos. lia.
Qed.

Lemma scan_queue_pending :
  forall (waitpid : Z -> wait_outcome) (q kept pending : list uv_process_t),
    scan_queue waitpid q = Some (kept, pending) ->
    forall p', In p' pending ->
      exists p st, In p q /\ waitpid (pid p) = Reaped st
                   /\ p' = set_status p st.
Proof.
  intros waitpid q. induction q as [|p q IH]; intros kept pending H p' Hin.
  - inversion H. subst. contradiction.
  - cbn [scan_queue] in H.
    destruct (waitpid (pid p)) as [|st|errno] eqn:Ew;
      try (destruct (negb (errno =? ECHILD)); [discriminate|]);
      destruct (scan_queue waitpid q) as [[k pd]|]; try discriminate;
      cbn in H; inversion H; subst; clear H.
    + edestruct IH as (p0 & st & Hq & Hw & He);
        [reflexivity | eassumption |].
      exists p0, st. auto using in_cons.
    + destruct Hin as [<-|Hin].
      * exists p, st. auto using in_eq.
      * edestruct IH as (p0 & st0 & Hq & Hw & He);
          [reflexivity | eassumption |].
        exists p0, st0. auto using in_cons.
    + edestruct IH as (p0 & st & Hq & Hw & He);
        [reflexivity | eassumption |].
      exists p0, st. auto using in_cons.
Qed.

Lemma run_pending_events :
  forall (pending : list uv_process_t) (h cb : nat) (es ts : Z),
    In (EvExitCb h cb es ts) (run_pending pending) ->
    exists p', In p' pending /\ handle p' = h /\ exit_cb p' = Some cb
               /\ (es, ts) = exit_args (status p').
Proof.
  intros pending h cb es ts Hin. unfold run_pending in Hin.
  apply in_flat_map in Hin. destruct Hin as (p' & Hp & Hev).
  exists p'. destruct (exit_cb p') as [cb'|]; [|contradiction].
  destruct Hev as [Hev|[]]. injection Hev as <- <- <- <-.
  repeat split; auto.
Qed.

Lemma uv__chld_events :
  forall (waitpid : Z -> wait_outcome) (qs qs' : process_handles)
         (reaped : list uv_process_t) (evs : list event),
    uv__chld waitpid qs = Some (qs', reaped, evs) ->
    forall (h cb : nat) (es ts : Z),
      In (EvExitCb h cb es ts) evs ->
      exists p st,
        In p (concat qs) /\ handle p = h /\ exit_cb p = Some cb
        /\ waitpid (pid p) = Reaped st /\ (es, ts) = exit_args st.
Proof.
  intros waitpid qs.
  induction qs as [|q qs IH]; intros qs' reaped evs H h cb es ts Hin.
  - inversion H. subst. contradiction.
  - cbn [uv__chld] in H.
    destruct (scan_queue waitpid q) as [[kept pending]|] eqn:Es; [|discriminate].
    destruct (uv__chld waitpid qs) as [[[r' rp] ev']|]; [|discriminate].
    inversion H. subst. apply in_app_or in Hin. destruct Hin as [Hin|Hin].
    + apply run_pending_events in Hin.
      destruct Hin as (p' & Hp & Hh & Hc & Ha).
      destruct (scan_queue_pending _ _ _ _ Es p' Hp) as (p & st & Hq & Hw & He).
      subst p'. exists p, st. cbn [concat].
      repeat split; auto using in_or_app.
    + destruct (IH _ _ _ eq_refl h cb es ts Hin)
        as (p & st & Hq & Hh & Hc & Hw & Ha).
      exists p, st. cbn [concat]. repeat split; auto using in_or_app.
Qed.

(** Two children, one that exited with code 3 and one killed by
    SIGKILL: the reaper calls back with (3, 0) and (0, 9). *)
Definition two_children : process_handles :=
  [[{| handle := 1; pid := 100; status := 0; exit_cb := Some 7%nat;
       active := true |};
    {| handle := 2; pid := 101; status := 0; exit_cb := Some 8%nat;
       active := true |}]].

Definition two_exits (pid : Z) : wait_outcome :=
  if pid =? 100 then Reaped (status_of_exit 3)
  else Reaped (status_of_signal 9 false).

(** *** Descriptors 0, 1 and 2 of the child *)

Definition devnull (m : open_mode) : file :=
  {| target := "/dev/null"; mode := m; cloexec := false |}.

Lemma lowest_free_spec :
  forall (t : fdtable) (limit : nat) (fd u : Z),
    lowest_free t limit fd = Some u ->
    fd <= u /\ t u = None /\ forall k, fd <= k < u -> t k <> None.
Proof.
  intros t limit. induction limit as [|limit IH]; intros fd u H.
  - discriminate.
  - cbn [lowest_free] in H. destruct (t fd) eqn:E.
    + apply IH in H. destruct H as (H1 & H2 & H3).
      split; [lia|]. split; [exact H2|].
      intros k Hk. destruct (Z.eq_dec k fd) as [->|Hne].
      * congruence.
      * apply H3. lia.
    + inversion H. subst. split; [lia|]. split; [exact E|]. intros k Hk. lia.
Qed.

Lemma lowest_free_same_holes :
  forall (t t' : fdtable) (limit : nat) (fd : Z),
    (forall k, t k = None <-> t' k = None) ->
    lowest_free t limit fd = lowest_free t' limit fd.
Proof.
  intros t t' limit. induction limit as [|limit IH]; intros fd H.
  - reflexivity.
  - cbn [lowest_free]. destruct (t fd) eqn:E; destruct (t' fd) eqn:E'.
    + apply IH. exact H.
    + apply H in E'. congruence.
    + apply H in E. congruence.
    + reflexivity.
Qed.

(** One slot that the options leave empty, when open(2) hands out a
    descriptor other than the slot: the slot ends up on /dev/null and
    the other descriptors are as they were. *)
Lemma child_stdio_devnull_step :
  forall (w : child_world) (fd u : Z) (rest : list (Z * Z)) (t : fdtable),
    devnull_err w = None ->
    lowest_free t (nofile w) 0 = Some u ->
    0 <= fd < 3 -> u <> fd ->
    exists t' : fdtable,
      child_stdio w fd ((-1, -1) :: rest) t = child_stdio w (fd + 1) rest t'
      /\ t' fd = Some (devnull (if fd =? 0 then O_RDONLY else O_RDWR))
      /\ t' u = None
      /\ forall k, k <> fd -> k <> u -> t' k = t k.
Proof.
  intros w fd u rest t Hd Hl Hfd Hu.
  cbn [child_stdio]. change (-1 <? 0) with true. cbv iota.
  destruct (Z.geb_spec fd 3); [lia|].
  unfold sys_open. rewrite Hd, Hl.
  destruct (Z.eqb_spec fd u); [congruence|].
  destruct (Z.eqb_spec u (-1)) as [Hm|Hm].
  { apply lowest_free_spec in Hl. lia. }
  cbn [negb].
  eexists. split; [reflexivity|].
  unfold sys_close, sys_dup2, fd_set. rewrite !Z.eqb_refl. cbn [target mode].
  destruct (Z.eqb_spec fd u); [congruence|]. rewrite ?Z.eqb_refl.
  split; [reflexivity|]. split; [reflexivity|].
  intros k Hk1 Hk2.
  destruct (Z.eqb_spec k u); [congruence|].
  destruct (Z.eqb_spec k fd); [congruence|]. reflexivity.
Qed.

(** X10.  With no stdio container at all, when the parent has
    descriptors 0, 1 and 2 open and the child's calls succeed, the new
    program starts with all three on /dev/null: 0 read-only, 1 and 2
    read-write. *)
Lemma uv_spawn_no_stdio_devnull :
  forall (NDEBUG : bool) (qs : process_handles) (h : nat)
         (options : uv_process_options_t)
         (pid : Z) (w : child_world) (t : fdtable) (u : Z),
    opt_stdio options = [] ->
    t 0 <> None -> t 1 <> None -> t 2 <> None ->
    devnull_err w = None ->
    lowest_free t (nofile w) 0 = Some u ->
    chdir_res w = Done -> setgid_res w = Done -> setuid_res w = Done ->
    signal_res w = Done -> exec_res w = Done ->
    exists (r : spawn_result) (fds : fdtable),
      uv_spawn NDEBUG qs h options true (Got pid) w t = Some r
      /\ child r = Runs fds
      /\ ret r = 0
      /\ fds 0 = Some (devnull O_RDONLY)
      /\ fds 1 = Some (devnull O_RDWR)
      /\ fds 2 = Some (devnull O_RDWR).
Proof.
  intros NDEBUG qs h options pid w t u Hs H0 H1 H2 Hd Hl Hc Hg Hu Hsig He.
  assert (Hu3 : 3 <= u).
  { destruct (lowest_free_spec _ _ _ _ Hl) as (Hge & Hn & _).
    destruct (Z.eq_dec u 0) as [->|]; [congruence|].
    destruct (Z.eq_dec u 1) as [->|]; [congruence|].
    destruct (Z.eq_dec u 2) as [->|]; [congruence|]. lia. }
  assert (Hstep : forall fd rest t0,
            0 <= fd < 3 ->
            (forall k, t0 k = None <-> t k = None) ->
            exists t',
              child_stdio w fd ((-1, -1) :: rest) t0 = child_stdio w (fd + 1) rest t'
              /\ t' fd = Some (devnull (if fd =? 0 then O_RDONLY else O_RDWR))
              /\ (forall k, k <> fd -> k <> u -> t' k = t0 k)
              /\ (forall k, t' k = None <-> t k = None)).
  { intros fd rest t0 Hfd Hsame.
    assert (Hl0 : lowest_free t0 (nofile w) 0 = Some u).
    { rewrite (lowest_free_same_holes t0 t _ _ Hsame). exact Hl. }
    destruct (child_stdio_devnull_step w fd u rest t0 Hd Hl0 Hfd ltac:(lia))
      as (t' & Hrun & Hfdv & Huv & Hrest).
    exists t'. repeat split; auto.
    - intro Hk. destruct (Z.eq_dec k fd) as [->|Hne]; [congruence|].
      destruct (Z.eq_dec k u) as [->|Hne'].
      + apply (lowest_free_spec _ _ _ _ Hl).
      + rewrite Hrest in Hk by assumption. apply Hsame. exact Hk.
    - intro Hk. destruct (Z.eq_dec k fd) as [->|Hne].
      + exfalso. assert (fd = 0 \/ fd = 1 \/ fd = 2) as [->|[->| ->]] by lia;
          congruence.
      + destruct (Z.eq_dec k u) as [->|Hne']; [exact Huv|].
        rewrite Hrest by assumption. apply Hsame. exact Hk. }
  destruct (Hstep 0 [(-1, -1); (-1, -1)] t ltac:(lia) ltac:(tauto))
    as (t1 & R1 & V1 & K1 & S1).
  destruct (Hstep 1 [(-1, -1)] t1 ltac:(lia) S1) as (t2 & R2 & V2 & K2 & S2).
  destruct (Hstep 2 [] t2 ltac:(lia) S2) as (t3 & R3 & V3 & K3 & S3).
  eexists. exists (after_exec t3).
  unfold uv_spawn, uv__process_child_init. rewrite Hs. cbn [negb init_pipes].
  change (pad_pipes []) with [(-1, -1); (-1, -1); (-1, -1)].
  rewrite R1. change (0 + 1) with 1. rewrite R2. change (1 + 1) with 2.
  rewrite R3. cbn [child_stdio].
  rewrite Hc, Hg, Hu, Hsig, He. cbn [neg_errno].
  assert (Hchain :
            forall (c1 c2 c3 c4 : bool) (k : sys_val fdtable),
              (if c1 then (if c2 then (if c3 then (if c4 then k else k)
                                       else (if c4 then k else k))
                           else (if c3 then (if c4 then k else k)
                                 else (if c4 then k else k)))
               else (if c2 then (if c3 then (if c4 then k else k)
                                 else (if c4 then k else k))
                     else (if c3 then (if c4 then k else k)
                           else (if c4 then k else k)))) = k).
  { intros [] [] [] [] k; reflexivity. }
  rewrite Hchain. split; [reflexivity|]. cbn [child ret].
  split; [reflexivity|]. split; [reflexivity|].
  unfold after_exec.
  rewrite K3, K2, V1 by lia. rewrite K3, V2 by lia. rewrite V3.
  repeat split; reflexivity.
Qed.

(** A parent that runs with descriptor 0 closed (1 and 2 are its
    terminal), and a child whose calls all succeed. *)
Definition tty : file := {| target := "/dev/tty"; mode := O_RDWR; cloexec := false |}.

Definition no_stdin : fdtable :=
  fun k => if (k =? 1) || (k =? 2) then Some tty else None.

Definition all_fine : child_world :=
  {| nofile := 1024; devnull_err := None; chdir_res := Done;
     setgid_res := Done; setuid_res := Done; signal_res := Done;
     exec_res := Done |}.

Definition no_stdio (cb : option nat) : uv_process_options_t :=
  {| opt_exit_cb := cb; opt_stdio := []; opt_cwd := None;
     opt_setuid := false; opt_setgid := false; opt_detached := false;
     opt_reset_sigpipe := false |}.

(** C9, evaluated: spawn with stdio_count = 0 from a parent whose
    descriptor 0 is closed.  open("/dev/null") returns 0, the slot
    itself; the code keeps it and then closes it as [close_fd].  Spawn
    returns 0 and the program starts with descriptor 0 closed; 1 and 2
    are on /dev/null. *)
Theorem uv_spawn_no_stdio_closed_stdin :
  forall NDEBUG : bool,
    exists r : spawn_result,
      uv_spawn NDEBUG [[]] 1 (no_stdio None) true (Got 100) all_fine no_stdin
        = Some r
      /\ ret r = 0
      /\ match child r with
         | Runs fds =>
             fds 0 = None
             /\ fds 1 = Some (devnull O_RDWR)
             /\ fds 2 = Some (devnull O_RDWR)
         | _ => False
         end.
Proof.
  intro NDEBUG. eexists. split; [reflexivity|].
  vm_compute. repeat split; reflexivity.
Qed.

(** One slot that the options leave empty, in a child whose
    descriptor 0 is closed: open(2) hands out 0, and after the slot is
    done descriptor 0 is closed again. *)
Lemma child_stdio_stdin_closed_step :
  forall (w : child_world) (fd : Z) (rest : list (Z * Z)) (t : fdtable),
    devnull_err w = None -> nofile w <> O ->
    0 <= fd < 3 -> t 0 = None ->
    exists t' : fdtable,
      child_stdio w fd ((-1, -1) :: rest) t = child_stdio w (fd + 1) rest t'
      /\ t' 0 = None.
Proof.
  intros w fd rest t Hd Hn Hfd H0.
  cbn [child_stdio]. change (-1 <? 0) with true. cbv iota.
  destruct (Z.geb_spec fd 3); [lia|].
  unfold sys_open. rewrite Hd.
  destruct (nofile w) as [|limit]; [congruence|].
  cbn [lowest_free]. rewrite H0.
  change (0 =? -1) with false. cbn [negb].
  eexists. split; [reflexivity|].
  unfold sys_close, fd_set. reflexivity.
Qed.

(** The general form of the run above: with no stdio container, a
    parent whose descriptor 0 is closed, and a child whose calls all
    succeed, spawn returns 0 and the program starts with descriptor 0
    closed. *)
Lemma uv_spawn_no_stdio_stdin_stays_closed :
  forall (NDEBUG : bool) (qs : process_handles) (h : nat)
         (options : uv_process_options_t)
         (pid : Z) (w : child_world) (t : fdtable),
    opt_stdio options = [] ->
    t 0 = None ->
    devnull_err w = None -> nofile w <> O ->
    chdir_res w = Done -> setgid_res w = Done -> setuid_res w = Done ->
    signal_res w = Done -> exec_res w = Done ->
    exists (r : spawn_result) (fds : fdtable),
      uv_spawn NDEBUG qs h options true (Got pid) w t = Some r
      /\ child r = Runs fds
      /\ ret r = 0
      /\ fds 0 = None.
Proof.
  intros NDEBUG qs h options pid w t Hs H0 Hd Hn Hc Hg Hu Hsig He.
  destruct (child_stdio_stdin_closed_step w 0 [(-1, -1); (-1, -1)] t
              Hd Hn ltac:(lia) H0) as (t1 & R1 & V1).
  destruct (child_stdio_stdin_closed_step w 1 [(-1, -1)] t1
              Hd Hn ltac:(lia) V1) as (t2 & R2 & V2).
  destruct (child_stdio_stdin_closed_step w 2 [] t2
              Hd Hn ltac:(lia) V2) as (t3 & R3 & V3).
  eexists. exists (after_exec t3).
  unfold uv_spawn, uv__process_child_init. rewrite Hs. cbn [negb init_pipes].
  change (pad_pipes []) with [(-1, -1); (-1, -1); (-1, -1)].
  rewrite R1. change (0 + 1) with 1. rewrite R2. change (1 + 1) with 2.
  rewrite R3. cbn [child_stdio].
  rewrite Hc, Hg, Hu, Hsig, He. cbn [neg_errno].
  destruct (opt_cwd options), (opt_setgid options), (opt_setuid options),
    (opt_reset_sigpipe options);
    (split; [reflexivity|]); cbn [child ret];
    (split; [reflexivity|]); (split; [reflexivity|]);
    unfold after_exec; rewrite V3; reflexivity.
Qed.

(** *** How often the exit callback runs *)

(** The handle [h] with a callback set. *)
Definition has_cb (h : nat) (p : uv_process_t) : bool :=
  Nat.eqb (handle p) h &&
  match exit_cb p with Some _ => true | None => false end.

(** How many queue entries will call back for handle [h]. *)
Definition queued_cb (h : nat) (qs : process_handles) : nat :=
  length (filter (has_cb h) (concat qs)).

Definition is_cb_of (h : nat) (e : event) : bool :=
  match e with EvExitCb h' _ _ _ => Nat.eqb h' h end.

(** How many times the exit callback of handle [h] was invoked. *)
Definition count_cb (h : nat) (evs : list event) : nat :=
  length (filter (is_cb_of h) evs).

Lemma scan_queue_split :
  forall (waitpid : Z -> wait_outcome) (h : nat)
         (q kept pending : list uv_process_t),
    scan_queue waitpid q = Some (kept, pending) ->
    (length (filter (has_cb h) q) =
     length (filter (has_cb h) kept) + length (filter (has_cb h) pending))%nat.
Proof.
  intros waitpid h q. induction q as [|p q IH]; intros kept pending H.
  - inversion H. reflexivity.
  - cbn [scan_queue] in H.
    destruct (waitpid (pid p)) as [|st|errno];
      try (destruct (negb (errno =? ECHILD)); [discriminate|]);
      destruct (scan_queue waitpid q) as [[k pd]|]; try discriminate;
      cbn in H; inversion H; subst; clear H;
      specialize (IH _ _ eq_refl); cbn [filter];
      try change (has_cb h (set_status p st)) with (has_cb h p);
      destruct (has_cb h p); cbn [length]; lia.
Qed.

Lemma run_pending_count :
  forall (h : nat) (pending : list uv_process_t),
    count_cb h (run_pending pending) = length (filter (has_cb h) pending).
Proof.
  intros h pending. unfold count_cb, run_pending.
  induction pending as [|p pending IH]; [reflexivity|].
  cbn [flat_map filter]. rewrite filter_app, length_app, IH.
  unfold has_cb. destruct (exit_cb p) as [cb|]; cbn [filter is_cb_of].
  - destruct (Nat.eqb (handle p) h); reflexivity.
  - rewrite andb_false_r. reflexivity.
Qed.

Lemma uv__chld_count :
  forall (waitpid : Z -> wait_outcome) (h : nat) (qs qs' : process_handles)
         (reaped : list uv_process_t) (evs : list event),
    uv__chld waitpid qs = Some (qs', reaped, evs) ->
    (queued_cb h qs = queued_cb h qs' + count_cb h evs)%nat.
Proof.
  intros waitpid h qs.
  induction qs as [|q qs IH]; intros qs' reaped evs H.
  - inversion H. reflexivity.
  - cbn [uv__chld] in H.
    destruct (scan_queue waitpid q) as [[kept pending]|] eqn:Es; [|discriminate].
    destruct (uv__chld waitpid qs) as [[[r' rp] ev']|]; [|discriminate].
    inversion H. subst. clear H.
    specialize (IH _ _ _ eq_refl).
    pose proof (scan_queue_split waitpid h _ _ _ Es) as Hs.
    unfold queued_cb, count_cb in *. cbn [concat].
    rewrite !filter_app, !length_app.
    fold (count_cb h (run_pending pending)). rewrite run_pending_count. lia.
Qed.

Lemma deliveries_count :
  forall (oracles : list (Z -> wait_outcome)) (h : nat)
         (qs qs' : process_handles) (evs : list event),
    deliveries oracles qs = Some (qs', evs) ->
    (queued_cb h qs = queued_cb h qs' + count_cb h evs)%nat.
Proof.
  intros oracles h. induction oracles as [|wp later IH]; intros qs qs' evs H.
  - inversion H. subst. unfold count_cb. cbn. lia.
  - cbn [deliveries] in H.
    destruct (uv__chld wp qs) as [[[q1 rp] ev1]|] eqn:E1; [|discriminate].
    destruct (deliveries later q1) as [[q2 ev2]|] eqn:E2; [|discriminate].
    inversion H. subst. clear H.
    pose proof (uv__chld_count _ h _ _ _ _ E1).
    pose proof (IH _ _ _ E2).
    unfold count_cb in *. rewrite filter_app, length_app. lia.
Qed.










(** A parent with its three standard descriptors, and a child for which
    exec fails with ENOENT (no such program). *)
Definition std_fds : fdtable :=
  fun k => if (0 <=? k) && (k <=? 2) then Some tty else None.





(** *** The reaper: what stays queued and when it aborts *)

(** Whether waitpid reports the child of [p]. *)
Definition reaped_by (waitpid : Z -> wait_outcome) (p : uv_process_t) : bool :=
  match waitpid (pid p) with
  | Reaped _ => true
  | _ => false
  end.

(** The handle as the reaper leaves it when its child is reported:
    stopped, with the status word stored. *)
Definition reap (waitpid : Z -> wait_outcome) (p : uv_process_t)
  : uv_process_t :=
  match waitpid (pid p) with
  | Reaped st => uv__handle_stop (set_status p st)
  | _ => p
  end.

Lemma scan_queue_partition :
  forall (waitpid : Z -> wait_outcome) (q kept pending : list uv_process_t),
    scan_queue waitpid q = Some (kept, pending) ->
    kept = filter (fun p => negb (reaped_by waitpid p)) q
    /\ map uv__handle_stop pending = map (reap waitpid) (filter (reaped_by waitpid) q).
Proof.
  intros waitpid q. induction q as [|p q IH]; intros kept pending H.
  - inversion H. split; reflexivity.
  - cbn [scan_queue] in H. cbn [filter].
    assert (Hr : reaped_by waitpid p =
                 match waitpid (pid p) with Reaped _ => true | _ => false end)
      by reflexivity.
    assert (Hp : reap waitpid p =
                 match waitpid (pid p) with
                 | Reaped st => uv__handle_stop (set_status p st)
                 | _ => p
                 end) by reflexivity.
    rewrite Hr. clear Hr.
    destruct (waitpid (pid p)) as [|st|errno];
      try (destruct (negb (errno =? ECHILD)); [discriminate|]);
      destruct (scan_queue waitpid q) as [[k pd]|]; try discriminate;
      cbn in H; inversion H; subst; clear H;
      destruct (IH _ _ eq_refl) as [IH1 IH2]; cbn [negb map];
      rewrite <- IH1, <- IH2, ?Hp; split; reflexivity.
Qed.

Lemma run_pending_stopped :
  forall pending : list uv_process_t,
    run_pending (map uv__handle_stop pending) = run_pending pending.
Proof.
  intros pending. unfold run_pending.
  induction pending as [|p pending IH]; [reflexivity|].
  cbn [map flat_map]. rewrite IH. reflexivity.
Qed.

Lemma run_pending_app :
  forall a b : list uv_process_t,
    run_pending (a ++ b) = run_pending a ++ run_pending b.
Proof. intros a b. unfold run_pending. apply flat_map_app. Qed.

(** X7.  One run of the reaper splits every queue in two, keeping
    the order: the handles whose child waitpid did not report stay in
    their queue, untouched; the others leave it, are stopped and carry
    the status word; the exit callbacks run for exactly these, in queue
    order.  No handle is lost or duplicated. *)
Theorem uv__chld_partition :
  forall (waitpid : Z -> wait_outcome) (qs qs' : process_handles)
         (reaped : list uv_process_t) (evs : list event),
    uv__chld waitpid qs = Some (qs', reaped, evs) ->
    qs' = map (filter (fun p => negb (reaped_by waitpid p))) qs
    /\ reaped = map (reap waitpid) (filter (reaped_by waitpid) (concat qs))
    /\ evs = run_pending reaped.
Proof.
  intros waitpid qs.
  induction qs as [|q qs IH]; intros qs' reaped evs H.
  - inversion H. repeat split; reflexivity.
  - cbn [uv__chld] in H.
    destruct (scan_queue waitpid q) as [[kept pending]|] eqn:Es; [|discriminate].
    destruct (uv__chld waitpid qs) as [[[r' rp] ev']|]; [|discriminate].
    inversion H. subst. clear H.
    destruct (IH _ _ _ eq_refl) as (I1 & I2 & I3).
    destruct (scan_queue_partition _ _ _ _ Es) as [S1 S2].
    cbn [map concat]. rewrite filter_app, map_app, run_pending_app.
    rewrite <- S1, <- S2, <- I1, <- I2, run_pending_stopped, <- I3.
    repeat split; reflexivity.
Qed.

Lemma uv__chld_partition_witness :
  [[]] = map (filter (fun p => negb (reaped_by two_exits p))) two_children
  /\ map (reap two_exits) (concat two_children) =
       map (reap two_exits) (filter (reaped_by two_exits) (concat two_children))
  /\ [EvExitCb 1 7 3 0; EvExitCb 2 8 0 9] =
       run_pending (map (reap two_exits) (concat two_children)).
Proof.
  apply (uv__chld_partition two_exits two_children [[]]
           (map (reap two_exits) (concat two_children))
           [EvExitCb 1 7 3 0; EvExitCb 2 8 0 9]).
  vm_compute. reflexivity.
Defined.

Lemma scan_queue_aborts_iff :
  forall (waitpid : Z -> wait_outcome) (q : list uv_process_t),
    scan_queue waitpid q = None <->
    exists p e, In p q /\ waitpid (pid p) = WaitError e /\ e <> ECHILD.
Proof.
  intros waitpid q. induction q as [|p q IH].
  - split; [discriminate | intros (p & e & [] & _)].
  - cbn [scan_queue].
    assert (Hmap : forall f : list uv_process_t * list uv_process_t ->
                             list uv_process_t * list uv_process_t,
               option_map f (scan_queue waitpid q) = None <->
               scan_queue waitpid q = None).
    { intro f. destruct (scan_queue waitpid q); cbn; split; congruence. }
    destruct (waitpid (pid p)) as [|st|errno] eqn:Ew.
    + rewrite Hmap, IH. split.
      * intros (p0 & e & Hin & Hw & He). exists p0, e. auto using in_cons.
      * intros (p0 & e & [<-|Hin] & Hw & He); [congruence|].
        exists p0, e. auto.
    + rewrite Hmap, IH. split.
      * intros (p0 & e & Hin & Hw & He). exists p0, e. auto using in_cons.
      * intros (p0 & e & [<-|Hin] & Hw & He); [congruence|].
        exists p0, e. auto.
    + destruct (Z.eqb_spec errno ECHILD) as [->|Hne]; cbn [negb].
      * rewrite Hmap, IH. split.
        -- intros (p0 & e & Hin & Hw & He). exists p0, e. auto using in_cons.
        -- intros (p0 & e & [<-|Hin] & Hw & He); [congruence|].
           exists p0, e. auto.
      * split; [|reflexivity]. intros _. exists p, errno. auto using in_eq.
Qed.

(** X8.  The reaper calls [abort] exactly when waitpid fails, for the
    child of some queued handle, with an errno other than ECHILD (EINTR
    is retried and never seen here); a child that is still running, or
    one that is unknown to the kernel (ECHILD), does not stop it. *)
Theorem uv__chld_aborts_iff :
  forall (waitpid : Z -> wait_outcome) (qs : process_handles),
    uv__chld waitpid qs = None <->
    exists p e, In p (concat qs) /\ waitpid (pid p) = WaitError e
                /\ e <> ECHILD.
Proof.
  intros waitpid qs. induction qs as [|q qs IH].
  - split; [discriminate | intros (p & e & [] & _)].
  - cbn [uv__chld concat].
    destruct (scan_queue waitpid q) as [[kept pending]|] eqn:Es.
    + assert (Hq : ~ exists p e, In p q /\ waitpid (pid p) = WaitError e
                                 /\ e <> ECHILD).
      { intro Hex. apply scan_queue_aborts_iff in Hex. congruence. }
      destruct (uv__chld waitpid qs) as [[[r' rp] ev']|] eqn:Ec.
      * split; [discriminate|].
        intros (p & e & Hin & Hw & He). apply in_app_or in Hin.
        destruct Hin as [Hin|Hin].
        -- exfalso. apply Hq. exists p, e. auto.
        -- assert (Hn : Some (r', rp, ev') = None)
             by (apply IH; exists p, e; auto).
           discriminate Hn.
      * split; [|reflexivity]. intros _.
        destruct (proj1 IH eq_refl) as (p & e & Hin & Hw & He).
        exists p, e. auto using in_or_app.
    + split; [|reflexivity]. intros _.
      destruct (proj1 (scan_queue_aborts_iff waitpid q) Es)
        as (p & e & Hin & Hw & He).
      exists p, e. auto using in_or_app.
Qed.

(** *** The reaper: every reaped child is called back *)

Lemma uv__chld_returns :
  forall (waitpid : Z -> wait_outcome) (qs : process_handles),
    (forall p e, In p (concat qs) -> waitpid (pid p) = WaitError e ->
                 e = ECHILD) ->
    exists r, uv__chld waitpid qs = Some r.
Proof.
  intros waitpid qs. induction qs as [|q qs IH]; intro Hok.
  - eexists. reflexivity.
  - cbn [uv__chld].
    destruct (scan_queue waitpid q) as [[kept pending]|] eqn:Es.
    + destruct IH as [[[r' rp] ev'] ->].
      { intros p e Hin. apply Hok. cbn [concat]. apply in_or_app.
        right. exact Hin. }
      eexists. reflexivity.
    + apply scan_queue_aborts_iff in Es.
      destruct Es as (p & e & Hin & Hw & He).
      destruct He. apply (Hok p e); [|exact Hw].
      cbn [concat]. apply in_or_app. left. exact Hin.
Qed.

Lemma uv__chld_callbacks :
  forall (waitpid : Z -> wait_outcome) (qs qs' : process_handles)
         (reaped : list uv_process_t) (evs : list event),
    uv__chld waitpid qs = Some (qs', reaped, evs) ->
    evs = run_pending
            (map (reap waitpid) (filter (reaped_by waitpid) (concat qs))).
Proof.
  intros waitpid qs.
  induction qs as [|q qs IH]; intros qs' reaped evs H.
  - inversion H. reflexivity.
  - cbn [uv__chld] in H.
    destruct (scan_queue waitpid q) as [[kept pending]|] eqn:Es; [|discriminate].
    destruct (uv__chld waitpid qs) as [[[r' rp] ev']|]; [|discriminate].
    inversion H. subst. clear H.
    destruct (scan_queue_partition _ _ _ _ Es) as [_ S2].
    cbn [concat]. rewrite filter_app, map_app, run_pending_app.
    rewrite <- S2, run_pending_stopped, <- (IH _ _ _ eq_refl).
    reflexivity.
Qed.

(** Whether the reaper owes [p] a callback: waitpid reports its child
    and the handle has an exit callback. *)
Definition called_back (waitpid : Z -> wait_outcome) (p : uv_process_t)
  : bool :=
  reaped_by waitpid p &&
  match exit_cb p with Some _ => true | None => false end.

Lemma run_pending_reaped_length :
  forall (waitpid : Z -> wait_outcome) (l : list uv_process_t),
    length (run_pending (map (reap waitpid) (filter (reaped_by waitpid) l))) =
    length (filter (called_back waitpid) l).
Proof.
  intros waitpid l. induction l as [|p l IH]; [reflexivity|].
  cbn [filter].
  assert (Hc : called_back waitpid p =
               reaped_by waitpid p &&
               match exit_cb p with Some _ => true | None => false end)
    by reflexivity.
  rewrite Hc. clear Hc.
  destruct (reaped_by waitpid p); cbn [andb]; [|exact IH].
  cbn [map].
  change (reap waitpid p :: map (reap waitpid) (filter (reaped_by waitpid) l))
    with ([reap waitpid p]
          ++ map (reap waitpid) (filter (reaped_by waitpid) l)).
  rewrite run_pending_app, length_app, IH.
  assert (He : exit_cb (reap waitpid p) = exit_cb p)
    by (unfold reap; destruct (waitpid (pid p)); reflexivity).
  unfold run_pending. cbn [flat_map]. rewrite He.
  destruct (exit_cb p); reflexivity.
Qed.

Lemma run_pending_reaped_in :
  forall (waitpid : Z -> wait_outcome) (l : list uv_process_t)
         (p : uv_process_t) (st : Z) (cb : nat),
    In p l -> waitpid (pid p) = Reaped st -> exit_cb p = Some cb ->
    In (EvExitCb (handle p) cb (fst (exit_args st)) (snd (exit_args st)))
       (run_pending (map (reap waitpid) (filter (reaped_by waitpid) l))).
Proof.
  intros waitpid l p st cb Hin Hw Hcb. unfold run_pending.
  apply in_flat_map. exists (reap waitpid p). split.
  - apply in_map, filter_In. split; [exact Hin|].
    unfold reaped_by. rewrite Hw. reflexivity.
  - unfold reap. rewrite Hw.
    cbn [uv__handle_stop set_status exit_cb handle status].
    rewrite Hcb. left. reflexivity.
Qed.

Lemma exit_args_decoded :
  forall (st es ts : Z),
    (es, ts) = exit_args st ->
    (WIFEXITED st = true -> es = WEXITSTATUS st /\ ts = 0)
    /\ (WIFSIGNALED st = true -> es = 0 /\ ts = WTERMSIG st)
    /\ (forall code, 0 <= code <= 255 -> st = status_of_exit code ->
        es = code /\ ts = 0)
    /\ (forall sig core, 1 <= sig <= 126 -> st = status_of_signal sig core ->
        es = 0 /\ ts = sig).
Proof.
  intros st es ts Ha. repeat split.
  - rewrite exit_args_exited in Ha by assumption. congruence.
  - rewrite exit_args_exited in Ha by assumption. congruence.
  - rewrite exit_args_signaled in Ha by assumption. congruence.
  - rewrite exit_args_signaled in Ha by assumption. congruence.
  - subst st. destruct (status_of_exit_decodes code H) as [H1 H2].
    rewrite exit_args_exited, H2 in Ha by assumption. congruence.
  - subst st. destruct (status_of_exit_decodes code H) as [H1 H2].
    rewrite exit_args_exited, H2 in Ha by assumption. congruence.
  - subst st. destruct (status_of_signal_decodes sig core H) as [H1 H2].
    rewrite exit_args_signaled, H2 in Ha by assumption. congruence.
  - subst st. destruct (status_of_signal_decodes sig core H) as [H1 H2].
    rewrite exit_args_signaled, H2 in Ha by assumption. congruence.
Qed.

(** C6: when waitpid fails for no queued child with an errno other
    than ECHILD, the reaper returns, and for every queued handle whose
    child waitpid reports and that has an exit callback, that callback
    is invoked with arguments decoded from the status word:
    (WEXITSTATUS, 0) for a child that exited, (0, WTERMSIG) for a child
    killed by a signal; for the words the kernel produces these are
    (code, 0) and (0, signal).  No other callback is invoked: every
    callback is for such a handle, with these arguments, and there are
    as many callbacks as such handles. *)
Theorem uv__chld_decodes_status :
  forall (waitpid : Z -> wait_outcome) (qs : process_handles),
    (forall p e, In p (concat qs) -> waitpid (pid p) = WaitError e ->
                 e = ECHILD) ->
    exists (qs' : process_handles) (reaped : list uv_process_t)
           (evs : list event),
      uv__chld waitpid qs = Some (qs', reaped, evs)
      /\ (forall (p : uv_process_t) (st : Z) (cb : nat),
             In p (concat qs) -> waitpid (pid p) = Reaped st ->
             exit_cb p = Some cb ->
             exists es ts,
               In (EvExitCb (handle p) cb es ts) evs
               /\ (WIFEXITED st = true -> es = WEXITSTATUS st /\ ts = 0)
               /\ (WIFSIGNALED st = true -> es = 0 /\ ts = WTERMSIG st)
               /\ (forall code, 0 <= code <= 255 -> st = status_of_exit code ->
                   es = code /\ ts = 0)
               /\ (forall sig core, 1 <= sig <= 126 ->
                   st = status_of_signal sig core -> es = 0 /\ ts = sig))
      /\ (forall (h cb : nat) (es ts : Z),
             In (EvExitCb h cb es ts) evs ->
             exists p st,
               In p (concat qs) /\ handle p = h /\ exit_cb p = Some cb
               /\ waitpid (pid p) = Reaped st
               /\ (WIFEXITED st = true -> es = WEXITSTATUS st /\ ts = 0)
               /\ (WIFSIGNALED st = true -> es = 0 /\ ts = WTERMSIG st)
               /\ (forall code, 0 <= code <= 255 -> st = status_of_exit code ->
                   es = code /\ ts = 0)
               /\ (forall sig core, 1 <= sig <= 126 ->
                   st = status_of_signal sig core -> es = 0 /\ ts = sig))
      /\ length evs = length (filter (called_back waitpid) (concat qs)).
Proof.
  intros waitpid qs Hok.
  destruct (uv__chld_returns waitpid qs Hok) as [[[qs' reaped] evs] Hrun].
  exists qs', reaped, evs. split; [exact Hrun|].
  pose proof (uv__chld_callbacks _ _ _ _ _ Hrun) as Hevs.
  split; [|split].
  - intros p st cb Hin Hw Hcb.
    exists (fst (exit_args st)), (snd (exit_args st)). split.
    + rewrite Hevs. apply run_pending_reaped_in; assumption.
    + apply exit_args_decoded. destruct (exit_args st); reflexivity.
  - intros h cb es ts Hin.
    destruct (uv__chld_events _ _ _ _ _ Hrun h cb es ts Hin)
      as (p & st & Hq & Hh & Hc & Hw & Ha).
    exists p, st.
    split; [exact Hq|]. split; [exact Hh|]. split; [exact Hc|].
    split; [exact Hw|]. apply exit_args_decoded. exact Ha.
  - rewrite Hevs. apply run_pending_reaped_length.
Qed.

(** Two children, one that exited with code 3 and one killed by
    SIGKILL: the reaper calls back with (3, 0) and (0, 9), once each. *)
Lemma uv__chld_decodes_status_witness :
  exists (qs' : process_handles) (reaped : list uv_process_t)
         (evs : list event),
    uv__chld two_exits two_children = Some (qs', reaped, evs)
    /\ evs = [EvExitCb 1 7 3 0; EvExitCb 2 8 0 9]
    /\ length evs = length (filter (called_back two_exits)
                              (concat two_children)).
Proof.
  destruct (uv__chld_decodes_status two_exits two_children)
    as (qs' & reaped & evs & Hrun & _ & _ & Hlen).
  - intros p e [<-|[<-|[]]]; discriminate.
  - exists qs', reaped, evs. split; [exact Hrun|].
    split; [|exact Hlen].
    vm_compute in Hrun. inversion Hrun. reflexivity.
Defined.

(** *** Closing a process handle *)

Lemma queued_cb_closed :
  forall (h : nat) (qs : process_handles),
    queued_cb h (uv__process_close qs h) = O.
Proof.
  intros h qs. unfold queued_cb, uv__process_close.
  induction qs as [|q qs IH]; [reflexivity|].
  cbn [map concat]. rewrite filter_app, length_app, IH, Nat.add_0_r.
  clear IH. induction q as [|p q IHq]; [reflexivity|].
  cbn [filter]. destruct (Nat.eqb (handle p) h) eqn:E; cbn [negb]; [exact IHq|].
  cbn [filter]. unfold has_cb at 1. rewrite E. cbn [andb]. exact IHq.
Qed.

Lemma queued_cb_closed_other :
  forall (h h' : nat) (qs : process_handles),
    h' <> h ->
    queued_cb h' (uv__process_close qs h) = queued_cb h' qs.
Proof.
  intros h h' qs Hne. unfold queued_cb, uv__process_close.
  induction qs as [|q qs IH]; [reflexivity|].
  cbn [map concat]. rewrite !filter_app, !length_app, IH. f_equal.
  clear IH. induction q as [|p q IHq]; [reflexivity|].
  cbn [filter]. destruct (Nat.eqb_spec (handle p) h) as [E|E]; cbn [negb].
  - unfold has_cb at 2. destruct (Nat.eqb_spec (handle p) h'); [congruence|].
    cbn [andb]. exact IHq.
  - cbn [filter]. destruct (has_cb h' p); cbn [length]; congruence.
Qed.

(** X9.  After [uv__process_close], however many SIGCHLD deliveries
    follow and whatever waitpid answers, the exit callback of the
    closed handle is never invoked; the number of callbacks still due
    to any other handle is what it was. *)
Theorem uv__process_close_silences :
  forall (oracles : list (Z -> wait_outcome)) (qs qs' : process_handles)
         (h : nat) (evs : list event),
    deliveries oracles (uv__process_close qs h) = Some (qs', evs) ->
    count_cb h evs = O
    /\ forall h' : nat, h' <> h ->
         (queued_cb h' qs = queued_cb h' qs' + count_cb h' evs)%nat.
Proof.
  intros oracles qs qs' h evs H. split.
  - pose proof (deliveries_count _ h _ _ _ H) as Hc.
    rewrite queued_cb_closed in Hc. lia.
  - intros h' Hne. pose proof (deliveries_count _ h' _ _ _ H) as Hc.
    rewrite queued_cb_closed_other in Hc by exact Hne. exact Hc.
Qed.

Lemma uv__process_close_silences_witness :
  count_cb 1 [EvExitCb 2 8 0 9] = O
  /\ forall h' : nat, h' <> 1%nat ->
       (queued_cb h' two_children =
        queued_cb h' [[]] + count_cb h' [EvExitCb 2 8 0 9])%nat.
Proof.
  apply (uv__process_close_silences [two_exits] two_children [[]] 1
           [EvExitCb 2 8 0 9]).
  vm_compute. reflexivity.
Defined.

(** *** Spawn: what must have succeeded before the program runs *)

Lemma uv_spawn_no_stdio_devnull_witness :
  exists (r : spawn_result) (fds : fdtable),
    uv_spawn false [[]] 1 (no_stdio None) true (Got 100) all_fine std_fds
      = Some r
    /\ child r = Runs fds
    /\ ret r = 0
    /\ fds 0 = Some (devnull O_RDONLY)
    /\ fds 1 = Some (devnull O_RDWR)
    /\ fds 2 = Some (devnull O_RDWR).
Proof.
  refine (uv_spawn_no_stdio_devnull false [[]] 1 (no_stdio None) 100 all_fine
            std_fds 3
            eq_refl _ _ _ eq_refl eq_refl eq_refl eq_refl eq_refl eq_refl
            eq_refl); discriminate.
Defined.

(** X11.  The new program runs only when every step the options ask
    for has succeeded in the child: chdir when a working directory is
    given, setgid and setuid when requested, the reset of SIGPIPE when
    requested, and exec itself; spawn then returns 0. *)
Theorem uv_spawn_runs_only_after_setup :
  forall (NDEBUG : bool) (qs : process_handles) (h : nat)
         (options : uv_process_options_t)
         (malloc_ok : bool) (fork_res : sys_val Z) (w : child_world)
         (t fds : fdtable) (r : spawn_result),
    uv_spawn NDEBUG qs h options malloc_ok fork_res w t = Some r ->
    child r = Runs fds ->
    ret r = 0
    /\ (opt_cwd options <> None -> chdir_res w = Done)
    /\ (opt_setgid options = true -> setgid_res w = Done)
    /\ (opt_setuid options = true -> setuid_res w = Done)
    /\ (opt_reset_sigpipe options = true -> signal_res w = Done)
    /\ exec_res w = Done.
Proof.
  intros NDEBUG qs h options malloc_ok fork_res w t fds r.
  unfold uv_spawn.
  destruct malloc_ok; cbn [negb];
    [|intro Hr; inversion Hr; subst r; discriminate].
  destruct (init_pipes NDEBUG (opt_stdio options)) as [[l|err]|];
    [|intro Hr; inversion Hr; subst r; discriminate | discriminate].
  destruct fork_res as [pid|errno];
    [|intro Hr; inversion Hr; subst r; discriminate].
  intro Hr. inversion Hr. subst r. clear Hr.
  cbn [child ret]. unfold uv__process_child_init.
  destruct (child_stdio w 0 (pad_pipes l) t) as [t'|err]; [|discriminate].
  destruct (opt_cwd options) as [cwd|];
    destruct (opt_setgid options); destruct (opt_setuid options);
    destruct (opt_reset_sigpipe options);
    destruct (chdir_res w); destruct (setgid_res w); destruct (setuid_res w);
    destruct (signal_res w); destruct (exec_res w);
    cbn [neg_errno]; intro H; try discriminate H;
    repeat split; try reflexivity; try discriminate; intro; try reflexivity;
    try congruence.
Qed.

(** What [uv_spawn] answers for handle 1, with no exit callback and no
    stdio container, when every call of the child succeeds. *)
Definition started_spawn : spawn_result :=
  {| ret := 0;
     queues := [[ {| handle := 1; pid := 100; status := 0;
                     exit_cb := None; active := true |} ]];
     process := Some {| handle := 1; pid := 100; status := 0;
                        exit_cb := None; active := true |};
     child :=
       match uv__process_child_init (no_stdio None) (pad_pipes [])
               all_fine std_fds with
       | Got fds => Runs fds
       | Fail _ => Exits127
       end |}.

Lemma uv_spawn_runs_only_after_setup_witness :
  uv_spawn false [[]] 1 (no_stdio None) true (Got 100) all_fine std_fds
    = Some started_spawn
  /\ ret started_spawn = 0
  /\ exec_res all_fine = Done.
Proof.
  assert (Hs : uv_spawn false [[]] 1 (no_stdio None) true (Got 100) all_fine
                 std_fds = Some started_spawn) by reflexivity.
  pose proof (uv_spawn_runs_only_after_setup false [[]] 1 (no_stdio None) true
                (Got 100) all_fine std_fds _ started_spawn Hs eq_refl) as H.
  split; [exact Hs|].
  split; [exact (proj1 H) | exact (proj2 (proj2 (proj2 (proj2 (proj2 H)))))].
Defined.

(** *** Spawn: stdio containers that are refused *)









(** *** Spawn: descriptors handed to the child *)

(** A copy of an open file made by dup2(2): FD_CLOEXEC is clear. *)
Definition inherited (f : file) : file :=
  {| target := target f; mode := mode f; cloexec := false |}.

Lemma child_stdio_inherit :
  forall (w : child_world) (fds : list Z) (fd : Z) (t : fdtable),
    0 <= fd ->
    (forall a, In a fds -> fd + Z.of_nat (length fds) <= a /\ t a <> None) ->
    exists t' : fdtable,
      child_stdio w fd (map (fun a => (-1, a)) fds) t = Got t'
      /\ (forall (i : nat) (a : Z),
             nth_error fds i = Some a ->
             t' (fd + Z.of_nat i) = option_map inherited (t a))
      /\ (forall k, k < fd \/ fd + Z.of_nat (length fds) <= k -> t' k = t k).
Proof.
  intros w fds. induction fds as [|a fds IH]; intros fd t Hfd Hall.
  - exists t. split; [reflexivity|]. split.
    + intros [|i] a H; discriminate H.
    + intros k _. reflexivity.
  - destruct (Hall a (in_eq _ _)) as [Ha Hopen].
    cbn [length] in Ha.
    destruct (t a) as [f|] eqn:Eta; [clear Hopen | congruence].
    cbn [map child_stdio].
    destruct (Z.ltb_spec a 0) as [Hlt|_]; [lia|].
    destruct (Z.eqb_spec fd a) as [He|_]; [lia|].
    change (-1 =? -1) with true. cbn [negb].
    unfold sys_dup2 at 1. rewrite Eta.
    fold (inherited f).
    destruct (IH (fd + 1) (fd_set t fd (Some (inherited f))) ltac:(lia))
      as (t' & Hrun & Hslots & Hrest).
    { intros a' Hin. destruct (Hall a' (in_cons _ _ _ Hin)) as [Hge Hop].
      cbn [length] in Hge. split; [lia|].
      unfold fd_set. destruct (Z.eqb_spec a' fd); [lia | exact Hop]. }
    exists t'. split; [exact Hrun|]. split.
    + intros [|i] a' Hn.
      * cbn in Hn. inversion Hn. subst a'.
        rewrite Z.add_0_r, Hrest by lia.
        unfold fd_set. rewrite Z.eqb_refl, Eta. reflexivity.
      * cbn [nth_error] in Hn.
        replace (fd + Z.of_nat (S i)) with (fd + 1 + Z.of_nat i) by lia.
        rewrite (Hslots i a' Hn).
        apply nth_error_In in Hn.
        destruct (Hall a' (in_cons _ _ _ Hn)) as [Hge _].
        cbn [length] in Hge.
        unfold fd_set. destruct (Z.eqb_spec a' fd); [lia | reflexivity].
    + intros k Hk. cbn [length] in Hk. rewrite Hrest by lia.
      unfold fd_set. destruct (Z.eqb_spec k fd); [lia | reflexivity].
Qed.

Lemma init_pipes_raw_fds :
  forall (NDEBUG : bool) (fds : list Z),
    (forall a, In a fds -> a <> -1) ->
    init_pipes NDEBUG (map UV_RAW_FD fds) =
      Some (Got (map (fun a => (-1, a)) fds)).
Proof.
  intro NDEBUG. induction fds as [|a fds IH]; intro H; [reflexivity|].
  cbn [map init_pipes uv__process_init_stdio].
  destruct (Z.eqb_spec a (-1)) as [E|_]; [destruct (H a (in_eq _ _) E)|].
  cbn. rewrite IH by (intros a' Hin; apply H; right; exact Hin).
  reflexivity.
Qed.

(** X13.  When the options give a descriptor for every slot (three
    or more slots, as UV_RAW_FD), every descriptor named is open in
    the parent and its number is beyond the slots, and the child's
    calls succeed, the program starts with slot i a copy of the i-th
    descriptor with FD_CLOEXEC clear.  The descriptors beyond the slots
    are not closed by spawn: each is open in the program exactly when
    it was open without FD_CLOEXEC in the parent. *)
Theorem uv_spawn_inherits_descriptors :
  forall (NDEBUG : bool) (qs : process_handles) (h : nat)
         (options : uv_process_options_t)
         (pid : Z) (w : child_world) (t : fdtable) (fds : list Z),
    opt_stdio options = map UV_RAW_FD fds ->
    (3 <= length fds)%nat ->
    (forall a, In a fds -> Z.of_nat (length fds) <= a /\ t a <> None) ->
    chdir_res w = Done -> setgid_res w = Done -> setuid_res w = Done ->
    signal_res w = Done -> exec_res w = Done ->
    exists (r : spawn_result) (table : fdtable),
      uv_spawn NDEBUG qs h options true (Got pid) w t = Some r
      /\ child r = Runs table
      /\ ret r = 0
      /\ (forall (i : nat) (a : Z),
             nth_error fds i = Some a ->
             table (Z.of_nat i) = option_map inherited (t a))
      /\ (forall k, Z.of_nat (length fds) <= k -> table k = after_exec t k).
Proof.
  intros NDEBUG qs h options pid w t fds Hs Hlen Hall Hc Hg Hu Hsig He.
  destruct (child_stdio_inherit w fds 0 t ltac:(lia) Hall)
    as (t' & Hrun & Hslots & Hrest).
  eexists. exists (after_exec t').
  unfold uv_spawn, uv__process_child_init. rewrite Hs. cbn [negb].
  rewrite init_pipes_raw_fds
    by (intros a Hin; destruct (Hall a Hin); lia).
  unfold pad_pipes. rewrite length_map.
  replace (3 - length fds)%nat with O by lia.
  cbn [repeat]. rewrite app_nil_r, Hrun.
  rewrite Hc, Hg, Hu, Hsig, He. cbn [neg_errno].
  destruct (opt_cwd options), (opt_setgid options), (opt_setuid options),
    (opt_reset_sigpipe options);
    (split; [reflexivity|]); cbn [child ret];
    (split; [reflexivity|]); (split; [reflexivity|]);
    (split;
     [ intros i a Hn; unfold after_exec;
       rewrite <- (Z.add_0_l (Z.of_nat i)), (Hslots i a Hn);
       destruct (t a); reflexivity
     | intros k Hk; unfold after_exec; rewrite Hrest by lia; reflexivity ]).
Qed.

Definition three_files : fdtable :=
  fun k => if (0 <=? k) && (k <=? 7) then Some tty else None.

Definition three_raw_fds : uv_process_options_t :=
  {| opt_exit_cb := None;
     opt_stdio := map UV_RAW_FD [5; 6; 7];
     opt_cwd := None; opt_setuid := false; opt_setgid := false;
     opt_detached := false; opt_reset_sigpipe := false |}.

Lemma uv_spawn_inherits_descriptors_witness :
  exists (r : spawn_result) (table : fdtable),
    uv_spawn false [[]] 1 three_raw_fds true (Got 100) all_fine three_files
      = Some r
    /\ child r = Runs table
    /\ ret r = 0
    /\ (forall (i : nat) (a : Z),
           nth_error [5; 6; 7] i = Some a ->
           table (Z.of_nat i) = option_map inherited (three_files a))
    /\ (forall k, Z.of_nat (length [5; 6; 7]) <= k ->
                  table k = after_exec three_files k).
Proof.
  apply (uv_spawn_inherits_descriptors false [[]] 1 three_raw_fds 100 all_fine
           three_files [5; 6; 7]); try reflexivity.
  intros a [<-|[<-|[<-|[]]]]; cbn; split; try lia; discriminate.
Defined.

(** *** Spawn, then close *)





(** *** The pipe2 fallback *)

Lemma make_pipes_without_pipe2 :
  forall (O_CLOEXEC F_NONBLOCK : Z) (calls : list pipe_call),
    make_pipes O_CLOEXEC F_NONBLOCK true calls =
      (true, map (fun c => plain_pipe F_NONBLOCK (call_flags c) (call_pipe c))
                 calls).
Proof.
  intros O_CLOEXEC F_NONBLOCK calls.
  induction calls as [|c calls IH]; [reflexivity|].
  cbn [make_pipes uv__make_pipe map]. rewrite IH. reflexivity.
Qed.

Lemma make_pipes_app :
  forall (O_CLOEXEC F_NONBLOCK : Z) (a b : list pipe_call) (nb : bool),
    make_pipes O_CLOEXEC F_NONBLOCK nb (a ++ b) =
      (fst (make_pipes O_CLOEXEC F_NONBLOCK
              (fst (make_pipes O_CLOEXEC F_NONBLOCK nb a)) b),
       snd (make_pipes O_CLOEXEC F_NONBLOCK nb a)
       ++ snd (make_pipes O_CLOEXEC F_NONBLOCK
                 (fst (make_pipes O_CLOEXEC F_NONBLOCK nb a)) b)).
Proof.
  intros O_CLOEXEC F_NONBLOCK a b.
  induction a as [|c a IH]; intro nb.
  - cbn [app make_pipes fst snd].
    destruct (make_pipes O_CLOEXEC F_NONBLOCK nb b); reflexivity.
  - cbn [app make_pipes].
    destruct (uv__make_pipe O_CLOEXEC F_NONBLOCK nb (call_flags c)
                (call_pipe2 c) (call_pipe c)) as [nb' r].
    rewrite IH.
    destruct (make_pipes O_CLOEXEC F_NONBLOCK nb' a) as [s rs].
    reflexivity.
Qed.

Definition is_pipe2 (e : pipe_event) : bool :=
  match e with
  | EvPipe2 _ => true
  | _ => false
  end.

Lemma plain_pipe_no_pipe2 :
  forall (F_NONBLOCK flags : Z) (pipe_res : sys_val (Z * Z)),
    existsb is_pipe2 (snd (plain_pipe F_NONBLOCK flags pipe_res)) = false.
Proof.
  intros F_NONBLOCK flags pipe_res. unfold plain_pipe.
  destruct pipe_res as [fds|e]; [|reflexivity].
  destruct (negb (Z.land flags F_NONBLOCK =? 0)); reflexivity.
Qed.

(** X15.  [uv__make_pipe] remembers that pipe2 is missing: once a
    call has met ENOSYS from [uv__pipe2], every later call in the
    process, whatever its arguments and outcomes, goes straight to
    pipe(2) and never tries [uv__pipe2] again. *)
Theorem uv__make_pipe_fallback_is_sticky :
  forall (O_CLOEXEC F_NONBLOCK : Z) (nb : bool)
         (before later : list pipe_call) (c : pipe_call),
    call_pipe2 c = Fail ENOSYS ->
    make_pipes O_CLOEXEC F_NONBLOCK nb (before ++ c :: later) =
      (true,
       snd (make_pipes O_CLOEXEC F_NONBLOCK nb (before ++ [c]))
       ++ map (fun c' => plain_pipe F_NONBLOCK (call_flags c') (call_pipe c'))
              later)
    /\ forall r, In r (map (fun c' => plain_pipe F_NONBLOCK (call_flags c')
                                        (call_pipe c')) later) ->
                 existsb is_pipe2 (snd r) = false.
Proof.
  intros O_CLOEXEC F_NONBLOCK nb before later c Hc. split.
  - change (before ++ c :: later) with (before ++ [c] ++ later).
    rewrite app_assoc, make_pipes_app.
    assert (Hst : fst (make_pipes O_CLOEXEC F_NONBLOCK nb (before ++ [c]))
                  = true).
    { rewrite make_pipes_app. cbn [fst].
      destruct (fst (make_pipes O_CLOEXEC F_NONBLOCK nb before));
        cbn [make_pipes uv__make_pipe]; [reflexivity|].
      rewrite Hc. cbn.
      destruct (plain_pipe F_NONBLOCK (call_flags c) (call_pipe c))
        as [[r fds] evs]. reflexivity. }
    rewrite Hst, make_pipes_without_pipe2. reflexivity.
  - intros r Hin. apply in_map_iff in Hin. destruct Hin as (c' & <- & _).
    apply plain_pipe_no_pipe2.
Qed.

Lemma uv__make_pipe_fallback_is_sticky_witness :
  make_pipes 524288 2048 false
    ([] ++ {| call_flags := 0; call_pipe2 := Fail ENOSYS;
              call_pipe := Got (3, 4) |}
        :: [{| call_flags := 2048; call_pipe2 := Got (5, 6);
               call_pipe := Got (5, 6) |}]) =
    (true,
     snd (make_pipes 524288 2048 false
            ([] ++ [{| call_flags := 0; call_pipe2 := Fail ENOSYS;
                       call_pipe := Got (3, 4) |}]))
     ++ map (fun c' => plain_pipe 2048 (call_flags c') (call_pipe c'))
            [{| call_flags := 2048; call_pipe2 := Got (5, 6);
                call_pipe := Got (5, 6) |}]).
Proof.
  apply (proj1 (uv__make_pipe_fallback_is_sticky 524288 2048 false []
                  [{| call_flags := 2048; call_pipe2 := Got (5, 6);
                      call_pipe := Got (5, 6) |}]
                  {| call_flags := 0; call_pipe2 := Fail ENOSYS;
                     call_pipe := Got (3, 4) |} eq_refl)).
Defined.

End UnixProcessFacts.

(** ** Processes on Windows *)

Module WinProcessFacts.
Import WinProcess.

(** *** Quoting round trip *)

(** The state of the [for] loop after it has read [l]. *)
Definition hit_step (q : bool) (c : Z) : bool :=
  if q && (c =? L_backslash) then q
  else if c =? L_dquote then true else false.

Fixpoint qstate (l : wstring) (q : bool) : bool :=
  match l with
  | [] => q
  | c :: rest => qstate rest (hit_step q c)
  end.

(** Whether [a] is a run of backslashes that ends at a double quote or
    at the end of the argument. *)
Fixpoint hit (a : wstring) : bool :=
  match a with
  | [] => true
  | c :: rest =>
      if c =? L_dquote then true
      else if c =? L_backslash then hit rest else false
  end.

(** The quoted text, read forwards. *)
Fixpoint esc (a : wstring) : wstring :=
  match a with
  | [] => []
  | c :: rest =>
      (if hit rest && (c =? L_backslash) then [L_backslash; L_backslash]
       else if c =? L_dquote then [L_backslash; L_dquote]
       else [c]) ++ esc rest
  end.

Lemma quote_loop_app :
  forall (l1 l2 : wstring) (q : bool),
    quote_loop (l1 ++ l2) q = quote_loop l1 q ++ quote_loop l2 (qstate l1 q).
Proof.
  intros l1. induction l1 as [|c l1 IH]; intros l2 q; [reflexivity|].
  cbn [app quote_loop qstate]. unfold hit_step.
  destruct (q && (c =? L_backslash)) eqn:E.
  - cbn [app]. rewrite IH. reflexivity.
  - destruct (c =? L_dquote); cbn [app]; rewrite IH; reflexivity.
Qed.

Lemma qstate_app :
  forall (l1 l2 : wstring) (q : bool),
    qstate (l1 ++ l2) q = qstate l2 (qstate l1 q).
Proof.
  intros l1. induction l1 as [|c l1 IH]; intros l2 q; [reflexivity|].
  cbn [app qstate]. apply IH.
Qed.

Lemma qstate_rev :
  forall a : wstring, qstate (rev a) true = hit a.
Proof.
  intros a. induction a as [|c a IH]; [reflexivity|].
  cbn [rev hit]. rewrite qstate_app, IH. cbn [qstate]. unfold hit_step.
  destruct (Z.eqb_spec c L_backslash) as [->|Hb].
  - change (L_backslash =? L_dquote) with false.
    rewrite andb_true_r. destruct (hit a); reflexivity.
  - rewrite andb_false_r. reflexivity.
Qed.

Lemma quote_loop_rev :
  forall a : wstring, rev (quote_loop (rev a) true) = esc a.
Proof.
  intros a. induction a as [|c a IH]; [reflexivity|].
  cbn [rev esc]. rewrite quote_loop_app, rev_app_distr, IH, qstate_rev.
  f_equal. cbn [quote_loop].
  destruct (Z.eqb_spec c L_backslash) as [->|Hb].
  - change (L_backslash =? L_dquote) with false.
    destruct (hit a); reflexivity.
  - rewrite andb_false_r. destruct (c =? L_dquote) eqn:E; [|reflexivity].
    apply Z.eqb_eq in E. subst c. reflexivity.
Qed.

Lemma repeat_snoc :
  forall (A : Type) (x : A) (n : nat) (l : list A),
    repeat x (S n) ++ l = repeat x n ++ x :: l.
Proof.
  intros A x n l. induction n as [|n IH]; [reflexivity|].
  cbn [repeat app] in *. rewrite IH. reflexivity.
Qed.

Lemma even_double : forall j : nat, Nat.even (2 * j) = true.
Proof.
  intro j. rewrite Nat.even_mul. reflexivity.
Qed.

Lemma even_succ_double : forall j : nat, Nat.even (S (2 * j)) = false.
Proof.
  intro j. rewrite Nat.even_succ, <- Nat.negb_even, even_double. reflexivity.
Qed.

(** Inside quotes: the parser turns the quoted text of [a], followed
    by the closing quote, back into [a].  [j] backslashes of the source
    come just before [a]; the parser holds twice as many when they are
    in a run that was doubled. *)
Lemma parse_quoted :
  forall (a : wstring) (j : nat) (cur tail : wstring),
    parse_args (esc a ++ L_dquote :: tail)
               (Some (true, if hit a then (2 * j)%nat else j, cur)) =
    parse_args tail (Some (false, O, cur ++ repeat L_backslash j ++ a)).
Proof.
  intros a. induction a as [|c a IH]; intros j cur tail.
  - cbn [esc hit app parse_args arg_start].
    change (is_space L_dquote) with false. cbn [andb].
    change (L_dquote =? L_backslash) with false.
    rewrite Z.eqb_refl, even_double, Nat.div2_double, app_nil_r. reflexivity.
  - cbn [esc hit].
    destruct (Z.eqb_spec c L_dquote) as [->|Hq].
    + (* an embedded quote *)
      change (L_dquote =? L_backslash) with false. rewrite andb_false_r.
      cbn [app parse_args arg_start].
      change (is_space L_backslash) with false.
      change (is_space L_dquote) with false. cbn [andb].
      rewrite !Z.eqb_refl.
      change (L_dquote =? L_backslash) with false.
      rewrite even_succ_double, Nat.div2_succ_double.
      specialize (IH O (cur ++ repeat L_backslash j ++ [L_dquote]) tail).
      replace (if hit a then (2 * 0)%nat else O) with O in IH
        by (destruct (hit a); reflexivity).
      rewrite IH. cbn [repeat app]. rewrite <- !app_assoc. reflexivity.
    + destruct (Z.eqb_spec c L_backslash) as [->|Hb].
      * (* a backslash *)
        rewrite andb_true_r.
        destruct (hit a) eqn:Eh.
        -- cbn [app parse_args arg_start].
           change (is_space L_backslash) with false. cbn [andb].
           rewrite !Z.eqb_refl.
           specialize (IH (S j) cur tail). try rewrite Eh in IH. cbv iota in IH.
           replace (S (S (2 * j))) with (2 * S j)%nat by lia.
           rewrite IH, repeat_snoc. reflexivity.
        -- cbn [app parse_args arg_start].
           change (is_space L_backslash) with false. cbn [andb].
           rewrite !Z.eqb_refl.
           specialize (IH (S j) cur tail). try rewrite Eh in IH. cbv iota in IH.
           rewrite IH, repeat_snoc. reflexivity.
      * (* any other character, spaces and tabs included *)
        rewrite andb_false_r.
        cbn [app parse_args arg_start]. rewrite andb_false_r.
        destruct (Z.eqb_spec c L_backslash); [contradiction|].
        destruct (Z.eqb_spec c L_dquote); [contradiction|].
        specialize (IH O (cur ++ repeat L_backslash j ++ [c]) tail).
        replace (if hit a then (2 * 0)%nat else O) with O in IH
          by (destruct (hit a); reflexivity).
        rewrite IH. cbn [repeat app]. rewrite <- !app_assoc. reflexivity.
Qed.

Lemma parse_args_start :
  forall (c : Z) (s : wstring),
    is_space c = false ->
    parse_args (c :: s) None = parse_args (c :: s) (Some (false, O, [])).
Proof.
  intros c s Hc. cbn [parse_args arg_start]. rewrite Hc. reflexivity.
Qed.

(** Outside quotes: an argument without space, tab or double quote
    is read as it is. *)
Lemma parse_plain :
  forall (a : wstring) (bs : nat) (cur tail : wstring),
    wcspbrk a [L_space; L_tab; L_dquote] = false ->
    exists (bs' : nat) (cur' : wstring),
      parse_args (a ++ tail) (Some (false, bs, cur)) =
        parse_args tail (Some (false, bs', cur'))
      /\ cur' ++ repeat L_backslash bs' = cur ++ repeat L_backslash bs ++ a.
Proof.
  intros a. induction a as [|c a IH]; intros bs cur tail Ha.
  - exists bs, cur. rewrite app_nil_r. split; reflexivity.
  - cbn [wcspbrk existsb] in Ha. apply orb_false_elim in Ha.
    destruct Ha as [Hc Ha]. fold (wcspbrk a [L_space; L_tab; L_dquote]) in Ha.
    apply orb_false_elim in Hc. destruct Hc as [Hsp Hc].
    apply orb_false_elim in Hc. destruct Hc as [Htab Hc].
    apply orb_false_elim in Hc. destruct Hc as [Hdq _].
    cbn [app parse_args arg_start]. unfold is_space. rewrite Hsp, Htab, Hdq.
    cbn [orb andb].
    destruct (Z.eqb_spec c L_backslash) as [->|Hb].
    + destruct (IH (S bs) cur tail Ha) as (bs' & cur' & Hrun & Htxt).
      exists bs', cur'. split; [exact Hrun|].
      rewrite Htxt, repeat_snoc. reflexivity.
    + destruct (IH O (cur ++ repeat L_backslash bs ++ [c]) tail Ha)
        as (bs' & cur' & Hrun & Htxt).
      exists bs', cur'. split; [exact Hrun|].
      rewrite Htxt. cbn [repeat app]. rewrite <- !app_assoc. reflexivity.
Qed.

Lemma no_quote_no_backslash_esc :
  forall a : wstring,
    wcspbrk a [L_dquote; L_backslash] = false -> esc a = a.
Proof.
  intros a. induction a as [|c a IH]; intros Ha; [reflexivity|].
  cbn [wcspbrk existsb] in Ha. apply orb_false_elim in Ha.
  destruct Ha as [Hc Ha]. fold (wcspbrk a [L_dquote; L_backslash]) in Ha.
  apply orb_false_elim in Hc. destruct Hc as [Hdq Hc].
  apply orb_false_elim in Hc. destruct Hc as [Hb _].
  cbn [esc]. rewrite Hdq, Hb, andb_false_r, (IH Ha). reflexivity.
Qed.

(** What [quote_cmd_arg] writes for a quoted argument, in one form. *)
Lemma quote_cmd_arg_quoted :
  forall a : wstring,
    a <> [] ->
    wcspbrk a [L_space; L_tab; L_dquote] = true ->
    quote_cmd_arg a = L_dquote :: esc a ++ [L_dquote].
Proof.
  intros a Hne Hq. unfold quote_cmd_arg.
  destruct a as [|c a]; [congruence|]. cbn [length Nat.eqb].
  rewrite Hq. cbn [negb].
  destruct (wcspbrk (c :: a) [L_dquote; L_backslash]) eqn:E; cbn [negb app].
  - rewrite quote_loop_rev. reflexivity.
  - rewrite (no_quote_no_backslash_esc _ E). reflexivity.
Qed.

Lemma quote_cmd_arg_plain :
  forall a : wstring,
    a <> [] ->
    wcspbrk a [L_space; L_tab; L_dquote] = false ->
    quote_cmd_arg a = a.
Proof.
  intros a Hne Hq. unfold quote_cmd_arg.
  destruct a as [|c a]; [congruence|]. cbn [length Nat.eqb].
  rewrite Hq. reflexivity.
Qed.

(** One argument, read back: after its quoted form the parser is
    outside quotes and holds the argument. *)
Lemma parse_quote_cmd_arg :
  forall (a tail : wstring),
    a <> [] ->
    exists st : arg_state,
      parse_args (quote_cmd_arg a ++ tail) None = parse_args tail (Some st)
      /\ fst (fst st) = false
      /\ arg_text st = a.
Proof.
  intros a tail Hne.
  destruct (wcspbrk a [L_space; L_tab; L_dquote]) eqn:Hq.
  - rewrite (quote_cmd_arg_quoted a Hne Hq).
    cbn [app]. rewrite parse_args_start by reflexivity.
    cbn [parse_args arg_start].
    change (is_space L_dquote) with false. cbn [andb].
    change (L_dquote =? L_backslash) with false.
    rewrite Z.eqb_refl. cbn [Nat.even Nat.div2 repeat app negb].
    rewrite <- app_assoc. cbn [app].
    pose proof (parse_quoted a O [] tail) as Hp.
    replace (if hit a then (2 * 0)%nat else O) with O in Hp
      by (destruct (hit a); reflexivity).
    rewrite Hp. eexists. split; [reflexivity|].
    cbn [fst arg_text repeat app]. split; [reflexivity|]. apply app_nil_r.
  - rewrite (quote_cmd_arg_plain a Hne Hq).
    destruct a as [|c a]; [congruence|].
    assert (Hc : is_space c = false).
    { cbn [wcspbrk existsb] in Hq. apply orb_false_elim in Hq.
      destruct Hq as [Hc _].
      apply orb_false_elim in Hc. destruct Hc as [Hsp Hc].
      apply orb_false_elim in Hc. destruct Hc as [Htab _].
      unfold is_space. rewrite Hsp, Htab. reflexivity. }
    cbn [app]. rewrite parse_args_start by exact Hc.
    destruct (parse_plain (c :: a) O [] tail Hq) as (bs' & cur' & Hrun & Htxt).
    cbn [app] in Hrun. rewrite Hrun.
    exists (false, bs', cur'). split; [reflexivity|]. split; [reflexivity|].
    exact Htxt.
Qed.

(** The command line of [ws]: the quoted arguments, one space between
    two of them. *)
Fixpoint join_args (ws : list wstring) : wstring :=
  match ws with
  | [] => []
  | a :: rest =>
      quote_cmd_arg a ++
      match rest with
      | [] => []
      | _ :: _ => L_space :: join_args rest
      end
  end.

Lemma parse_join_args :
  forall ws : list wstring,
    Forall (fun a => a <> []) ws ->
    parse_args (join_args ws) None = ws.
Proof.
  intros ws Hws. induction Hws as [|a rest Ha Hrest IH]; [reflexivity|].
  cbn [join_args].
  destruct (parse_quote_cmd_arg a
              (match rest with [] => [] | _ :: _ => L_space :: join_args rest end)
              Ha) as ([[inq bs] cur] & Hrun & Hinq & Htxt).
  rewrite Hrun. cbn [fst] in Hinq. subst inq.
  destruct rest as [|b rest].
  - cbn [parse_args]. rewrite Htxt. reflexivity.
  - cbn [parse_args arg_start].
    change (is_space L_space) with true. cbn [andb negb].
    rewrite Htxt. f_equal. exact IH.
Qed.

Lemma program_args_loop_join :
  forall (utf16 : string -> option wstring) (args : list string)
         (ws : list wstring),
    Forall2 (fun arg w => utf16 arg = Some w) args ws ->
    args <> [] ->
    program_args_loop utf16 args false = Some (join_args ws ++ [0]).
Proof.
  intros utf16 args ws H. induction H as [|arg w args ws Hw Hrest IH]; intros Hne.
  - congruence.
  - cbn [program_args_loop join_args]. rewrite Hw.
    destruct Hrest as [|arg' w' args' ws' Hw' Hrest'].
    + cbn [program_args_loop option_map]. rewrite app_nil_r. reflexivity.
    + rewrite IH by discriminate. cbn [option_map].
      rewrite <- app_assoc. reflexivity.
Qed.

Lemma wcs_terminated :
  forall s : wstring,
    Forall (fun c => c <> 0) s -> wcs (s ++ [0]) = Some s.
Proof.
  intros s Hs. induction Hs as [|c s Hc Hs IH]; [reflexivity|].
  cbn [app wcs]. destruct (Z.eqb_spec c 0); [contradiction|].
  rewrite IH. reflexivity.
Qed.

Lemma quote_loop_no_null :
  forall (l : wstring) (q : bool),
    Forall (fun c => c <> 0) l -> Forall (fun c => c <> 0) (quote_loop l q).
Proof.
  intros l. induction l as [|c l IH]; intros q Hl; [constructor|].
  inversion Hl; subst. cbn [quote_loop].
  destruct (q && (c =? L_backslash)); [|destruct (c =? L_dquote)];
    repeat constructor; auto; discriminate.
Qed.

Lemma quote_cmd_arg_no_null :
  forall a : wstring,
    Forall (fun c => c <> 0) a -> Forall (fun c => c <> 0) (quote_cmd_arg a).
Proof.
  intros a Ha. unfold quote_cmd_arg.
  destruct (length a =? 0)%nat; [constructor|].
  destruct (negb (wcspbrk a [L_space; L_tab; L_dquote])); [exact Ha|].
  destruct (negb (wcspbrk a [L_dquote; L_backslash])).
  - apply Forall_app. split; [repeat constructor; discriminate|].
    apply Forall_app. split; [exact Ha|repeat constructor; discriminate].
  - apply Forall_app. split; [repeat constructor; discriminate|].
    apply Forall_app. split; [|repeat constructor; discriminate].
    apply Forall_rev. apply quote_loop_no_null. apply Forall_rev. exact Ha.
Qed.

Lemma join_args_no_null :
  forall ws : list wstring,
    Forall (Forall (fun c => c <> 0)) ws ->
    Forall (fun c => c <> 0) (join_args ws).
Proof.
  intros ws Hws. induction Hws as [|a rest Ha Hrest IH]; [constructor|].
  cbn [join_args]. apply Forall_app. split.
  - apply quote_cmd_arg_no_null. exact Ha.
  - destruct rest; [constructor|]. constructor; [discriminate|exact IH].
Qed.

Lemma until_space_plain :
  forall (a tail : wstring),
    wcspbrk a [L_space; L_tab; L_dquote] = false ->
    tail = [] \/ (exists r, tail = L_space :: r) ->
    until_space (a ++ tail) = (a, tail).
Proof.
  intros a tail Ha Ht. induction a as [|c a IH].
  - destruct Ht as [->|(r & ->)]; reflexivity.
  - cbn [wcspbrk existsb] in Ha. apply orb_false_elim in Ha.
    destruct Ha as [Hc Ha]. fold (wcspbrk a [L_space; L_tab; L_dquote]) in Ha.
    apply orb_false_elim in Hc. destruct Hc as [Hsp Hc].
    apply orb_false_elim in Hc. destruct Hc as [Htab _].
    cbn [app until_space]. unfold is_space. rewrite Hsp, Htab. cbn [orb].
    rewrite (IH Ha). reflexivity.
Qed.

Lemma until_quote_plain :
  forall (a tail : wstring),
    ~ In L_dquote a ->
    until_quote (a ++ L_dquote :: tail) = (a, tail).
Proof.
  intros a tail Ha. induction a as [|c a IH].
  - cbn [app until_quote]. rewrite Z.eqb_refl. reflexivity.
  - cbn [app until_quote].
    destruct (Z.eqb_spec c L_dquote) as [->|_]; [exfalso; apply Ha; apply in_eq|].
    rewrite IH; [reflexivity|]. intro H. apply Ha. now right.
Qed.

Lemma hit_last :
  forall r : wstring,
    ~ In L_dquote r -> r <> [] -> hit r = true -> last r 0 = L_backslash.
Proof.
  intros r. induction r as [|c r IH]; intros Hq Hne Hh; [congruence|].
  cbn [hit] in Hh.
  destruct (Z.eqb_spec c L_dquote) as [->|_]; [exfalso; apply Hq; apply in_eq|].
  destruct (Z.eqb_spec c L_backslash) as [->|_]; [|discriminate].
  destruct r as [|c' r]; [reflexivity|].
  change (last (L_backslash :: c' :: r) 0) with (last (c' :: r) 0).
  apply IH; [intro H; apply Hq; now right | discriminate | exact Hh].
Qed.

(** Without a double quote in it and without a backslash at its end,
    an argument is quoted by wrapping it, nothing else. *)
Lemma esc_no_quote :
  forall a : wstring,
    ~ In L_dquote a -> last a 0 <> L_backslash -> esc a = a.
Proof.
  intros a. induction a as [|c a IH]; intros Hq Hl; [reflexivity|].
  cbn [esc].
  destruct (Z.eqb_spec c L_dquote) as [->|_]; [exfalso; apply Hq; apply in_eq|].
  assert (Hq' : ~ In L_dquote a) by (intro H; apply Hq; now right).
  destruct a as [|c' a].
  - cbn [hit esc andb]. cbn [last] in Hl.
    destruct (Z.eqb_spec c L_backslash); [contradiction|reflexivity].
  - change (last (c :: c' :: a) 0) with (last (c' :: a) 0) in Hl.
    rewrite (IH Hq' Hl).
    destruct (hit (c' :: a)) eqn:Eh.
    + exfalso. apply Hl. apply hit_last; [exact Hq' | discriminate | exact Eh].
    + reflexivity.
Qed.

Lemma wcspbrk_without_quote :
  forall a : wstring,
    ~ In L_dquote a ->
    wcspbrk a [L_space; L_tab; L_dquote] = wcspbrk a [L_space; L_tab].
Proof.
  intros a. induction a as [|c a IH]; intros Hq; [reflexivity|].
  change (wcspbrk (c :: a) [L_space; L_tab; L_dquote])
    with (existsb (Z.eqb c) [L_space; L_tab; L_dquote]
          || wcspbrk a [L_space; L_tab; L_dquote]).
  change (wcspbrk (c :: a) [L_space; L_tab])
    with (existsb (Z.eqb c) [L_space; L_tab] || wcspbrk a [L_space; L_tab]).
  rewrite IH by (intro H; apply Hq; now right).
  cbn [existsb].
  destruct (Z.eqb_spec c L_dquote) as [->|_]; [exfalso; apply Hq; apply in_eq|].
  reflexivity.
Qed.

(** C4, as the code has it: for an argument vector that is not empty,
    whose arguments are not empty, and whose first argument (the
    program name, which the parser reads without escapes) has no double
    quote and, when it has a space or a tab, no backslash at its end,
    the command line built without the verbatim flag is a string that
    CommandLineToArgvW splits back into the argument vector. *)
Theorem make_program_args_round_trip :
  forall (utf16 : string -> option wstring) (module_name : wstring)
         (args : list string) (a0 : wstring) (rest : list wstring),
    Forall2 (fun arg w => utf16 arg = Some w) args (a0 :: rest) ->
    Forall (fun w => w <> [] /\ Forall (fun c => c <> 0) w) (a0 :: rest) ->
    ~ In L_dquote a0 ->
    (wcspbrk a0 [L_space; L_tab] = true -> last a0 0 <> L_backslash) ->
    exists buffer cmdline : wstring,
      make_program_args utf16 args false = Some buffer
      /\ wcs buffer = Some cmdline
      /\ CommandLineToArgvW module_name cmdline = a0 :: rest.
Proof.
  intros utf16 module_name args a0 rest Hconv Hws Hq Hl.
  assert (Hne : Forall (fun a : wstring => a <> []) (a0 :: rest)).
  { eapply Forall_impl; [|exact Hws]. intros a [H _]. exact H. }
  assert (Hnn : Forall (Forall (fun c => c <> 0)) (a0 :: rest)).
  { eapply Forall_impl; [|exact Hws]. intros a [_ H]. exact H. }
  exists (join_args (a0 :: rest) ++ [0]), (join_args (a0 :: rest)).
  split.
  { unfold make_program_args. apply program_args_loop_join; [exact Hconv|].
    inversion Hconv. discriminate. }
  split.
  { apply wcs_terminated. apply join_args_no_null. exact Hnn. }
  inversion Hne as [|x l Ha0 Hrest]; subst.
  set (tail := match rest with [] => [] | _ :: _ => L_space :: join_args rest end).
  assert (Htail : parse_args tail None = rest).
  { subst tail. destruct rest as [|b rest']; [reflexivity|].
    cbn [parse_args arg_start]. change (is_space L_space) with true.
    cbn [andb negb]. apply parse_join_args. exact Hrest. }
  assert (Htl : tail = [] \/ exists r, tail = L_space :: r).
  { subst tail. destruct rest; [left; reflexivity | right; eexists; reflexivity]. }
  change (join_args (a0 :: rest)) with (quote_cmd_arg a0 ++ tail).
  destruct (wcspbrk a0 [L_space; L_tab; L_dquote]) eqn:Hsp.
  - (* the program name is wrapped in quotes *)
    rewrite (quote_cmd_arg_quoted a0 Ha0 Hsp).
    rewrite (wcspbrk_without_quote a0 Hq) in Hsp.
    rewrite (esc_no_quote a0 Hq (Hl Hsp)).
    cbn [app CommandLineToArgvW]. rewrite Z.eqb_refl.
    rewrite <- app_assoc. cbn [app].
    rewrite (until_quote_plain a0 tail Hq), Htail. reflexivity.
  - (* the program name goes through as it is *)
    rewrite (quote_cmd_arg_plain a0 Ha0 Hsp).
    destruct a0 as [|c a0']; [congruence|].
    cbn [app CommandLineToArgvW].
    destruct (Z.eqb_spec c L_dquote) as [->|_]; [exfalso; apply Hq; apply in_eq|].
    change (c :: a0' ++ tail) with ((c :: a0') ++ tail).
    rewrite (until_space_plain (c :: a0') tail Hsp Htl), Htail. reflexivity.
Qed.

(** The four arguments of scenario 6; [dq] is the double quote, which
    the third holds between c and d and the fourth after a backslash. *)
Definition dq : string :=
  String.String (Ascii.ascii_of_nat 34) String.EmptyString.

Definition scenario_args : list string :=
  ["prog"; "a b";
   String.append "c" (String.append dq "d");
   String.append "e\" (String.append dq "f")].

Lemma make_program_args_round_trip_witness :
  exists buffer cmdline : wstring,
    make_program_args ascii_utf16 scenario_args false = Some buffer
    /\ wcs buffer = Some cmdline
    /\ CommandLineToArgvW (W "self.exe") cmdline = map W scenario_args.
Proof.
  apply (make_program_args_round_trip ascii_utf16 (W "self.exe") scenario_args
           (W "prog") (map W (tl scenario_args))).
  - repeat constructor.
  - repeat constructor; discriminate.
  - vm_compute. intuition discriminate.
  - intro H. vm_compute in H. discriminate.
Defined.

(** C4 fails for an argument that is empty: nothing is written for it,
    and the child does not see it. *)
Lemma make_program_args_drops_empty_argument :
  exists buffer cmdline : wstring,
    make_program_args ascii_utf16 ["prog"; ""; "x"] false = Some buffer
    /\ wcs buffer = Some cmdline
    /\ cmdline = W "prog  x"
    /\ CommandLineToArgvW (W "self.exe") cmdline = [W "prog"; W "x"]
    /\ CommandLineToArgvW (W "self.exe") cmdline <> map W ["prog"; ""; "x"].
Proof.
  eexists. eexists.
  split; [vm_compute; reflexivity|].
  split; [vm_compute; reflexivity|].
  split; [vm_compute; reflexivity|].
  split; [vm_compute; reflexivity|].
  vm_compute. discriminate.
Qed.

(** The program name is read without escapes: one that holds a double
    quote does not come back either. *)
Example program_name_with_quote_is_cut :
  exists buffer cmdline : wstring,
    make_program_args ascii_utf16
      [String.append "a" (String.append dq "b"); "x"] false = Some buffer
    /\ wcs buffer = Some cmdline
    /\ CommandLineToArgvW (W "self.exe") cmdline = [W "a\"; W "b x"].
Proof.
  eexists. eexists.
  split; [vm_compute; reflexivity|].
  split; [vm_compute; reflexivity|].
  vm_compute. reflexivity.
Qed.


(** A program name with a space in it and a backslash at its end: the
    backslash is doubled for the closing quote, and the parser, which
    reads the program name without escapes, gives both back. *)
Example program_name_with_final_backslash :
  exists buffer cmdline : wstring,
    make_program_args ascii_utf16 ["a b\"; "x"] false = Some buffer
    /\ wcs buffer = Some cmdline
    /\ CommandLineToArgvW (W "self.exe") cmdline = [W "a b\\"; W "x"].
Proof.
  eexists. eexists.
  split; [vm_compute; reflexivity|].
  split; [vm_compute; reflexivity|].
  vm_compute. reflexivity.
Qed.

(** *** The environment block: what it holds *)

Definition matches (r : env_var_t) (var : string) : bool :=
  strnicmp_eq (narrow r) var (len r).

Definition mark (env_block : list string) (r : env_var_t) : env_var_t :=
  if existsb (matches r) env_block then set_supplied r else r.

Definition exclusive (r1 r2 : env_var_t) : Prop :=
  forall var, matches r1 var = true -> matches r2 var = false.

Lemma check_when_none_matches :
  forall (rs : list env_var_t) (var : string),
    Forall (fun r => matches r var = false) rs ->
    check_required_vars_contains_var rs var = rs.
Proof.
  intros rs var H. induction H as [|r rs Hr Hrs IH]; [reflexivity|].
  cbn [check_required_vars_contains_var]. fold (matches r var).
  rewrite Hr, IH. reflexivity.
Qed.

Lemma check_marks :
  forall (rs : list env_var_t) (var : string),
    ForallOrdPairs exclusive rs ->
    check_required_vars_contains_var rs var =
      map (fun r => if matches r var then set_supplied r else r) rs.
Proof.
  intros rs var H. induction H as [|r rs Hr Hrs IH]; [reflexivity|].
  cbn [check_required_vars_contains_var map]. fold (matches r var).
  destruct (matches r var) eqn:E.
  - f_equal. clear IH Hrs. induction Hr as [|r' rs Hx Hr IH]; [reflexivity|].
    cbn [map]. rewrite (Hx var E), <- IH. reflexivity.
  - f_equal. exact IH.
Qed.

Lemma exclusive_map :
  forall (f : env_var_t -> env_var_t) (rs : list env_var_t),
    (forall r, narrow (f r) = narrow r /\ len (f r) = len r) ->
    ForallOrdPairs exclusive rs ->
    ForallOrdPairs exclusive (map f rs).
Proof.
  intros f rs Hf H. induction H as [|r rs Hr Hrs IH]; [constructor|].
  cbn [map]. constructor; [|exact IH].
  clear IH Hrs. induction Hr as [|r' rs Hx Hr IH]; [constructor|].
  cbn [map]. constructor; [|exact IH].
  intros var. unfold matches.
  destruct (Hf r) as [-> ->]. destruct (Hf r') as [-> ->]. apply Hx.
Qed.

Lemma fold_check_marks :
  forall (env_block : list string) (rs : list env_var_t),
    ForallOrdPairs exclusive rs ->
    fold_left check_required_vars_contains_var env_block rs =
      map (mark env_block) rs.
Proof.
  intros env_block. induction env_block as [|var rest IH]; intros rs Hex.
  - cbn [fold_left]. unfold mark. cbn [existsb]. symmetry. apply map_id.
  - cbn [fold_left]. rewrite (check_marks rs var Hex).
    rewrite IH.
    + rewrite map_map. apply map_ext. intros r. unfold mark. cbn [existsb].
      destruct (matches r var) eqn:E.
      * unfold matches in *. cbn [set_supplied narrow len orb].
        destruct (existsb _ rest); reflexivity.
      * cbn [orb]. reflexivity.
    + apply exclusive_map; [|exact Hex].
      intros r. destruct (matches r var); split; reflexivity.
Qed.

Lemma tolower_differs :
  forall (n m : N) (c : Ascii.ascii),
    (n =? tolower c)%N = true -> (m =? n)%N = false ->
    (m =? tolower c)%N = false.
Proof.
  intros n m c H1 H2. apply N.eqb_eq in H1. rewrite <- H1. exact H2.
Qed.

Lemma required_vars_exclusive : ForallOrdPairs exclusive required_vars.
Proof.
  unfold required_vars.
  repeat constructor; intros var; unfold matches; cbn [narrow len E_V];
    intros H; cbn [String.append String.length] in *.
  - (* SYSTEMROOT= and SYSTEMDRIVE= differ at their seventh letter *)
    do 6 (destruct var as [|? var]; [discriminate|];
          cbn [strnicmp_eq] in H |- *;
          apply andb_prop in H; destruct H as [Hc H];
          rewrite Hc; cbn [andb]; clear Hc).
    destruct var as [|? var]; [discriminate|].
    cbn [strnicmp_eq] in H |- *.
    apply andb_prop in H. destruct H as [Hc H].
    apply andb_false_intro1.
    eapply tolower_differs; [exact Hc | vm_compute; reflexivity].
  - destruct var as [|? var]; [discriminate|].
    cbn [strnicmp_eq] in H |- *.
    apply andb_prop in H. destruct H as [Hc H].
    apply andb_false_intro1.
    eapply tolower_differs; [exact Hc | vm_compute; reflexivity].
  - destruct var as [|? var]; [discriminate|].
    cbn [strnicmp_eq] in H |- *.
    apply andb_prop in H. destruct H as [Hc H].
    apply andb_false_intro1.
    eapply tolower_differs; [exact Hc | vm_compute; reflexivity].
Qed.

Definition required_names : list string := ["SYSTEMROOT"; "SYSTEMDRIVE"; "TEMP"].

(** Whether the caller's vector names the variable: some string of it
    starts with NAME=, letter case aside. *)
Definition supplied_by (env_block : list string) (name : string) : bool :=
  existsb
    (fun var => strnicmp_eq (String.append name "=") var
                            (S (String.length name)))
    env_block.

(** The entries added for the required variables: one NAME=value, with
    the value of the current process, for each that the caller's vector
    does not name, and none for the others. *)
Definition injected (penv : wstring -> option wstring)
    (env_block : list string) : list wstring :=
  flat_map
    (fun name =>
       if supplied_by env_block name then []
       else match penv (W name) with
            | Some v => [W name ++ L_equals :: v]
            | None => []
            end)
    required_names.

(** A block: every entry followed by a null, and one more null. *)
Definition block_of (entries : list wstring) : list Z :=
  concat (map (fun e => e ++ [0]) entries) ++ [0].

(** The entries of a block, read the way the child reads them. *)
Fixpoint read_entry (b : list Z) : wstring * list Z :=
  match b with
  | [] => ([], [])
  | c :: rest =>
      if c =? 0 then ([], rest)
      else let '(e, after) := read_entry rest in (c :: e, after)
  end.

Fixpoint block_entries (fuel : nat) (b : list Z) : list wstring :=
  match fuel with
  | O => []
  | S fuel' =>
      match read_entry b with
      | ([], _) => []
      | (e, after) => e :: block_entries fuel' after
      end
  end.

(** Whether an entry of the block is for the variable [name]. *)
Fixpoint wprefix_ci (p e : wstring) : bool :=
  match p, e with
  | [], _ => true
  | a :: p', b :: e' =>
      let low (c : Z) := if (65 <=? c) && (c <=? 90) then c + 32 else c in
      (low a =? low b) && wprefix_ci p' e'
  | _ :: _, [] => false
  end.

Definition names_var (name : string) (e : wstring) : bool :=
  wprefix_ci (W name ++ [L_equals]) e.

Lemma copy_env_converted :
  forall (utf16 : string -> option wstring) (env_block : list string)
         (ws : list wstring),
    Forall2 (fun e w => utf16 e = Some w) env_block ws ->
    copy_env utf16 env_block = Some (concat (map (fun w => w ++ [0]) ws)).
Proof.
  intros utf16 env_block ws H. induction H as [|e w es ws Hw Hrest IH].
  - reflexivity.
  - cbn [copy_env map concat]. rewrite Hw, IH. reflexivity.
Qed.

Lemma mark_required :
  forall (env_block : list string) (name : string),
    mark env_block (E_V name) =
      if supplied_by env_block name then set_supplied (E_V name) else E_V name.
Proof. reflexivity. Qed.

(** C5, as the code has it: when the conversions succeed and the
    current process has a value that is not empty for each required
    variable the caller left out, the call is fatal when malloc fails,
    and otherwise the block is: every string of the
    caller, in order, each with its null; then NAME=value with the
    value of the current process for each of SYSTEMROOT, SYSTEMDRIVE
    and TEMP that no string of the caller names (compared on the NAME=
    prefix, letter case aside), once each and in this order; then one
    more null.  A required variable that the caller names is not added:
    it is in the block as often as the caller gave it. *)
Theorem make_program_env_block :
  forall (utf16 : string -> option wstring) (penv : wstring -> option wstring)
         (env_block : list string) (ws : list wstring),
    Forall2 (fun e w => utf16 e = Some w) env_block ws ->
    (forall name, In name required_names ->
                  supplied_by env_block name = false ->
                  exists v, penv (W name) = Some v /\ v <> []) ->
    forall malloc_ok : bool,
      make_program_env utf16 penv env_block malloc_ok =
        if malloc_ok
        then EnvBlock (block_of (ws ++ injected penv env_block))
        else EnvFatal.
Proof.
  intros utf16 penv env_block ws Hconv Hpenv malloc_ok.
  unfold make_program_env.
  rewrite (fold_check_marks env_block required_vars required_vars_exclusive).
  rewrite (copy_env_converted utf16 env_block ws Hconv).
  unfold required_vars. cbn [map]. rewrite !mark_required.
  unfold block_of, injected, required_names. cbn [flat_map].
  rewrite map_app, concat_app.
  assert (Hnz : forall v : wstring, v <> [] ->
            (Z.of_nat (length v) + 1 =? 0) = false
            /\ (Z.of_nat (length v) =? 0) = false).
  { intros v Hv. destruct v; [congruence|]. cbn [length]. split;
      [apply Z.eqb_neq|apply Z.eqb_neq]; lia. }
  pose proof (Hpenv "SYSTEMROOT" ltac:(simpl; auto)) as H1.
  pose proof (Hpenv "SYSTEMDRIVE" ltac:(simpl; auto)) as H2.
  pose proof (Hpenv "TEMP" ltac:(simpl; auto)) as H3.
  destruct (supplied_by env_block "SYSTEMROOT");
    destruct (supplied_by env_block "SYSTEMDRIVE");
    destruct (supplied_by env_block "TEMP");
    try (destruct (H1 eq_refl) as (v1 & E1 & N1);
         destruct (Hnz v1 N1) as [Z1 Z1']);
    try (destruct (H2 eq_refl) as (v2 & E2 & N2);
         destruct (Hnz v2 N2) as [Z2 Z2']);
    try (destruct (H3 eq_refl) as (v3 & E3 & N3);
         destruct (Hnz v3 N3) as [Z3 Z3']);
    cbn [size_required copy_required supplied set_supplied set_value_len
         E_V wide option_map];
    unfold env_size, env_copy;
    rewrite ?E1, ?E2, ?E3, ?Z1, ?Z2, ?Z3;
    cbn [size_required copy_required supplied set_supplied set_value_len
         E_V wide option_map];
    (destruct malloc_ok; cbn [negb]; [|reflexivity]);
    cbn [size_required copy_required supplied set_supplied set_value_len
         E_V wide option_map];
    unfold env_size, env_copy;
    rewrite ?E1, ?E2, ?E3, ?Z1', ?Z2', ?Z3';
    cbn [option_map map concat app];
    rewrite <- ?app_assoc; cbn [app]; rewrite ?app_nil_r;
    rewrite <- ?app_assoc; reflexivity.
Qed.

(** A process environment with the three variables set. *)
Definition wstring_eqb (a b : wstring) : bool :=
  if list_eq_dec Z.eq_dec a b then true else false.

Definition sample_penv (name : wstring) : option wstring :=
  if wstring_eqb name (W "SYSTEMROOT") then Some (W "C:\Windows")
  else if wstring_eqb name (W "SYSTEMDRIVE") then Some (W "C:")
  else if wstring_eqb name (W "TEMP") then Some (W "C:\Temp")
  else None.

Lemma make_program_env_block_witness :
  make_program_env ascii_utf16 sample_penv ["PATH=C:\bin"; "temp=D:\t"] true =
    EnvBlock (block_of [W "PATH=C:\bin"; W "temp=D:\t";
                        W "SYSTEMROOT=C:\Windows"; W "SYSTEMDRIVE=C:"]).
Proof.
  refine (make_program_env_block ascii_utf16 sample_penv
            ["PATH=C:\bin"; "temp=D:\t"] [W "PATH=C:\bin"; W "temp=D:\t"]
            _ _ true).
  - repeat constructor.
  - intros name [<-|[<-|[<-|[]]]] Hs.
    + eexists. split; [vm_compute; reflexivity | discriminate].
    + eexists. split; [vm_compute; reflexivity | discriminate].
    + vm_compute in Hs. discriminate.
Defined.

(** C5 fails for a caller that gives a required variable twice: both
    strings are in the block, so the variable is there twice. *)
Lemma make_program_env_keeps_repeated_variable :
  exists block : list Z,
    make_program_env ascii_utf16 sample_penv ["TEMP=a"; "temp=b"] true =
      EnvBlock block
    /\ block_entries (length block) block =
         [W "TEMP=a"; W "temp=b";
          W "SYSTEMROOT=C:\Windows"; W "SYSTEMDRIVE=C:"]
    /\ length (filter (names_var "TEMP")
                 (block_entries (length block) block)) = 2%nat
    /\ length (filter (names_var "TEMP")
                 (block_entries (length block) block)) <> 1%nat.
Proof.
  eexists. split; [vm_compute; reflexivity|].
  split; [vm_compute; reflexivity|].
  split; [vm_compute; reflexivity|].
  vm_compute. discriminate.
Qed.

(** A required variable that neither the caller nor the current
    process has is a fatal error, and so is one whose value in the
    current process is empty, and so is a failure of malloc. *)
Example make_program_env_fatal :
  make_program_env ascii_utf16 (fun _ => None) ["PATH=C:\bin"] true = EnvFatal
  /\ make_program_env ascii_utf16
       (fun name => if wstring_eqb name (W "TEMP") then Some []
                    else sample_penv name)
       ["PATH=C:\bin"] true = EnvFatal
  /\ make_program_env ascii_utf16 sample_penv ["PATH=C:\bin"] false
     = EnvFatal.
Proof. repeat split; vm_compute; reflexivity. Qed.

(** *** Path search: the directories tried, in order *)

(** The slices of PATH: the texts between semicolons. *)
Fixpoint entries (s : wstring) : list wstring :=
  match s with
  | [] => [[]]
  | c :: rest =>
      if c =? L_semicolon then [] :: entries rest
      else match entries rest with
           | e :: es => (c :: e) :: es
           | [] => [[c]]
           end
  end.

(** What the code makes of a slice: a quote character at its start is
    dropped, and a quote character at its end is dropped; the two are
    looked at one without the other. *)
Definition trim_quotes (e : wstring) : wstring :=
  let e1 := match e with
            | c :: r => if is_quote c then r else e
            | [] => []
            end in
  if is_quote (last e 0) then removelast e1 else e1.

Definition path_dirs (path : wstring) : list wstring :=
  map trim_quotes
      (filter (fun e => negb (length e =? 0)%nat) (entries path)).

Section SearchOrder.

Variable GetFileAttributesW : wstring -> option Z.
Variables file cwd : wstring.
Variable name_has_ext : bool.

Definition try_dir (d : wstring) : search_result :=
  path_search_walk_ext GetFileAttributesW d (Z.of_nat (length d))
    file cwd name_has_ext.

(** The first directory of the list in which the file is found. *)
Fixpoint first_match (dirs : list wstring) : search_result :=
  match dirs with
  | [] => NotFound
  | d :: rest => or_else (try_dir d) (first_match rest)
  end.

Lemma slice_spec :
  forall (s e after : wstring),
    slice s = (e, after) ->
    s = e ++ after
    /\ Forall (fun c => c <> L_semicolon) e
    /\ (after = [] \/ exists r, after = L_semicolon :: r)
    /\ entries s = e :: match after with
                        | [] => []
                        | _ :: r => entries r
                        end.
Proof.
  intros s. induction s as [|c s IH]; intros e after H.
  - inversion H. subst. repeat split; auto.
  - cbn [slice] in H. destruct (Z.eqb_spec c L_semicolon) as [->|Hc].
    + inversion H. subst. cbn [entries]. rewrite Z.eqb_refl.
      repeat split; eauto.
    + destruct (slice s) as [e' after'] eqn:Es. inversion H. subst.
      destruct (IH _ _ eq_refl) as (H1 & H2 & H3 & H4).
      cbn [entries]. destruct (Z.eqb_spec c L_semicolon); [contradiction|].
      rewrite H4. repeat split; auto.
      cbn [app]. f_equal. exact H1.
Qed.

Lemma nth_pred_length :
  forall (l : wstring) (d : Z), nth (pred (length l)) l d = last l d.
Proof.
  intros l d. induction l as [|a l IH]; [reflexivity|].
  destruct l as [|b l]; [reflexivity|].
  change (last (a :: b :: l) d) with (last (b :: l) d). rewrite <- IH.
  reflexivity.
Qed.

Lemma removelast_firstn_pred :
  forall l : wstring, firstn (pred (length l)) l = removelast l.
Proof.
  intros l. induction l as [|a l IH]; [reflexivity|].
  destruct l as [|b l]; [reflexivity|].
  change (removelast (a :: b :: l)) with (a :: removelast (b :: l)).
  rewrite <- IH. reflexivity.
Qed.

Lemma length_removelast_pred :
  forall l : wstring, length (removelast l) = pred (length l).
Proof.
  intros l. rewrite <- removelast_firstn_pred, length_firstn. lia.
Qed.

(** For a slice that is not a quote character alone, the adjusted
    pointer and length delimit [trim_quotes] of the slice. *)
Lemma adjust_quoted_trim :
  forall e : wstring,
    e <> [] -> e <> [L_dquote] -> e <> [L_squote] ->
    snd (adjust_quoted e) = Z.of_nat (length (trim_quotes e))
    /\ firstn (length (trim_quotes e)) (fst (adjust_quoted e)) = trim_quotes e.
Proof.
  intros e Hne Hd Hs. destruct e as [|c r]; [congruence|].
  unfold adjust_quoted, trim_quotes. change (nth 0 (c :: r) 0) with c.
  destruct (is_quote c) eqn:Eq.
  - assert (Hr : r <> []).
    { intros ->. unfold is_quote in Eq. apply orb_prop in Eq.
      destruct Eq as [E|E]; apply Z.eqb_eq in E; subst c; congruence. }
    replace (Z.to_nat (Z.of_nat 1 + (Z.of_nat (length (c :: r)) - 1) - 1))
      with (pred (length (c :: r))) by (cbn [length]; lia).
    rewrite nth_pred_length.
    destruct (is_quote (last (c :: r) 0)); cbn [fst snd skipn].
    + rewrite length_removelast_pred, removelast_firstn_pred.
      split; [|reflexivity].
      destruct r; [congruence|]. cbn [length]. lia.
    + rewrite firstn_all. split; [|reflexivity]. cbn [length]. lia.
  - replace (Z.to_nat (Z.of_nat 0 + Z.of_nat (length (c :: r)) - 1))
      with (pred (length (c :: r))) by (cbn [length]; lia).
    rewrite nth_pred_length.
    destruct (is_quote (last (c :: r) 0)); cbn [fst snd skipn].
    + rewrite length_removelast_pred, removelast_firstn_pred.
      split; [|reflexivity]. cbn [length]. lia.
    + rewrite firstn_all. split; [|reflexivity]. cbn [length]. lia.
Qed.

Lemma join_test_firstn :
  forall (dir : wstring) (n : nat) (name ext : wstring),
    search_path_join_test GetFileAttributesW dir (Z.of_nat n) name ext cwd =
    search_path_join_test GetFileAttributesW (firstn n dir) (Z.of_nat n)
      name ext cwd.
Proof.
  intros dir n name ext. unfold search_path_join_test.
  rewrite Nat2Z.id, firstn_firstn, Nat.min_id. reflexivity.
Qed.

Lemma walk_ext_firstn :
  forall (dir : wstring) (n : nat),
    path_search_walk_ext GetFileAttributesW dir (Z.of_nat n) file cwd
      name_has_ext =
    path_search_walk_ext GetFileAttributesW (firstn n dir) (Z.of_nat n)
      file cwd name_has_ext.
Proof.
  intros dir n. unfold path_search_walk_ext.
  rewrite !(join_test_firstn dir n). reflexivity.
Qed.

Lemma walk_adjusted :
  forall e : wstring,
    e <> [] -> e <> [L_dquote] -> e <> [L_squote] ->
    path_search_walk_ext GetFileAttributesW (fst (adjust_quoted e))
      (snd (adjust_quoted e)) file cwd name_has_ext =
    try_dir (trim_quotes e).
Proof.
  intros e H1 H2 H3. destruct (adjust_quoted_trim e H1 H2 H3) as [Hl Hf].
  unfold try_dir. rewrite Hl, walk_ext_firstn, Hf. reflexivity.
Qed.

Lemma or_else_NotFound : forall r, or_else r NotFound = r.
Proof. intros []; reflexivity. Qed.

Definition well_quoted (e : wstring) : Prop :=
  e <> [L_dquote] /\ e <> [L_squote].

(** The loop, once the pointer has left the start of PATH and stands
    on a semicolon. *)
Lemma path_loop_after_start :
  forall (fuel : nat) (s : wstring),
    (length s + 2 <= fuel)%nat ->
    Forall well_quoted (entries s) ->
    path_loop GetFileAttributesW fuel file cwd name_has_ext false
      (L_semicolon :: s) = Some (first_match (path_dirs s)).
Proof.
  intros fuel. induction fuel as [|fuel IH]; intros s Hf Hq; [lia|].
  cbn [path_loop].
  destruct (slice s) as [e after] eqn:Es.
  destruct (slice_spec _ _ _ Es) as (Hs & _ & Hafter & Hent).
  assert (Hlen : length s = (length e + length after)%nat)
    by (rewrite Hs, length_app; reflexivity).
  unfold path_dirs. rewrite Hent. rewrite Hent in Hq.
  inversion Hq as [|x l Hqe Hql]; subst x l.
  assert (Hnext :
            path_loop GetFileAttributesW fuel file cwd name_has_ext false after =
            Some (first_match
                    (map trim_quotes
                       (filter (fun e0 => negb (length e0 =? 0)%nat)
                          (match after with [] => [] | _ :: r => entries r end))))).
  { destruct Hafter as [->|(r & ->)].
    - destruct fuel; [lia|]. reflexivity.
    - apply IH; [cbn [length] in Hlen; lia | exact Hql]. }
  cbn [filter].
  destruct e as [|c e'].
  - cbn [length Nat.eqb negb]. exact Hnext.
  - cbn [length Nat.eqb negb map first_match].
    destruct Hqe as [Hq1 Hq2].
    pose proof (walk_adjusted (c :: e') ltac:(discriminate) Hq1 Hq2) as Hw.
    destruct (adjust_quoted (c :: e')) as [dp dl]. cbn [fst snd] in Hw.
    rewrite Hw. destruct (try_dir (trim_quotes (c :: e'))); cbn [or_else];
      [reflexivity | exact Hnext | reflexivity].
Qed.

End SearchOrder.

Lemma name_start_no_sep :
  forall l : wstring,
    Forall (fun c => is_file_sep c = false) l -> name_start l = (l, []).
Proof.
  intros l H. induction H as [|c l Hc Hl IH]; [reflexivity|].
  cbn [name_start]. rewrite Hc, IH. reflexivity.
Qed.

(** C8, as the code has it: for a file name without a directory part,
    and a PATH that does not start with a semicolon and has no slice
    that is a quote character alone, the search ends and its answer is
    the first hit among: the current directory, then the slices of
    PATH between semicolons, in order, the empty ones left out, each
    without a quote character at its start and without a quote
    character at its end, whether or not the two match. *)
Theorem search_path_tries_in_order :
  forall (GetFileAttributesW : wstring -> option Z)
         (file cwd path : wstring) (fuel : nat),
    file <> [] -> file <> [L_dot] ->
    Forall (fun c => is_file_sep c = false) file ->
    hd 0 path <> L_semicolon ->
    Forall well_quoted (entries path) ->
    (length path + 2 <= fuel)%nat ->
    search_path GetFileAttributesW fuel file cwd path =
      Some (first_match GetFileAttributesW file cwd (has_ext file)
              ([] :: path_dirs path)).
Proof.
  intros attrs file cwd path fuel Hne Hdot Hsep Hsemi Hq Hfuel.
  unfold search_path.
  assert (H0 : (length file =? 0)%nat = false).
  { destruct file; [congruence | reflexivity]. }
  assert (H1 : ((length file =? 1)%nat && (nth 0 file 0 =? L_dot)) = false).
  { destruct file as [|c [|c' f]]; try reflexivity.
    cbn [length Nat.eqb nth andb].
    destruct (Z.eqb_spec c L_dot); [subst; congruence | reflexivity]. }
  rewrite H0, H1. cbn [orb].
  rewrite name_start_no_sep by (apply Forall_rev; exact Hsep).
  rewrite rev_involutive. cbn [rev length Nat.eqb negb].
  cbn [first_match]. unfold try_dir at 1. cbn [length Z.of_nat].
  destruct (path_search_walk_ext attrs [] 0 file cwd (has_ext file));
    cbn [or_else]; try reflexivity.
  destruct path as [|c p].
  - destruct fuel; [cbn in Hfuel; lia|]. reflexivity.
  - cbn [hd] in Hsemi.
    rewrite <- (path_loop_after_start attrs file cwd (has_ext file) fuel (c :: p))
      by assumption.
    destruct fuel; [reflexivity|].
    cbn [path_loop slice].
    destruct (Z.eqb_spec c L_semicolon); [contradiction|].
    destruct (slice p) as [e after]. cbn [length Nat.eqb]. reflexivity.
Qed.

(** A file system with one program, C:\bin\app.exe. *)
Definition one_program (p : wstring) : option Z :=
  if wstring_eqb p (W "C:\bin\app.exe") then Some 32 else None.

Lemma search_path_tries_in_order_witness :
  search_path one_program 20 (W "app") (W "D:\work") (W "C:\x;;'C:\bin'") =
    Some (Found (W "C:\bin\app.exe")).
Proof.
  rewrite (search_path_tries_in_order one_program
             (W "app") (W "D:\work") (W "C:\x;;'C:\bin'") 20).
  - vm_compute. reflexivity.
  - discriminate.
  - discriminate.
  - repeat constructor.
  - vm_compute. discriminate.
  - vm_compute. repeat constructor; discriminate.
  - vm_compute. lia.
Defined.

(** The trimming the specification describes: a quote at the start and the
    same quote at the end go together, or nothing goes. *)
Definition trim_matched (e : wstring) : wstring :=
  match e with
  | c :: r =>
      if is_quote c && negb (length r =? 0)%nat && (last r 0 =? c)
      then removelast r else e
  | [] => []
  end.

Definition matched_dirs (path : wstring) : list wstring :=
  map trim_matched
      (filter (fun e => negb (length e =? 0)%nat) (entries path)).

(** C8 fails for a slice with a quote at its start only: the code
    drops the quote and finds the program in C:\bin, while a search
    that leaves such a quote in place finds nothing. *)
Lemma search_path_trims_unmatched_quote :
  search_path one_program 20 (W "app") (W "D:\work") (W "'C:\bin") =
    Some (Found (W "C:\bin\app.exe"))
  /\ first_match one_program (W "app") (W "D:\work") (has_ext (W "app"))
       ([] :: matched_dirs (W "'C:\bin")) = NotFound
  /\ search_path one_program 20 (W "app") (W "D:\work") (W "'C:\bin") <>
     Some (first_match one_program (W "app") (W "D:\work") (has_ext (W "app"))
             ([] :: matched_dirs (W "'C:\bin"))).
Proof.
  split; [vm_compute; reflexivity|].
  split; [vm_compute; reflexivity|].
  vm_compute. discriminate.
Qed.

(** A PATH that starts with a semicolon: when the current directory
    does not have the file, the loop never moves off the first
    character, whatever the number of iterations allowed. *)
Lemma path_loop_stuck_at_start :
  forall (GetFileAttributesW : wstring -> option Z) (file cwd r : wstring)
         (ext : bool) (fuel : nat),
    path_loop GetFileAttributesW fuel file cwd ext true (L_semicolon :: r) =
      None.
Proof.
  intros attrs file cwd r ext fuel. induction fuel as [|fuel IH]; [reflexivity|].
  cbn [path_loop slice]. rewrite Z.eqb_refl. cbn [length Nat.eqb]. exact IH.
Qed.

Example search_path_leading_semicolon :
  forall fuel : nat,
    search_path one_program fuel (W "app") (W "D:\work") (W ";C:\bin") = None.
Proof.
  intro fuel. unfold search_path.
  change (W ";C:\bin") with (L_semicolon :: W "C:\bin").
  vm_compute (length (W "app") =? 0)%nat.
  vm_compute ((length (W "app") =? 1)%nat && (nth 0 (W "app") 0 =? L_dot)).
  cbn [orb].
  vm_compute (name_start (rev (W "app"))).
  vm_compute (negb (length (rev []) =? 0)%nat).
  cbv iota.
  vm_compute (path_search_walk_ext one_program [] 0 (W "app") (W "D:\work")
                (has_ext (rev (rev (W "app"))))).
  apply path_loop_stuck_at_start.
Qed.

(** A slice that is one quote character: both adjustments apply and the
    length handed on is -1. *)
Example search_path_lone_quote :
  adjust_quoted [L_squote] = ([], -1)
  /\ search_path one_program 20 (W "app") (W "D:\work") (W "'") =
       Some Undefined.
Proof. split; vm_compute; reflexivity. Qed.

(** *** Child stdio: the first three slots *)

(** With no stdio entry at all the buffer has three slots, all on NUL:
    slot 0 opened for reading, slots 1 and 2 for writing. *)
Lemma init_child_stdio_no_stdio :
  forall nul_ok : Z -> bool,
    nul_ok 0 = true -> nul_ok 1 = true -> nul_ok 2 = true ->
    init_child_stdio nul_ok [] =
      Some [(Z.lor FOPEN FDEV, NUL FILE_GENERIC_READ);
            (Z.lor FOPEN FDEV, NUL FILE_GENERIC_WRITE_and_READ_ATTRIBUTES);
            (Z.lor FOPEN FDEV, NUL FILE_GENERIC_WRITE_and_READ_ATTRIBUTES)].
Proof.
  intros nul_ok H0 H1 H2. unfold init_child_stdio.
  cbn [length Nat.ltb Nat.leb app repeat Nat.sub init_slots].
  change (0 <=? 2) with true. change (0 =? 0) with true.
  change (0 + 1) with 1. change (1 <=? 2) with true. change (1 =? 0) with false.
  change (1 + 1) with 2. change (2 <=? 2) with true. change (2 =? 0) with false.
  cbv iota. rewrite H0, H1, H2. reflexivity.
Qed.

Lemma init_slots_length :
  forall (nul_ok : Z -> bool) (fdopts : list uv_stdio_container_t) (i : Z)
         (buffer : child_stdio_buffer_t),
    init_slots nul_ok i fdopts = Some buffer ->
    length buffer = length fdopts.
Proof.
  intros nul_ok fdopts.
  induction fdopts as [|fdopt rest IH]; intros i buffer H.
  - inversion H. reflexivity.
  - cbn [init_slots] in H.
    match type of H with
    | match ?slot with _ => _ end = _ => destruct slot as [s|]
    end; [|discriminate].
    destruct (init_slots nul_ok (i + 1) rest) as [b|] eqn:E; [|discriminate].
    inversion H. subst. cbn [length]. f_equal. exact (IH _ _ E).
Qed.

(** With fewer than three stdio entries the buffer still has three
    slots. *)
Lemma init_child_stdio_three_slots :
  forall (nul_ok : Z -> bool) (stdio : list uv_stdio_container_t)
         (buffer : child_stdio_buffer_t),
    (length stdio < 3)%nat ->
    init_child_stdio nul_ok stdio = Some buffer ->
    length buffer = 3%nat.
Proof.
  intros nul_ok stdio buffer Hlen H. unfold init_child_stdio in H.
  destruct (255 <? length stdio)%nat; [discriminate|].
  apply init_slots_length in H. rewrite H, length_app, repeat_length. lia.
Qed.

(** *** Spawn and exit on Windows *)


Lemma as_int_small :
  forall code : Z, 0 <= code < 2 ^ 31 -> as_int code = code.
Proof.
  intros code H. unfold as_int.
  rewrite Z.mod_small by lia.
  destruct (Z.ltb_spec code (2 ^ 31)); [reflexivity | lia].
Qed.

Lemma as_int_range :
  forall dword : Z,
    - 2 ^ 31 <= as_int dword < 2 ^ 31
    /\ (as_int dword - dword) mod 2 ^ 32 = 0.
Proof.
  intro dword. unfold as_int.
  pose proof (Z.mod_pos_bound dword (2 ^ 32) ltac:(lia)) as Hb.
  pose proof (Z.div_mod dword (2 ^ 32) ltac:(lia)) as Hd.
  destruct (Z.ltb_spec (dword mod 2 ^ 32) (2 ^ 31)).
  - split; [lia|].
    replace (dword mod 2 ^ 32 - dword)
      with (- (dword / 2 ^ 32) * 2 ^ 32) by lia.
    apply Z.mod_mul. lia.
  - split; [lia|].
    replace (dword mod 2 ^ 32 - 2 ^ 32 - dword)
      with ((- (dword / 2 ^ 32) - 1) * 2 ^ 32) by lia.
    apply Z.mod_mul. lia.
Qed.

(** The exit code of a process ended by an access violation,
    0xC0000005, reaches the callback as a negative number. *)
Example as_int_wraps : as_int 3221225477 = -1073741819.
Proof. reflexivity. Qed.

(** When the part of spawn before CreateProcessW is done: every malloc
    gives its buffer, the file name and the working directory are had,
    the environment block is not fatal, the search returns and the
    stdio buffer is set up.  CreateProcessW is then given the file the
    search found, or the file name itself when it found none; a command
    line or an environment that did not convert is passed as NULL. *)
Lemma spawn_setup_done :
  forall (fuel : nat) (options : uv_process_options_t) (w : spawn_world)
         (application cwd : wstring) (found : search_result)
         (buffer : child_stdio_buffer_t),
    malloc_application w = true ->
    to_utf16 w (opt_file options) = Some application ->
    (opt_args options <> None -> malloc_arguments w = true) ->
    (forall env_block,
        opt_env options = Some env_block ->
        make_program_env (to_utf16 w) (process_env w) env_block (malloc_env w)
        <> EnvFatal) ->
    malloc_cwd w = true ->
    match opt_cwd options with
    | Some dir => to_utf16 w dir = Some cwd
    | None => current_directory w = Some cwd
    end ->
    malloc_path w = true ->
    search_path (file_attributes w) fuel application cwd
      (match process_env w (W "PATH") with Some value => value | None => [] end)
    = Some found ->
    found <> Undefined ->
    malloc_stdio w = true ->
    init_child_stdio (nul_opens w) (opt_stdio options) = Some buffer ->
    spawn_setup fuel options w =
      Some (SetupDone
              (match found with Found result => result | _ => application end)
              (match opt_args options with
               | Some args =>
                   make_program_args (to_utf16 w) args
                     (opt_verbatim_arguments options)
               | None => None
               end)
              (match opt_env options with
               | Some env_block =>
                   match make_program_env (to_utf16 w) (process_env w)
                           env_block (malloc_env w) with
                   | EnvBlock block => Some block
                   | _ => None
                   end
               | None => None
               end)
              cwd buffer).
Proof.
  intros fuel options w application cwd found buffer
    Hma Hfile Hargs Henv Hmc Hcwd Hmp Hsearch Hdef Hms Hstdio.
  unfold spawn_setup. rewrite Hma, Hfile. cbn [negb].
  destruct (opt_args options) as [args|].
  - rewrite (Hargs ltac:(discriminate)). cbn [negb].
    destruct (opt_env options) as [env_block|].
    + specialize (Henv env_block eq_refl).
      destruct (make_program_env (to_utf16 w) (process_env w) env_block
                  (malloc_env w)); [congruence| |];
        (destruct (opt_cwd options) as [dir|];
         rewrite Hmc, ?Hcwd; cbn [negb]; rewrite Hmp; cbn [negb];
         rewrite Hsearch; destruct found; try congruence;
         rewrite Hms; cbn [negb]; rewrite Hstdio; reflexivity).
    + destruct (opt_cwd options) as [dir|];
        rewrite ?Hmc, ?Hcwd; cbn [negb]; rewrite ?Hmc, Hmp; cbn [negb];
        rewrite Hsearch; destruct found; try congruence;
        rewrite Hms; cbn [negb]; rewrite Hstdio; reflexivity.
  - destruct (opt_env options) as [env_block|].
    + specialize (Henv env_block eq_refl).
      destruct (make_program_env (to_utf16 w) (process_env w) env_block
                  (malloc_env w)); [congruence| |];
        (destruct (opt_cwd options) as [dir|];
         rewrite ?Hmc, ?Hcwd; cbn [negb]; rewrite ?Hmc, Hmp; cbn [negb];
         rewrite Hsearch; destruct found; try congruence;
         rewrite Hms; cbn [negb]; rewrite Hstdio; reflexivity).
    + destruct (opt_cwd options) as [dir|];
        rewrite ?Hmc, ?Hcwd; cbn [negb]; rewrite ?Hmc, Hmp; cbn [negb];
        rewrite Hsearch; destruct found; try congruence;
        rewrite Hms; cbn [negb]; rewrite Hstdio; reflexivity.
Qed.


(** A handle that is closing when the completion arrives gets no exit
    callback. *)
Lemma proc_exit_closing :
  forall (handle : uv_process_t) (exit_code_res : option Z),
    closing handle = true ->
    uv_process_proc_exit handle exit_code_res = (handle, []).
Proof. intros handle res H. unfold uv_process_proc_exit. now rewrite H. Qed.

(** *** The command line fits its buffer *)

Lemma quote_loop_length :
  forall (rsource : wstring) (quote_hit : bool),
    (length (quote_loop rsource quote_hit) <= 2 * length rsource)%nat.
Proof.
  induction rsource as [|c rest IH]; intro q; [cbn; lia|].
  cbn [quote_loop].
  destruct (q && (c =? L_backslash)); [cbn [length]; specialize (IH q); lia|].
  destruct (c =? L_dquote); cbn [length];
    [specialize (IH true) | specialize (IH false)]; lia.
Qed.

Lemma quote_cmd_arg_length :
  forall source : wstring,
    (length (quote_cmd_arg source) <= 2 * length source + 2)%nat.
Proof.
  intro source. unfold quote_cmd_arg.
  destruct (length source =? 0)%nat; [cbn; lia|].
  destruct (negb (wcspbrk source [L_space; L_tab; L_dquote])); [lia|].
  destruct (negb (wcspbrk source [L_dquote; L_backslash])).
  - rewrite !length_app. cbn [length]. lia.
  - rewrite !length_app, length_rev. cbn [length].
    pose proof (quote_loop_length (rev source) true) as H.
    rewrite length_rev in H. lia.
Qed.

Lemma fold_size_shift :
  forall (utf16 : string -> option wstring) (args : list string) (n : Z),
    fold_left (fun size arg => size + utf16_size utf16 arg * sizeof_wchar_t)
              args n =
    n + fold_left (fun size arg => size + utf16_size utf16 arg * sizeof_wchar_t)
                  args 0.
Proof.
  intros utf16 args. induction args as [|a args IH]; intro n.
  - cbn. lia.
  - cbn [fold_left]. rewrite IH, (IH (0 + _)). lia.
Qed.

Lemma program_args_loop_fits :
  forall (utf16 : string -> option wstring) (verbatim : bool)
         (args : list string) (dst : list Z),
    program_args_loop utf16 args verbatim = Some dst ->
    Z.of_nat (length dst) * sizeof_wchar_t
    <= fold_left (fun size arg => size + utf16_size utf16 arg * sizeof_wchar_t)
                 args 0 * 2
       + Z.of_nat (length args) * 2.
Proof.
  intros utf16 verbatim args.
  induction args as [|a args IH]; intros dst H.
  - inversion H. cbn. lia.
  - cbn [program_args_loop] in H. cbn [fold_left length].
    rewrite fold_size_shift. unfold utf16_size at 1.
    destruct (utf16 a) as [buffer|]; [|discriminate].
    destruct (program_args_loop utf16 args verbatim) as [tail|];
      [|discriminate].
    cbn [option_map] in H. inversion H. subst dst. clear H.
    specialize (IH tail eq_refl).
    rewrite length_app. cbn [length].
    assert (Hw : (length (if verbatim then buffer else quote_cmd_arg buffer)
                  <= 2 * length buffer + 2)%nat).
    { destruct verbatim; [lia | apply quote_cmd_arg_length]. }
    unfold sizeof_wchar_t in *. lia.
Qed.

(** X16.  The command line never outgrows its buffer: whatever the
    arguments and in both modes, the characters [make_program_args]
    writes, separators and terminating null included, take no more
    bytes than the size it has computed and handed to malloc. *)
Theorem make_program_args_fits_buffer :
  forall (utf16 : string -> option wstring) (args : list string)
         (verbatim_arguments : bool) (dst : list Z),
    make_program_args utf16 args verbatim_arguments = Some dst ->
    Z.of_nat (length dst) * sizeof_wchar_t <= program_args_size utf16 args.
Proof.
  intros utf16 args verbatim dst H.
  unfold program_args_size.
  exact (program_args_loop_fits utf16 verbatim args dst H).
Qed.

Lemma make_program_args_fits_buffer_witness :
  (Z.of_nat (length (W "prog " ++ [L_dquote] ++ W "a b" ++ [L_dquote; 0]))
     * sizeof_wchar_t
   <=? program_args_size ascii_utf16 ["prog"; "a b"]) = true.
Proof.
  apply Z.leb_le.
  apply (make_program_args_fits_buffer ascii_utf16 ["prog"; "a b"] false).
  vm_compute. reflexivity.
Defined.

(** *** Verbatim and quoted arguments *)

(** X17.  Quoting changes nothing where it is not needed: when no
    argument holds a space, a tab or a double quote, the command line
    built with quoting is the one built verbatim. *)
Theorem make_program_args_plain_is_verbatim :
  forall (utf16 : string -> option wstring) (args : list string),
    (forall a w, In a args -> utf16 a = Some w ->
                 wcspbrk w [L_space; L_tab; L_dquote] = false) ->
    make_program_args utf16 args false = make_program_args utf16 args true.
Proof.
  intros utf16 args. unfold make_program_args.
  induction args as [|a args IH]; intro H; [reflexivity|].
  cbn [program_args_loop].
  destruct (utf16 a) as [buffer|] eqn:Ea; [|reflexivity].
  rewrite IH by (intros a' w Hin; apply H; right; exact Hin).
  assert (Hq : quote_cmd_arg buffer = buffer).
  { destruct buffer as [|c b]; [reflexivity|].
    apply quote_cmd_arg_plain; [discriminate|].
    apply (H a); [left; reflexivity | exact Ea]. }
  rewrite Hq. reflexivity.
Qed.

Lemma make_program_args_plain_is_verbatim_witness :
  make_program_args ascii_utf16 ["prog"; "-x"; "C:\dir\file"] false =
    make_program_args ascii_utf16 ["prog"; "-x"; "C:\dir\file"] true.
Proof.
  apply (make_program_args_plain_is_verbatim ascii_utf16
           ["prog"; "-x"; "C:\dir\file"]).
  intros a w [<-|[<-|[<-|[]]]] Hw; vm_compute in Hw; inversion Hw;
    vm_compute; reflexivity.
Defined.

(** *** The environment block fills its buffer *)

Lemma copy_env_size :
  forall (utf16 : string -> option wstring) (env_block : list string)
         (body : list Z) (n : Z),
    copy_env utf16 env_block = Some body ->
    fold_left (fun n env => n + utf16_size utf16 env * sizeof_wchar_t)
              env_block n =
    n + Z.of_nat (length body) * sizeof_wchar_t.
Proof.
  intros utf16 env_block.
  induction env_block as [|e rest IH]; intros body n H.
  - inversion H. cbn. lia.
  - cbn [copy_env] in H. cbn [fold_left]. unfold utf16_size at 2.
    destruct (utf16 e) as [w|]; [|discriminate].
    destruct (copy_env utf16 rest) as [tail|]; [|discriminate].
    cbn [option_map] in H. inversion H. subst body. clear H.
    rewrite (IH tail _ eq_refl), !length_app. cbn [length].
    unfold sizeof_wchar_t. lia.
Qed.

(** [len] counts the characters of the name and one more, as
    [sizeof(str)] does. *)
Definition len_is_sizeof (r : env_var_t) : Prop :=
  len r = S (length (wide r)).

Lemma W_length :
  forall s : string, length (W s) = String.length s.
Proof.
  intro s. unfold W. rewrite length_map.
  induction s as [|c s IH]; [reflexivity|]. cbn. rewrite IH. reflexivity.
Qed.

Lemma E_V_len : forall str : string, len_is_sizeof (E_V str).
Proof.
  intro str. unfold len_is_sizeof, E_V. cbn [len wide].
  rewrite W_length. reflexivity.
Qed.

Lemma check_keeps_len :
  forall (rs : list env_var_t) (var : string),
    Forall len_is_sizeof rs ->
    Forall len_is_sizeof (check_required_vars_contains_var rs var).
Proof.
  intros rs var H. induction H as [|r rs Hr Hrs IH]; [constructor|].
  cbn [check_required_vars_contains_var].
  destruct (strnicmp_eq (narrow r) var (len r)); constructor; assumption.
Qed.

Lemma fold_check_keeps_len :
  forall (env_block : list string) (rs : list env_var_t),
    Forall len_is_sizeof rs ->
    Forall len_is_sizeof
      (fold_left check_required_vars_contains_var env_block rs).
Proof.
  induction env_block as [|var rest IH]; intros rs H; [exact H|].
  cbn [fold_left]. apply IH, check_keeps_len, H.
Qed.

Lemma required_size :
  forall (penv : wstring -> option wstring) (rs rs' : list env_var_t)
         (injected : list Z) (n : Z),
    Forall len_is_sizeof rs ->
    size_required penv rs = Some rs' ->
    copy_required penv rs' = Some injected ->
    env_len_required penv rs n =
      Some (n + Z.of_nat (length injected) * sizeof_wchar_t).
Proof.
  intros penv rs. induction rs as [|r rs IH]; intros rs' inj n Hlen Hs Hc.
  - inversion Hs. subst. inversion Hc. subst. cbn. f_equal. lia.
  - inversion Hlen as [|r0 rs0 Hr Hrs]. subst.
    cbn [size_required] in Hs. cbn [env_len_required].
    destruct (supplied r) eqn:Esup.
    + destruct (size_required penv rs) as [rs1|] eqn:E1; [|discriminate].
      cbn [option_map] in Hs. inversion Hs. subst rs'. clear Hs.
      cbn [copy_required] in Hc. rewrite Esup in Hc.
      exact (IH _ _ n Hrs eq_refl Hc).
    + destruct (env_size penv (wide r) =? 0) eqn:Ez; [discriminate|].
      destruct (size_required penv rs) as [rs1|] eqn:E1; [|discriminate].
      cbn [option_map] in Hs. inversion Hs. subst rs'. clear Hs.
      cbn [copy_required supplied set_value_len wide] in Hc.
      rewrite Esup in Hc.
      unfold env_size in *. unfold env_copy in Hc.
      destruct (penv (wide r)) as [v|]; [|discriminate].
      destruct (Z.of_nat (length v) =? 0); [discriminate|].
      destruct (copy_required penv rs1) as [inj1|] eqn:E2; [|discriminate].
      cbn [option_map] in Hc. inversion Hc. subst inj. clear Hc.
      rewrite (IH _ _ _ Hrs eq_refl E2).
      f_equal. rewrite !length_app. cbn [length]. rewrite length_app.
      cbn [length]. red in Hr. rewrite Hr.
      unfold sizeof_wchar_t. lia.
Qed.

(** X18.  The environment block fills its buffer exactly: whenever
    [make_program_env] returns a block, the number of bytes it has
    written, the closing null included, is the size it has computed
    and handed to malloc. *)
Theorem make_program_env_fills_buffer :
  forall (utf16 : string -> option wstring) (penv : wstring -> option wstring)
         (env_block : list string) (malloc_ok : bool) (block : list Z),
    make_program_env utf16 penv env_block malloc_ok = EnvBlock block ->
    env_len utf16 penv env_block =
      Some (Z.of_nat (length block) * sizeof_wchar_t).
Proof.
  intros utf16 penv env_block malloc_ok block.
  unfold make_program_env, env_len.
  assert (Hlen : Forall len_is_sizeof
                   (fold_left check_required_vars_contains_var env_block
                              required_vars)).
  { apply fold_check_keeps_len. repeat constructor; apply E_V_len. }
  destruct (size_required penv
              (fold_left check_required_vars_contains_var env_block
                         required_vars)) as [rs'|] eqn:Es; [|discriminate].
  destruct malloc_ok; cbn [negb]; [|discriminate].
  destruct (copy_env utf16 env_block) as [body|] eqn:Eb; [|discriminate].
  destruct (copy_required penv rs') as [inj|] eqn:Ec; [|discriminate].
  intro H. inversion H. subst block. clear H.
  rewrite (copy_env_size utf16 env_block body _ Eb).
  rewrite (required_size penv _ rs' inj _ Hlen Es Ec).
  f_equal. rewrite !length_app. cbn [length]. unfold sizeof_wchar_t. lia.
Qed.

Lemma make_program_env_fills_buffer_witness :
  env_len ascii_utf16 sample_penv ["A=1"; "temp=x"] = Some 98.
Proof.
  apply (make_program_env_fills_buffer ascii_utf16 sample_penv
           ["A=1"; "temp=x"] true
           (W "A=1" ++ [0] ++ W "temp=x" ++ [0]
            ++ W "SYSTEMROOT=C:\Windows" ++ [0]
            ++ W "SYSTEMDRIVE=C:" ++ [0] ++ [0])).
  vm_compute. reflexivity.
Defined.

(** *** The environment block: when the call is fatal *)

Lemma size_required_marked :
  forall (penv : wstring -> option wstring) (env_block : list string),
    size_required penv
      (fold_left check_required_vars_contains_var env_block required_vars)
    = None <->
    exists name, In name required_names
                 /\ supplied_by env_block name = false
                 /\ penv (W name) = None.
Proof.
  intros penv env_block.
  rewrite (fold_check_marks env_block required_vars required_vars_exclusive).
  unfold required_vars, required_names. cbn [map]. rewrite !mark_required.
  assert (Hz : forall name,
             (env_size penv (W name) =? 0) = true <-> penv (W name) = None).
  { intro name. unfold env_size. destruct (penv (W name)) as [v|].
    - split; [|discriminate]. intro H. apply Z.eqb_eq in H. lia.
    - split; reflexivity. }
  destruct (supplied_by env_block "SYSTEMROOT") eqn:S1;
    destruct (supplied_by env_block "SYSTEMDRIVE") eqn:S2;
    destruct (supplied_by env_block "TEMP") eqn:S3;
    cbn [size_required supplied set_supplied E_V wide option_map];
    repeat
      match goal with
      | |- context [env_size penv (W ?n) =? 0] =>
          let E := fresh "E" in
          destruct (env_size penv (W n) =? 0) eqn:E;
          [apply Hz in E |
           assert (penv (W n) <> None)
             by (intro Hn; apply Hz in Hn; congruence); clear E];
          cbn [option_map size_required supplied set_value_len wide E_V]
      end;
    (split;
     [ intro Hx; try discriminate Hx;
       first [ exists "SYSTEMROOT"; cbn [In];
               split; [auto|]; split; assumption
             | exists "SYSTEMDRIVE"; cbn [In];
               split; [auto|]; split; assumption
             | exists "TEMP"; cbn [In];
               split; [auto|]; split; assumption ]
     | intros (name & Hin & Hs & Hp); cbn [In] in Hin;
       try reflexivity;
       destruct Hin as [<-|[<-|[<-|[]]]]; congruence ]).
Qed.

Lemma make_program_env_outcomes :
  forall (utf16 : string -> option wstring) (penv : wstring -> option wstring)
         (env_block : list string),
    ((exists name, In name required_names
                   /\ supplied_by env_block name = false
                   /\ penv (W name) = None) ->
     make_program_env utf16 penv env_block true = EnvFatal)
    /\ (make_program_env utf16 penv env_block true = EnvFatal ->
        exists name, In name required_names
                     /\ supplied_by env_block name = false
                     /\ (penv (W name) = None \/ penv (W name) = Some []))
    /\ (make_program_env utf16 penv env_block true = EnvNull ->
        copy_env utf16 env_block = None
        /\ forall name, In name required_names ->
                        supplied_by env_block name = false ->
                        penv (W name) <> None).
Proof.
  intros utf16 penv env_block.
  pose proof (size_required_marked penv env_block) as Hsize.
  unfold make_program_env.
  destruct (size_required penv
              (fold_left check_required_vars_contains_var env_block
                         required_vars)) as [rs'|] eqn:Es; cbn [negb].
  - assert (Hnone : ~ exists name, In name required_names
                      /\ supplied_by env_block name = false
                      /\ penv (W name) = None).
    { intro Hex. apply Hsize in Hex. discriminate Hex. }
    split; [intro Hex; destruct (Hnone Hex)|].
    destruct (copy_env utf16 env_block) as [body|] eqn:Eb.
    + split; [|destruct (copy_required penv rs'); discriminate].
      destruct (copy_required penv rs') as [inj|] eqn:Ec; [discriminate|].
      intros _.
      revert Es Ec.
      rewrite (fold_check_marks env_block required_vars
                 required_vars_exclusive).
      unfold required_vars, required_names. cbn [map].
      rewrite !mark_required.
      assert (Hcopy : forall name,
                 (snd (env_copy penv (W name)) =? 0) = true ->
                 penv (W name) = None \/ penv (W name) = Some []).
      { intro name. unfold env_copy.
        destruct (penv (W name)) as [[|c v]|]; cbn; auto. discriminate. }
      destruct (supplied_by env_block "SYSTEMROOT") eqn:S1;
        destruct (supplied_by env_block "SYSTEMDRIVE") eqn:S2;
        destruct (supplied_by env_block "TEMP") eqn:S3;
        cbn [size_required supplied set_supplied E_V wide option_map];
        repeat
          match goal with
          | |- context [env_size penv (W ?n) =? 0] =>
              destruct (env_size penv (W n) =? 0);
              cbn [option_map size_required supplied set_value_len wide E_V]
          end;
        intro Es; inversion Es; subst rs'; clear Es;
        cbn [copy_required supplied set_supplied set_value_len E_V wide];
        repeat
          match goal with
          | |- context [env_copy penv (W ?n)] =>
              let E := fresh "E" in
              let st := fresh "stored" in
              let vs := fresh "var_size" in
              generalize (Hcopy n);
              destruct (env_copy penv (W n)) as [st vs];
              cbn [snd]; intro E;
              destruct (vs =? 0);
              [ intros _; exists n; cbn [In];
                split; [auto|]; split; [assumption | exact (E eq_refl)]
              | clear E ];
              cbn [option_map copy_required supplied set_supplied
                   set_value_len E_V wide]
          end;
        intro Ec; discriminate Ec.
    + split; [discriminate|]. intros _. split; [reflexivity|].
      intros name Hin Hs Hp. apply Hnone. exists name. auto.
  - split; [reflexivity|]. split; [|discriminate].
    intros _. destruct (proj1 Hsize eq_refl) as (name & Hin & Hs & Hp).
    exists name. auto.
Qed.

Lemma make_program_env_no_memory :
  forall (utf16 : string -> option wstring) (penv : wstring -> option wstring)
         (env_block : list string),
    make_program_env utf16 penv env_block false = EnvFatal.
Proof.
  intros utf16 penv env_block. unfold make_program_env.
  destruct (size_required penv _); reflexivity.
Qed.

(** X19.  [make_program_env] ends in the fatal error whenever one of
    SYSTEMROOT, SYSTEMDRIVE and TEMP is named neither by the caller
    (on the NAME= prefix, letter case aside) nor set in the current
    process, whatever else the caller gives, and whenever malloc fails.
    When it ends in the fatal error, either malloc has failed or some
    required variable that the caller left out is unset or empty in
    the current process.  A string that does not convert gives NULL
    instead only when malloc has succeeded and no required variable is
    missing. *)
Theorem make_program_env_fatal_iff_missing :
  forall (utf16 : string -> option wstring) (penv : wstring -> option wstring)
         (env_block : list string) (malloc_ok : bool),
    ((exists name, In name required_names
                   /\ supplied_by env_block name = false
                   /\ penv (W name) = None) ->
     make_program_env utf16 penv env_block malloc_ok = EnvFatal)
    /\ (malloc_ok = false ->
        make_program_env utf16 penv env_block malloc_ok = EnvFatal)
    /\ (make_program_env utf16 penv env_block malloc_ok = EnvFatal ->
        malloc_ok = false
        \/ exists name, In name required_names
                        /\ supplied_by env_block name = false
                        /\ (penv (W name) = None
                            \/ penv (W name) = Some []))
    /\ (make_program_env utf16 penv env_block malloc_ok = EnvNull ->
        malloc_ok = true
        /\ copy_env utf16 env_block = None
        /\ forall name, In name required_names ->
                        supplied_by env_block name = false ->
                        penv (W name) <> None).
Proof.
  intros utf16 penv env_block malloc_ok.
  destruct (make_program_env_outcomes utf16 penv env_block)
    as (Hmiss & Hfatal & Hnull).
  pose proof (make_program_env_no_memory utf16 penv env_block) as Hmem.
  destruct malloc_ok.
  - split; [exact Hmiss|]. split; [discriminate|].
    split; [intro H; right; exact (Hfatal H)|].
    intro H. split; [reflexivity | exact (Hnull H)].
  - split; [intros _; exact Hmem|]. split; [intros _; exact Hmem|].
    split; [intros _; left; reflexivity|].
    rewrite Hmem. discriminate.
Qed.

(** *** Path search: what a hit is *)

(** A file that exists and is neither a directory nor a reparse
    point. *)
Definition plain_file (GetFileAttributesW : wstring -> option Z)
    (p : wstring) : Prop :=
  exists attrs : Z,
    GetFileAttributesW p = Some attrs
    /\ Z.land attrs
         (Z.lor FILE_ATTRIBUTE_DIRECTORY FILE_ATTRIBUTE_REPARSE_POINT) = 0.

Lemma join_test_found :
  forall (GetFileAttributesW : wstring -> option Z) (dir : wstring)
         (dir_len : Z) (name ext cwd p : wstring),
    search_path_join_test GetFileAttributesW dir dir_len name ext cwd = Found p ->
    plain_file GetFileAttributesW p.
Proof.
  intros attrs dir dir_len name ext cwd p. unfold search_path_join_test.
  destruct (dir_len <? 0); [discriminate|]. cbv zeta.
  match goal with
  | |- match ?s with _ => _ end = _ -> _ => destruct s as [cwd_len dir']
  end.
  match goal with
  | |- match attrs ?r with _ => _ end = _ -> _ =>
      destruct (attrs r) as [a|] eqn:Ea; [|discriminate];
      destruct (Z.eqb_spec
                  (Z.land a (Z.lor FILE_ATTRIBUTE_DIRECTORY
                                   FILE_ATTRIBUTE_REPARSE_POINT)) 0)
        as [Hz|Hz]; [|discriminate];
      intro H; inversion H; subst p; exists a; split; assumption
  end.
Qed.

Lemma walk_ext_found :
  forall (GetFileAttributesW : wstring -> option Z) (dir : wstring)
         (dir_len : Z) (name cwd : wstring) (name_has_ext : bool) (p : wstring),
    path_search_walk_ext GetFileAttributesW dir dir_len name cwd name_has_ext
      = Found p ->
    plain_file GetFileAttributesW p.
Proof.
  intros attrs dir dir_len name cwd ext p. unfold path_search_walk_ext.
  destruct ext.
  - destruct (search_path_join_test attrs dir dir_len name [] cwd) eqn:E1;
      cbn [or_else]; try discriminate.
    + intro H. inversion H. subst. exact (join_test_found _ _ _ _ _ _ _ E1).
    + destruct (search_path_join_test attrs dir dir_len name (W "com") cwd)
        eqn:E2; cbn [or_else]; try discriminate.
      * intro H. inversion H. subst. exact (join_test_found _ _ _ _ _ _ _ E2).
      * apply join_test_found.
  - cbn [or_else].
    destruct (search_path_join_test attrs dir dir_len name (W "com") cwd)
      eqn:E2; cbn [or_else]; try discriminate.
    + intro H. inversion H. subst. exact (join_test_found _ _ _ _ _ _ _ E2).
    + apply join_test_found.
Qed.

Lemma path_loop_found :
  forall (GetFileAttributesW : wstring -> option Z) (file cwd : wstring)
         (name_has_ext : bool) (fuel : nat) (at_start : bool)
         (dir_end p : wstring),
    path_loop GetFileAttributesW fuel file cwd name_has_ext at_start dir_end
      = Some (Found p) ->
    plain_file GetFileAttributesW p.
Proof.
  intros attrs file cwd ext fuel.
  induction fuel as [|fuel IH]; intros at_start dir_end p H; [discriminate|].
  cbn [path_loop] in H.
  destruct dir_end as [|c after_sep]; [discriminate|].
  destruct (slice (if at_start then c :: after_sep else after_sep))
    as [entry rest].
  destruct (length entry =? 0)%nat; [exact (IH _ _ _ H)|].
  destruct (adjust_quoted entry) as [dir_path dir_len].
  destruct (path_search_walk_ext attrs dir_path dir_len file cwd ext) eqn:Ew.
  - inversion H. subst. exact (walk_ext_found _ _ _ _ _ _ _ Ew).
  - exact (IH _ _ _ H).
  - discriminate.
Qed.

(** X20.  Whatever the file, the current directory and PATH, a path
    that [search_path] returns exists and is neither a directory nor
    a reparse point: it is the path GetFileAttributesW was asked
    about last. *)
Theorem search_path_finds_plain_file :
  forall (GetFileAttributesW : wstring -> option Z) (fuel : nat)
         (file cwd path p : wstring),
    search_path GetFileAttributesW fuel file cwd path = Some (Found p) ->
    plain_file GetFileAttributesW p.
Proof.
  intros attrs fuel file cwd path p. unfold search_path.
  destruct ((length file =? 0)%nat
            || ((length file =? 1)%nat && (nth 0 file 0 =? L_dot)));
    [discriminate|].
  destruct (name_start (rev file)) as [rname rdir].
  destruct (negb (length (rev rdir) =? 0)%nat).
  - intro H. inversion H as [Hw]. exact (walk_ext_found _ _ _ _ _ _ _ Hw).
  - destruct (path_search_walk_ext attrs [] 0 file cwd
                (has_ext (rev rname))) eqn:Ew.
    + intro H. inversion H. subst. exact (walk_ext_found _ _ _ _ _ _ _ Ew).
    + apply path_loop_found.
    + discriminate.
Qed.

Lemma search_path_finds_plain_file_witness :
  plain_file one_program (W "C:\bin\app.exe").
Proof.
  apply (search_path_finds_plain_file one_program 20 (W "app") (W "D:\work")
           (W "C:\x;C:\bin")).
  vm_compute. reflexivity.
Defined.

(** *** Path search: a file given with a directory *)

Lemma name_start_spec :
  forall l n d : wstring,
    name_start l = (n, d) ->
    l = n ++ d /\ Forall (fun c => is_file_sep c = false) n.
Proof.
  induction l as [|c l IH]; intros n d H.
  - inversion H. split; [reflexivity | constructor].
  - cbn [name_start] in H. destruct (is_file_sep c) eqn:Ec.
    + inversion H. split; [reflexivity | constructor].
    + destruct (name_start l) as [n' d'] eqn:E. inversion H. subst.
      destruct (IH n' d eq_refl) as [Hl Hn]. subst l.
      split; [reflexivity | constructor; assumption].
Qed.

(** The file name split as [search_path] splits it. *)
Lemma file_split :
  forall file rname rdir : wstring,
    name_start (rev file) = (rname, rdir) ->
    file = rev rdir ++ rev rname
    /\ Forall (fun c => is_file_sep c = false) (rev rname).
Proof.
  intros file rname rdir H. apply name_start_spec in H.
  destruct H as [Hl Hn]. split.
  - rewrite <- rev_app_distr, <- Hl, rev_involutive. reflexivity.
  - apply Forall_rev. exact Hn.
Qed.

Lemma no_sep_existsb :
  forall l : wstring,
    Forall (fun c => is_file_sep c = false) l -> existsb is_file_sep l = false.
Proof.
  intros l H. induction H as [|c l Hc Hl IH]; [reflexivity|].
  cbn [existsb]. rewrite Hc, IH. reflexivity.
Qed.

(** X21.  When the file name holds a backslash, a slash or a colon,
    PATH is not searched: the answer of [search_path] is there for
    any number of iterations allowed and is the same whatever PATH
    is. *)
Theorem search_path_with_directory_ignores_path :
  forall (GetFileAttributesW : wstring -> option Z) (file cwd : wstring),
    existsb is_file_sep file = true ->
    exists r : search_result,
      forall (fuel : nat) (path : wstring),
        search_path GetFileAttributesW fuel file cwd path = Some r.
Proof.
  intros attrs file cwd Hsep. unfold search_path.
  destruct file as [|c0 f0]; [discriminate|].
  assert (Hdot : ((length (c0 :: f0) =? 1)%nat
                  && (nth 0 (c0 :: f0) 0 =? L_dot)) = false).
  { destruct f0 as [|c1 f1]; [|reflexivity].
    cbn [length Nat.eqb nth andb]. cbn [existsb] in Hsep.
    rewrite orb_false_r in Hsep.
    destruct (Z.eqb_spec c0 L_dot) as [->|]; [discriminate Hsep | reflexivity]. }
  rewrite Hdot. cbn [length Nat.eqb orb].
  destruct (name_start (rev (c0 :: f0))) as [rname rdir] eqn:En.
  destruct (file_split _ _ _ En) as [Hf Hn].
  destruct (rev rdir) as [|d0 dr] eqn:Ed.
  - cbn [app] in Hf. rewrite <- Hf in Hn.
    apply no_sep_existsb in Hn. congruence.
  - cbn [length Nat.eqb negb]. eexists. intros fuel path. reflexivity.
Qed.

Lemma search_path_with_directory_ignores_path_witness :
  exists r : search_result,
    forall (fuel : nat) (path : wstring),
      search_path one_program fuel (W "C:\bin\app") (W "D:\work") path = Some r.
Proof.
  apply (search_path_with_directory_ignores_path one_program
           (W "C:\bin\app") (W "D:\work")).
  vm_compute. reflexivity.
Defined.

(** *** Path search: the current directory *)

Lemma join_test_absolute :
  forall (GetFileAttributesW : wstring -> option Z) (d s : Z)
         (r name ext cwd : wstring),
    is_slash d = false -> is_slash s = true ->
    search_path_join_test GetFileAttributesW (d :: L_colon :: s :: r)
      (Z.of_nat (length (d :: L_colon :: s :: r))) name ext cwd =
    search_path_join_test GetFileAttributesW (d :: L_colon :: s :: r)
      (Z.of_nat (length (d :: L_colon :: s :: r))) name ext [].
Proof.
  intros attrs d s r name ext cwd Hd Hs. unfold search_path_join_test.
  rewrite Nat2Z.id, firstn_all.
  set (n := Z.of_nat (length (d :: L_colon :: s :: r))).
  assert (Hn : 3 <= n) by (subst n; cbn [length]; lia).
  destruct (Z.ltb_spec n 0) as [H0|_]; [lia|].
  cbn [nth]. rewrite Hd, Hs, Z.eqb_refl, !andb_false_r.
  cbn [negb]. rewrite orb_false_r.
  destruct (Z.ltb_spec n 3) as [H3|_]; [lia|].
  rewrite andb_false_r.
  destruct (Z.gtb_spec n 2) as [_|H2]; [|lia].
  cbn [andb]. reflexivity.
Qed.

Lemma wcsncpy_drive :
  forall cwd1 cwd2 : wstring,
    firstn 2 cwd1 = firstn 2 cwd2 -> wcsncpy cwd1 2 = wcsncpy cwd2 2.
Proof.
  intros cwd1 cwd2 H. unfold wcsncpy. rewrite H. f_equal.
  destruct cwd1 as [|a [|b c1]]; destruct cwd2 as [|a' [|b' c2]];
    cbn in H; try discriminate; reflexivity.
Qed.

Lemma join_test_rooted :
  forall (GetFileAttributesW : wstring -> option Z) (s : Z)
         (r name ext cwd1 cwd2 : wstring),
    is_slash s = true ->
    firstn 2 cwd1 = firstn 2 cwd2 ->
    search_path_join_test GetFileAttributesW (s :: r)
      (Z.of_nat (length (s :: r))) name ext cwd1 =
    search_path_join_test GetFileAttributesW (s :: r)
      (Z.of_nat (length (s :: r))) name ext cwd2.
Proof.
  intros attrs s r name ext cwd1 cwd2 Hs Hc. unfold search_path_join_test.
  rewrite Nat2Z.id, firstn_all.
  set (n := Z.of_nat (length (s :: r))).
  assert (Hn : 1 <= n) by (subst n; cbn [length]; lia).
  destruct (Z.ltb_spec n 0) as [H0|_]; [lia|].
  destruct (Z.geb_spec n 1) as [_|H1]; [|lia].
  cbn [nth andb]. rewrite Hs. cbv zeta.
  change (Z.to_nat 2) with 2%nat.
  rewrite (wcsncpy_drive cwd1 cwd2 Hc). reflexivity.
Qed.

Lemma is_slash_sep :
  forall c : Z, is_slash c = true -> is_file_sep c = true.
Proof.
  intros c. unfold is_slash, is_file_sep.
  destruct (c =? L_slash), (c =? L_backslash); cbn; intro H;
    try reflexivity; discriminate H.
Qed.

(** X22.  A file given as an absolute path with a drive letter
    (a character that is no slash, a colon, then a slash or a
    backslash) is looked up as it is: neither the current directory
    nor PATH has any part in the answer. *)
Theorem search_path_absolute_ignores_cwd :
  forall (GetFileAttributesW : wstring -> option Z) (d s : Z)
         (rest cwd1 cwd2 path1 path2 : wstring) (fuel1 fuel2 : nat),
    is_slash d = false -> is_slash s = true ->
    search_path GetFileAttributesW fuel1 (d :: L_colon :: s :: rest)
      cwd1 path1 =
    search_path GetFileAttributesW fuel2 (d :: L_colon :: s :: rest)
      cwd2 path2.
Proof.
  intros attrs d s rest cwd1 cwd2 path1 path2 fuel1 fuel2 Hd Hs.
  unfold search_path. cbn [length Nat.eqb orb andb].
  destruct (name_start (rev (d :: L_colon :: s :: rest)))
    as [rname rdir] eqn:En.
  destruct (file_split _ _ _ En) as [Hf Hn].
  assert (Hdir : exists r', rev rdir = d :: L_colon :: s :: r').
  { destruct (rev rdir) as [|a [|b [|c r']]]; cbn [app] in Hf.
    - rewrite <- Hf in Hn. inversion Hn as [|x l Hx Hl]. subst.
      inversion Hl as [|x' l' Hx' Hl']. subst. discriminate Hx'.
    - inversion Hf as [[Ha Hrest]]. rewrite <- Hrest in Hn.
      inversion Hn as [|x l Hx Hl]. discriminate Hx.
    - inversion Hf as [[Ha Hb Hrest]]. rewrite <- Hrest in Hn.
      inversion Hn as [|x l Hx Hl]. subst.
      rewrite (is_slash_sep _ Hs) in Hx. discriminate Hx.
    - inversion Hf. subst. exists r'. reflexivity. }
  destruct Hdir as [r' Hr']. rewrite Hr'.
  cbn [length Nat.eqb negb]. unfold path_search_walk_ext.
  rewrite !(join_test_absolute attrs d s r' _ _ cwd1 Hd Hs).
  rewrite !(join_test_absolute attrs d s r' _ _ cwd2 Hd Hs).
  reflexivity.
Qed.

Lemma search_path_absolute_ignores_cwd_witness :
  search_path one_program 0 (W "C:\bin\app") (W "D:\work") (W "C:\x") =
    search_path one_program 9 (W "C:\bin\app") (W "E:\tmp") [].
Proof.
  apply (search_path_absolute_ignores_cwd one_program 67 92
           (W "bin\app") (W "D:\work") (W "E:\tmp") (W "C:\x") [] 0 9);
    reflexivity.
Defined.

(** X23.  A file given as a path that starts with a slash or a
    backslash takes from the current directory its first two
    characters, the drive, and nothing else: two current directories
    that agree on them give the same answer. *)
Theorem search_path_rooted_uses_drive_only :
  forall (GetFileAttributesW : wstring -> option Z) (s : Z)
         (rest cwd1 cwd2 path1 path2 : wstring) (fuel1 fuel2 : nat),
    is_slash s = true ->
    firstn 2 cwd1 = firstn 2 cwd2 ->
    search_path GetFileAttributesW fuel1 (s :: rest) cwd1 path1 =
    search_path GetFileAttributesW fuel2 (s :: rest) cwd2 path2.
Proof.
  intros attrs s rest cwd1 cwd2 path1 path2 fuel1 fuel2 Hs Hc.
  unfold search_path.
  assert (Hdot : ((length (s :: rest) =? 1)%nat
                  && (nth 0 (s :: rest) 0 =? L_dot)) = false).
  { cbn [nth]. destruct (Z.eqb_spec s L_dot) as [->|];
      [discriminate Hs | apply andb_false_r]. }
  rewrite Hdot. cbn [length Nat.eqb orb].
  destruct (name_start (rev (s :: rest))) as [rname rdir] eqn:En.
  destruct (file_split _ _ _ En) as [Hf Hn].
  assert (Hdir : exists r', rev rdir = s :: r').
  { destruct (rev rdir) as [|a r']; cbn [app] in Hf.
    - rewrite <- Hf in Hn. inversion Hn as [|x l Hx Hl]. subst.
      rewrite (is_slash_sep _ Hs) in Hx. discriminate Hx.
    - inversion Hf. subst. exists r'. reflexivity. }
  destruct Hdir as [r' Hr']. rewrite Hr'.
  cbn [length Nat.eqb negb]. unfold path_search_walk_ext.
  rewrite !(join_test_rooted attrs s r' _ _ cwd1 cwd2 Hs Hc).
  reflexivity.
Qed.

Lemma search_path_rooted_uses_drive_only_witness :
  search_path one_program 0 (W "\bin\app") (W "C:\work") (W "C:\x") =
    search_path one_program 9 (W "\bin\app") (W "C:\other\place") [].
Proof.
  apply (search_path_rooted_uses_drive_only one_program 92
           (W "bin\app") (W "C:\work") (W "C:\other\place") (W "C:\x") [] 0 9);
    reflexivity.
Defined.

(** *** Path search: a PATH that starts with a semicolon *)

(** X24.  For a file name without directory part that is not found in
    the current directory, a PATH whose first character is a semicolon
    keeps [search_path] in its loop for ever: no number of iterations
    is enough for an answer. *)
Theorem search_path_leading_semicolon_never_ends :
  forall (GetFileAttributesW : wstring -> option Z)
         (file cwd rest : wstring) (fuel : nat),
    file <> [] -> file <> [L_dot] ->
    Forall (fun c => is_file_sep c = false) file ->
    path_search_walk_ext GetFileAttributesW [] 0 file cwd (has_ext file)
      = NotFound ->
    search_path GetFileAttributesW fuel file cwd (L_semicolon :: rest) = None.
Proof.
  intros attrs file cwd rest fuel Hne Hdot Hsep Hcwd.
  unfold search_path.
  assert (H0 : (length file =? 0)%nat = false).
  { destruct file; [congruence | reflexivity]. }
  assert (H1 : ((length file =? 1)%nat && (nth 0 file 0 =? L_dot)) = false).
  { destruct file as [|c [|c' f]]; try reflexivity.
    cbn [length Nat.eqb nth andb].
    destruct (Z.eqb_spec c L_dot); [subst; congruence | reflexivity]. }
  rewrite H0, H1. cbn [orb].
  rewrite name_start_no_sep by (apply Forall_rev; exact Hsep).
  rewrite rev_involutive. cbn [rev length Nat.eqb negb].
  rewrite Hcwd. apply path_loop_stuck_at_start.
Qed.

Lemma search_path_leading_semicolon_never_ends_witness :
  search_path one_program 1000 (W "app") (W "D:\work") (L_semicolon :: W "C:\bin")
    = None.
Proof.
  apply (search_path_leading_semicolon_never_ends one_program
           (W "app") (W "D:\work") (W "C:\bin") 1000).
  - discriminate.
  - discriminate.
  - repeat constructor.
  - vm_compute. reflexivity.
Defined.

(** *** Child stdio: the shape of the buffer *)




(** *** Spawn on Windows: failures *)







Lemma spawn_setup_fails :
  forall (fuel : nat) (options : uv_process_options_t) (w : spawn_world),
    spawn_setup fuel options w = Some SetupFails ->
    to_utf16 w (opt_file options) = None
    \/ (exists dir, opt_cwd options = Some dir /\ to_utf16 w dir = None)
    \/ (opt_cwd options = None
        /\ (current_directory w = None \/ malloc_cwd w = false))
    \/ malloc_stdio w = false
    \/ init_child_stdio (nul_opens w) (opt_stdio options) = None.
Proof.
  intros fuel options w. unfold spawn_setup.
  destruct (malloc_application w); cbn [negb]; [|discriminate].
  destruct (to_utf16 w (opt_file options)) as [application|]; [|auto].
  destruct (opt_args options) as [args|];
    [destruct (malloc_arguments w); cbn [negb]; [|discriminate]|];
    (destruct (opt_env options) as [env_block|];
     [destruct (make_program_env (to_utf16 w) (process_env w) env_block
                  (malloc_env w)); [discriminate| |]|]);
    (destruct (opt_cwd options) as [dir|] eqn:Ec;
     [ destruct (malloc_cwd w); cbn [negb]; [|discriminate];
       destruct (to_utf16 w dir) as [cwd|] eqn:Ed;
       [|intros _; right; left; exists dir; auto]
     | destruct (current_directory w) as [cwd|];
       [|intros _; right; right; left; auto];
       destruct (malloc_cwd w); cbn [negb];
       [|intros _; right; right; left; auto] ]);
    (destruct (malloc_path w); cbn [negb]; [|discriminate]);
    (match goal with
     | |- context [search_path ?a ?f ?x ?c ?p] =>
         destruct (search_path a f x c p) as [[r| |]|]
     end; try discriminate);
    (destruct (malloc_stdio w); cbn [negb]; [|auto 10]);
    (destruct (init_child_stdio (nul_opens w) (opt_stdio options));
     [discriminate | auto 10]).
Qed.

(** X27.  When the options ask for setuid or setgid, [uv_spawn]
    returns -1 at once and leaves the handle as the caller gave it.
    Otherwise it initialises the handle, and when it returns, it
    returns 0 or -1: -1 exactly when the part before CreateProcessW
    has failed, which happens only when the file name or the working
    directory does not convert, or the current directory cannot be
    read or stored, or the stdio buffer cannot be set up; then nothing
    was asked of the system, and the handle is not active and holds
    neither a process handle nor a wait handle.  The call ends in the
    fatal error exactly when that part does, or when the request that
    follows CreateProcessW is refused; it does not return while the
    search does not. *)
Theorem uv_spawn_synchronous_failure :
  forall (fuel : nat) (process : uv_process_t)
         (options : uv_process_options_t) (w : spawn_world),
    (opt_setuid_or_setgid options = true ->
     uv_spawn fuel process options w = Some (SpawnReturns (-1) process []))
    /\ (opt_setuid_or_setgid options = false ->
        (uv_spawn fuel process options w = None <->
         spawn_setup fuel options w = None)
        /\ (uv_spawn fuel process options w = Some SpawnFatal <->
            spawn_setup fuel options w = Some SetupFatal
            \/ exists application_path arguments env cwd buffer,
                 spawn_setup fuel options w =
                   Some (SetupDone application_path arguments env cwd buffer)
                 /\ ((exists started, create_process w = Got started
                                      /\ register_wait w = None)
                     \/ (exists last_error,
                            create_process w = Fail last_error
                            /\ queue_work_item w = false)))
        /\ forall (err : Z) (process' : uv_process_t) (asked : list event),
             uv_spawn fuel process options w =
               Some (SpawnReturns err process' asked) ->
             (err = 0 \/ err = -1)
             /\ (err = -1 <-> spawn_setup fuel options w = Some SetupFails)
             /\ (err = -1 ->
                 asked = []
                 /\ exit_cb process' = opt_exit_cb options
                 /\ active process' = false
                 /\ process_handle process' = None
                 /\ wait_handle process' = None
                 /\ child_stdio_buffer process' = None
                 /\ (to_utf16 w (opt_file options) = None
                     \/ (exists dir, opt_cwd options = Some dir
                                     /\ to_utf16 w dir = None)
                     \/ (opt_cwd options = None
                         /\ (current_directory w = None
                             \/ malloc_cwd w = false))
                     \/ malloc_stdio w = false
                     \/ init_child_stdio (nul_opens w) (opt_stdio options)
                        = None))).
Proof.
  intros fuel process options w. unfold uv_spawn.
  split; [intros ->; reflexivity|]. intros ->.
  pose proof (spawn_setup_fails fuel options w) as Hcause.
  destruct (spawn_setup fuel options w)
    as [[application_path arguments env cwd buffer| | |]|].
  - destruct (create_process w) as [[hProcess dwProcessId]|last_error] eqn:Ecp.
    + destruct (register_wait w) as [wait|] eqn:Ew.
      * split; [split; discriminate|]. split.
        { split; [discriminate|].
          intros [H|(a & b & c & d & e & _ & [(s & _ & H)|(l & H & _)])];
            discriminate. }
        intros err process' asked H. inversion H. subst.
        split; [left; reflexivity|].
        split; [split; discriminate | discriminate].
      * split; [split; discriminate|]. split.
        { split; [|reflexivity]. intros _. right.
          exists application_path, arguments, env, cwd, buffer.
          split; [reflexivity|]. left. eexists. split; reflexivity. }
        intros err process' asked H. discriminate H.
    + destruct (queue_work_item w) eqn:Eq; cbn [negb].
      * split; [split; discriminate|]. split.
        { split; [discriminate|].
          intros [H|(a & b & c & d & e & _ & [(s & H & _)|(l & _ & H)])];
            discriminate. }
        intros err process' asked H. inversion H. subst.
        split; [left; reflexivity|].
        split; [split; discriminate | discriminate].
      * split; [split; discriminate|]. split.
        { split; [|reflexivity]. intros _. right.
          exists application_path, arguments, env, cwd, buffer.
          split; [reflexivity|]. right. eexists. split; reflexivity. }
        intros err process' asked H. discriminate H.
  - split; [split; discriminate|]. split.
    { split; [discriminate|].
      intros [H|(a & b & c & d & e & H & _)]; discriminate. }
    intros err process' asked H. inversion H. subst.
    split; [right; reflexivity|].
    split; [split; reflexivity|]. intros _.
    repeat (split; [reflexivity|]). exact (Hcause eq_refl).
  - split; [split; discriminate|]. split.
    { split; [|reflexivity]. intros _. left. reflexivity. }
    intros err process' asked H. discriminate H.
  - split; [split; discriminate|]. split.
    { split; [discriminate|].
      intros [H|(a & b & c & d & e & H & _)]; discriminate. }
    intros err process' asked H. discriminate H.
  - split; [split; reflexivity|]. split.
    { split; [discriminate|].
      intros [H|(a & b & c & d & e & H & _)]; discriminate. }
    intros err process' asked H. discriminate H.
Qed.

(** *** Kill on Windows *)

(** X28.  [uv_process_kill] calls TerminateProcess only for SIGTERM,
    SIGKILL and SIGINT, on the process handle of the handle and with
    exit code 1.  Any signal other than these and 0 is refused with
    ENOSYS before any system call.  Whenever it returns -1 the handle
    is as before; when it returns 0 the handle records the signal. *)
Theorem uv_process_kill_terminates_on_request :
  forall (process process' : uv_process_t) (signum ret : Z) (w : kill_world)
         (err : option uv_err_code) (evs : list kill_event),
    uv_process_kill process signum w = (ret, process', err, evs) ->
    (forall h code,
        In (EvTerminateProcess h code) evs ->
        code = 1 /\ process_handle process = Some h
        /\ (signum = SIGTERM \/ signum = SIGKILL \/ signum = SIGINT))
    /\ (signum <> 0 -> signum <> SIGTERM -> signum <> SIGKILL ->
        signum <> SIGINT -> process_handle process <> None ->
        ret = -1 /\ err = Some UV_ENOSYS /\ evs = [])
    /\ (ret = 0 \/ ret = -1)
    /\ (ret = -1 -> process' = process)
    /\ (ret = 0 -> process' = set_exit_signal process signum).
Proof.
  intros process process' signum ret w err evs.
  unfold uv_process_kill.
  destruct (process_handle process) as [h|].
  2:{ intro H. inversion H. subst.
      split; [intros h code []|].
      split; [intros _ _ _ _ Hn; congruence|].
      split; [right; reflexivity|].
      split; [reflexivity | discriminate]. }
  unfold uv__kill.
  destruct (Z.eqb_spec signum SIGTERM) as [Et|Et];
    destruct (Z.eqb_spec signum SIGKILL) as [Ek|Ek];
    destruct (Z.eqb_spec signum SIGINT) as [Ei|Ei];
    cbn [orb];
    try (destruct (terminate_res w) as [|e];
         intro H; inversion H; subst ret process' err evs; clear H;
         (split;
          [ intros h' code [Hin|[]]; inversion Hin; subst; auto
          | split; [intros; congruence|];
            first [ split; [left; reflexivity|];
                    split; [discriminate | reflexivity]
                  | split; [right; reflexivity|];
                    split; [reflexivity | discriminate] ] ])).
  destruct (Z.eqb_spec signum 0) as [E0|E0].
  - destruct (exit_code_status w) as [status|e];
      [destruct (status =? STILL_ACTIVE)|];
      intro H; inversion H; subst ret process' err evs; clear H;
      (split;
       [ intros h' code [Hin|[]]; discriminate Hin
       | split; [intros; congruence|];
         first [ split; [left; reflexivity|];
                 split; [discriminate | reflexivity]
               | split; [right; reflexivity|];
                 split; [reflexivity | discriminate] ] ]).
  - intro H; inversion H; subst ret process' err evs; clear H.
    split; [intros h' code []|].
    split; [intros; repeat split; reflexivity|].
    split; [right; reflexivity|].
    split; [reflexivity | discriminate].
Qed.

Definition running_child : uv_process_t :=
  {| exit_cb := Some 5%nat; pid := 4242; exit_signal := 0;
     wait_handle := Some 77; process_handle := Some 66;
     child_stdio_buffer := None; spawn_errno := 0;
     closing := false; active := true |}.

Definition kill_works : kill_world :=
  {| terminate_res := Done; exit_code_status := Got STILL_ACTIVE |}.

Lemma uv_process_kill_terminates_on_request_witness :
  (forall h code,
      In (EvTerminateProcess h code) [EvTerminateProcess 66 1] ->
      code = 1 /\ process_handle running_child = Some h
      /\ (SIGTERM = SIGTERM \/ SIGTERM = SIGKILL \/ SIGTERM = SIGINT))
  /\ (0 = 0 \/ 0 = -1).
Proof.
  pose proof (uv_process_kill_terminates_on_request running_child
                (set_exit_signal running_child SIGTERM) SIGTERM 0 kill_works
                None [EvTerminateProcess 66 1] eq_refl) as H.
  split; [exact (proj1 H) | exact (proj1 (proj2 (proj2 H)))].
Defined.

Lemma uv_process_kill_success :
  forall (process process' : uv_process_t) (signum : Z) (w : kill_world)
         (err : option uv_err_code) (evs : list kill_event),
    uv_process_kill process signum w = (0, process', err, evs) ->
    process' = set_exit_signal process signum
    /\ exists h, process_handle process = Some h.
Proof.
  intros process process' signum w err evs. unfold uv_process_kill.
  destruct (process_handle process) as [h|]; [|discriminate].
  destruct (uv__kill h signum w) as [[] kevs]; intro H; inversion H.
  split; [reflexivity | exists h; reflexivity].
Qed.

(** X29.  The signal of the last [uv_process_kill] that returned 0 is
    what the exit callback reports: after such a kill, the completion
    of the exit request invokes the callback with the exit code of the
    process, converted from DWORD to int (the same number below 2^31,
    a negative one from there on), and that signal, whatever signal was
    recorded before; this holds for the probe with signal 0 too, which
    terminates nothing and sets the recorded signal back to 0. *)
Theorem uv_process_kill_then_exit :
  forall (process process' : uv_process_t) (signum : Z) (w : kill_world)
         (err : option uv_err_code) (evs : list kill_event) (cb : nat)
         (code : Z),
    uv_process_kill process signum w = (0, process', err, evs) ->
    closing process = false ->
    exit_cb process = Some cb ->
    filter is_exit_cb (snd (uv_process_proc_exit process' (Some code))) =
      [EvExitCb cb (as_int code) signum]
    /\ (0 <= code < 2 ^ 31 -> as_int code = code)
    /\ (2 ^ 31 <= code < 2 ^ 32 -> as_int code = code - 2 ^ 32)
    /\ (signum = 0 ->
        forall h c, ~ In (EvTerminateProcess h c) evs).
Proof.
  intros process process' signum w err evs cb code Hk Hcl Hcb.
  destruct (uv_process_kill_success process process' signum
              w err evs Hk) as [Hp Hh].
  subst process'. destruct Hh as [h Hh].
  split.
  - unfold uv_process_proc_exit.
    cbn [closing set_exit_signal wait_handle process_handle exit_cb
         exit_signal].
    rewrite Hcl, Hh, Hcb.
    destruct (wait_handle process); reflexivity.
  - split; [apply as_int_small|]. split.
    { intro Hc. unfold as_int. rewrite Z.mod_small by lia.
      destruct (Z.ltb_spec code (2 ^ 31)); [lia | reflexivity]. }
    intro Hz. subst signum. revert Hk. unfold uv_process_kill, uv__kill.
    rewrite Hh. cbn.
    destruct (exit_code_status w) as [status|e];
      [destruct (status =? STILL_ACTIVE)|];
      intro H; inversion H; subst;
      intros h' c [Hin|[]]; discriminate Hin.
Qed.

Lemma uv_process_kill_then_exit_witness :
  filter is_exit_cb
    (snd (uv_process_proc_exit (set_exit_signal running_child SIGKILL)
            (Some 1))) = [EvExitCb 5 (as_int 1) SIGKILL].
Proof.
  apply (proj1 (uv_process_kill_then_exit running_child
                  (set_exit_signal running_child SIGKILL) SIGKILL kill_works
                  None [EvTerminateProcess 66 1] 5%nat 1
                  eq_refl eq_refl eq_refl)).
Defined.

End WinProcessFacts.

(** ** The exit callback, on both platforms *)






